(** * The USB file relay: poller and forwarder

    A shallow embedding of the two daemons of the repository,
    [copy_new_usb_files_v2.py] (module [Copy]) and [upload_new_files_v2.py]
    (module [Upload]).  Directory trees are finite trees, the calls into the
    operating system are steps on an explicit world that append to a trace,
    Python exceptions are the [Raise] outcome of a step, and the answers of
    the outside (return codes of [mount], the modification time of the image,
    whether a copy or an upload fails) are read from an environment. *)

From Stdlib Require Import ZArith List String DecimalString Sorted Lia.
From stdpp Require Import base list gmap strings.

Open Scope Z_scope.

(** ** Paths, directory trees and directory entries *)

(** A path is the list of its components; [os.path.join] appends. *)
Abbreviation path := (list string).

(** Time stamps are whole seconds, so that [int(t)] is [t]. *)
Unset Elimination Schemes.
Inductive node :=
| File (st_mtime st_ctime : Z) (data : string)
| Dir (st_mtime : Z) (entries : list (string * node)).
Set Elimination Schemes.

(** Induction on trees, with the hypothesis for every child of a directory. *)
Fixpoint node_ind (P : node -> Prop)
    (HF : forall m c d, P (File m c d))
    (HD : forall m es, Forall (fun e => P e.2) es -> P (Dir m es))
    (n : node) {struct n} : P n :=
  match n with
  | File m c d => HF m c d
  | Dir m es =>
      HD m es
        ((fix children (l : list (string * node)) : Forall (fun e => P e.2) l :=
            match l with
            | [] => List.Forall_nil _
            | e :: l' => List.Forall_cons _ e l' (node_ind P HF HD e.2) (children l')
            end) es)
  end.

(** What [os.scandir] yields: the joined path and the entry itself. *)
Record DirEntry := { de_path : path; de_node : node }.

Definition is_file (item : DirEntry) : bool :=
  match de_node item with File _ _ _ => true | Dir _ _ => false end.

Definition is_dir (item : DirEntry) : bool :=
  match de_node item with File _ _ _ => false | Dir _ _ => true end.

Definition mtime_of (n : node) : Z :=
  match n with File m _ _ => m | Dir m _ => m end.

Definition ctime_of (n : node) : Z :=
  match n with File _ c _ => c | Dir m _ => m end.

Definition st_mtime_of (item : DirEntry) : Z := mtime_of (de_node item).
Definition st_ctime_of (item : DirEntry) : Z := ctime_of (de_node item).

Definition entries_of (n : node) : list (string * node) :=
  match n with File _ _ _ => [] | Dir _ es => es end.

(** [os.scandir(start_dir)], in the order of the directory. It is only ever
    applied to directories; on a file it has nothing to yield. *)
Definition scandir (start_dir : DirEntry) : list DirEntry :=
  map (fun e => {| de_path := de_path start_dir ++ [e.1]; de_node := e.2 |})
      (entries_of (de_node start_dir)).

Fixpoint height (n : node) : nat :=
  match n with
  | File _ _ _ => O
  | Dir _ es => S (foldr (fun e h => Nat.max (height e.2) h) O es)
  end.

(** [str(int(t))] *)
Definition str (z : Z) : string := NilZero.string_of_int (Z.to_int z).

(** ** [list.sort(key=...)]: the stable sort

    Python's sort is stable, also with [reverse=True]; a stable sort has one
    result, which insertion from the right computes. *)
Section Sorting.
Context {A : Type} (key : A -> Z).

Fixpoint insert_asc (x : A) (l : list A) : list A :=
  match l with
  | [] => [x]
  | y :: l' => if key x <=? key y then x :: l else y :: insert_asc x l'
  end.

Definition sort_asc (l : list A) : list A := foldr insert_asc [] l.

Fixpoint insert_desc (x : A) (l : list A) : list A :=
  match l with
  | [] => [x]
  | y :: l' => if key y <=? key x then x :: l else y :: insert_desc x l'
  end.

Definition sort_desc (l : list A) : list A := foldr insert_desc [] l.

Definition ascending : list A -> Prop :=
  StronglySorted (fun x y => key x <= key y).

Definition descending : list A -> Prop :=
  StronglySorted (fun x y => key y <= key x).
End Sorting.

(** ** [get_files_since_point_in_time]  (copy_new_usb_files_v2.py, 47-60) *)

(** One turn of the first loop: a file newer than the watermark is appended
    to [all_files], a directory to [directories]. *)
Definition scan_item (point_in_time : Z) (acc : list path * list DirEntry)
    (item : DirEntry) : list path * list DirEntry :=
  if is_file item && (point_in_time <? Z.max (st_mtime_of item) (st_ctime_of item))
  then (acc.1 ++ [de_path item], acc.2)
  else if is_dir item then (acc.1, acc.2 ++ [item])
  else acc.

(** The recursion follows the sorted list, not the tree, so it is driven by
    fuel; [None] is "fuel ran out". [S (height root)] is always enough. *)
Fixpoint get_files_since_point_in_time (fuel : nat) (start_dir : DirEntry)
    (point_in_time : Z) (newest_dir_count : nat) : option (list path) :=
  match fuel with
  | O => None
  | S fuel' =>
      let '(all_files, directories) :=
        fold_left (scan_item point_in_time) (scandir start_dir) ([], []) in
      let directories := sort_desc st_mtime_of directories in
      fold_left
        (fun acc i =>
           match acc with
           | None => None
           | Some all_files =>
               match directories !! i with
               | Some d =>
                   match get_files_since_point_in_time fuel' d point_in_time
                           newest_dir_count with
                   | Some sub => Some (all_files ++ sub)
                   | None => None
                   end
               | None => Some all_files
               end
           end)
        (seq 0 newest_dir_count) (Some all_files)
  end.

(** The change scan of a tree mounted at [root_path]. *)
Definition scan (root_path : path) (root : node) (point_in_time : Z)
    (newest_dir_count : nat) : option (list path) :=
  get_files_since_point_in_time (S (height root))
    {| de_path := root_path; de_node := root |} point_in_time newest_dir_count.

(** The scan as the specification words it: a file is in reach of the scan
    when it lies directly in the directory, or in reach within one of the
    [d] most recently modified subdirectories of the directory. *)
Inductive in_reach (d : nat) : DirEntry -> DirEntry -> Prop :=
| reach_here dir f :
    f ∈ scandir dir -> is_file f = true -> in_reach d dir f
| reach_below dir sub f :
    sub ∈ take d (sort_desc st_mtime_of (List.filter is_dir (scandir dir))) ->
    in_reach d sub f -> in_reach d dir f.

Definition newer_than (t : Z) (f : DirEntry) : Prop :=
  t < Z.max (st_mtime_of f) (st_ctime_of f).

(** The test of the first loop on a file. *)
Definition qualifies (t : Z) (item : DirEntry) : bool :=
  is_file item && (t <? Z.max (st_mtime_of item) (st_ctime_of item)).

(** Descending into one chosen directory. *)
Definition scan_into (rec : DirEntry -> option (list path))
    (acc : option (list path)) (d : DirEntry) : option (list path) :=
  match acc with
  | None => None
  | Some all_files =>
      match rec d with
      | Some sub => Some (all_files ++ sub)
      | None => None
      end
  end.

(** ** Reading and changing a directory tree by path *)

Fixpoint assoc (name : string) (es : list (string * node)) : option node :=
  match es with
  | [] => None
  | e :: es' => if decide (e.1 = name) then Some e.2 else assoc name es'
  end.

(** The entry reached from [n] along the relative path [rel]. *)
Fixpoint lookup_node (rel : path) (n : node) : option node :=
  match rel with
  | [] => Some n
  | name :: rest =>
      match assoc name (entries_of n) with
      | Some child => lookup_node rest child
      | None => None
      end
  end.

(** Replace ([Some (Some n')]) or drop ([Some None]) the entry called
    [name]; [None] when there is none or when [f] refuses. *)
Fixpoint alter_entry (name : string) (f : node -> option (option node))
    (es : list (string * node)) : option (list (string * node)) :=
  match es with
  | [] => None
  | e :: es' =>
      if decide (e.1 = name) then
        match f e.2 with
        | Some (Some n') => Some ((e.1, n') :: es')
        | Some None => Some es'
        | None => None
        end
      else
        match alter_entry name f es' with
        | Some es'' => Some (e :: es'')
        | None => None
        end
  end.

(** [os.remove] of the file at [rel] below the directory [n]; [None] when
    the path does not lead to a file. *)
Fixpoint remove_file (rel : path) (n : node) : option node :=
  match rel with
  | [] => None
  | name :: rest =>
      match n with
      | File _ _ _ => None
      | Dir m es =>
          match alter_entry name
                  (fun child =>
                     match rest with
                     | [] => if is_file {| de_path := []; de_node := child |}
                             then Some None else None
                     | _ :: _ =>
                         match remove_file rest child with
                         | Some child' => Some (Some child')
                         | None => None
                         end
                     end) es with
          | Some es' => Some (Dir m es')
          | None => None
          end
      end
  end.

(** Every file of the tree, in the order of a depth-first walk. *)
Fixpoint all_files (start_dir : path) (n : node) : list DirEntry :=
  match n with
  | File _ _ _ => []
  | Dir _ es =>
      flat_map
        (fun e =>
           match e.2 with
           | File _ _ _ => [{| de_path := start_dir ++ [e.1]; de_node := e.2 |}]
           | Dir _ _ => all_files (start_dir ++ [e.1]) e.2
           end) es
  end.

(** The files an entry of the directory at [start_dir] contributes. *)
Definition files_in (start_dir : path) (e : string * node) : list DirEntry :=
  match e.2 with
  | File _ _ _ => [{| de_path := start_dir ++ [e.1]; de_node := e.2 |}]
  | Dir _ _ => all_files (start_dir ++ [e.1]) e.2
  end.

(** The files below a directory that may be gone. *)
Definition files_under (start_dir : path) (o : option node) : list DirEntry :=
  match o with
  | Some n => all_files start_dir n
  | None => []
  end.

(** What is left of a tree when every directory without entries is taken
    away, once: [None] for such a directory itself.  A directory that only
    held such directories stays, now without entries. *)
Fixpoint prune (n : node) : option node :=
  match n with
  | File _ _ _ => Some n
  | Dir m es =>
      match es with
      | [] => None
      | _ :: _ =>
          Some (Dir m
                  (flat_map
                     (fun e =>
                        match e.2 with
                        | File _ _ _ => [e]
                        | Dir _ _ =>
                            match prune e.2 with
                            | Some child => [(e.1, child)]
                            | None => []
                            end
                        end) es))
      end
  end.

(** What pruning leaves of an entry. *)
Definition prune_entry (e : string * node) : list (string * node) :=
  match prune e.2 with
  | Some child => [(e.1, child)]
  | None => []
  end.

(** No directory lists a name twice. *)
Fixpoint wf (n : node) : bool :=
  match n with
  | File _ _ _ => true
  | Dir _ es => bool_decide (NoDup (map fst es)) && forallb (fun e => wf e.2) es
  end.

(** [os.path.relpath(p, base)] for a path below [base]; a path elsewhere
    would be answered with [..] components, which no caller produces. *)
Fixpoint relpath (p base : path) {struct base} : option path :=
  match base with
  | [] => Some p
  | b :: base' =>
      match p with
      | [] => None
      | x :: p' => if decide (x = b) then relpath p' base' else None
      end
  end.

(** [os.path.dirname] and [os.path.basename] *)
Definition dirname (p : path) : path := removelast p.
Definition basename (p : path) : string := List.last p ""%string.

(** * The poller: [copy_new_usb_files_v2.py] *)
Module Copy.

(** ** Outcomes, trace and world *)

Inductive exn :=
| MountError                 (* Exception("Failed to mount ...") *)
| UmountError                (* Exception("Failed to unmount ...") *)
| PermissionError (p : path)
| OSError (p : path)         (* any other failure of a file operation *)
| ZeroDivisionError
| IndexError
| ValueError
| RecursionError.

Inductive result (A : Type) :=
| Ok (a : A)
| Raise (e : exn).
Arguments Ok {A} a.
Arguments Raise {A} e.

Inductive level := INFO | WARNING | ERROR.

Inductive message :=
| Started
| DeletingEmptyDirectory (p : path)
| FailedToMount (device : string) (mount_dir : path)
| FailedToUnmount (mount_dir : path)
| PerformUsbDeletionCheck (counter : Z)
| MaxFileDiff (max_file_diff : Z)
| DeletedFile (p : path)
| PermissionErrorWhileDeleting (p : path)
| FailedToDeleteFile (p : path)
| CopyTo (source_file_path destination_path : path)
| AlreadyExistsRemoving (p : path)
| Traceback (e : exn).

(** Every call that leaves the process is recorded, in order. *)
Inductive event :=
| Stat (st_mtime : Z)        (* os.stat(USB_IMG).st_mtime and its answer *)
| Mount (device : string) (mount_dir : path) (rc : Z)
| Umount (mount_dir : path) (rc : Z)
| Sleep (milliseconds : Z)
| Log (lvl : level) (msg : message)
| Rmdir (p : path)
| Remove (p : path)
| Touch (p : path)
| Makedirs (p : path)
| Copy2 (src dst : path).

(** The local file system, where the batches and the marker live. *)
Inductive lnode :=
| LFile (st_mtime : Z) (data : string)
| LDir.

Inductive removal := Removed | PermissionDenied | Failed.

(** What the outside answers. The image's modification time and the return
    codes of [mount] and [umount] may change as the run goes on: they are
    asked with the number of events so far. *)
Record env := {
  BASE_PATH : path;
  img_mtime : nat -> Z;
  mount_rc : nat -> Z;
  umount_rc : nat -> Z;
  rmdir_fails : path -> bool;
  remove_outcome : path -> removal;
  copy_fails : path -> bool }.

Record config := {
  CopyCheckCycleTime : Z;
  DeleteOnUSBCycleTime : Z;
  KeepMaxFilesOnUSB : Z }.

(** [source] is the tree seen at the mount point while the partition is
    mounted ([None] once that directory is gone); [cycle_counter] and
    [last_modify_time] are the two one-element lists of the script. *)
Record world := {
  source : option node;
  mounted : bool;
  local : gmap path lnode;
  trace : list event;
  cycle_counter : Z;
  last_modify_time : Z }.

Definition with_trace (w : world) (t : list event) : world :=
  {| source := source w; mounted := mounted w; local := local w; trace := t;
     cycle_counter := cycle_counter w; last_modify_time := last_modify_time w |}.
Definition with_source (w : world) (s : option node) : world :=
  {| source := s; mounted := mounted w; local := local w; trace := trace w;
     cycle_counter := cycle_counter w; last_modify_time := last_modify_time w |}.
Definition with_mounted (w : world) (b : bool) : world :=
  {| source := source w; mounted := b; local := local w; trace := trace w;
     cycle_counter := cycle_counter w; last_modify_time := last_modify_time w |}.
Definition with_local (w : world) (l : gmap path lnode) : world :=
  {| source := source w; mounted := mounted w; local := l; trace := trace w;
     cycle_counter := cycle_counter w; last_modify_time := last_modify_time w |}.
Definition with_cycle_counter (w : world) (c : Z) : world :=
  {| source := source w; mounted := mounted w; local := local w; trace := trace w;
     cycle_counter := c; last_modify_time := last_modify_time w |}.
Definition with_last_modify_time (w : world) (t : Z) : world :=
  {| source := source w; mounted := mounted w; local := local w; trace := trace w;
     cycle_counter := cycle_counter w; last_modify_time := t |}.

(** ** Steps: a state and exception monad *)

Definition M (A : Type) : Type := world -> result A * world.

Definition ret {A} (a : A) : M A := fun w => (Ok a, w).

Definition bind {A B} (m : M A) (f : A -> M B) : M B := fun w =>
  match m w with
  | (Ok a, w') => f a w'
  | (Raise e, w') => (Raise e, w')
  end.

Declare Scope poller_scope.
Delimit Scope poller_scope with poller.
Notation "x ← y ; z" := (bind y (fun x => z))
  (at level 20, y at level 100, z at level 200, only parsing) : poller_scope.
Notation "x ;; z" := (bind x (fun _ => z))
  (at level 100, z at level 200, only parsing, right associativity) : poller_scope.
#[local] Open Scope poller_scope.

(** [pass] *)
Definition pass : M unit := ret tt.

Definition raise {A} (e : exn) : M A := fun w => (Raise e, w).

(** [try: m  except Exception as e: h e] *)
Definition try_except {A} (m : M A) (h : exn -> M A) : M A := fun w =>
  match m w with
  | (Ok a, w') => (Ok a, w')
  | (Raise e, w') => h e w'
  end.

Definition emit (e : event) : M unit := fun w =>
  (Ok tt, with_trace w (trace w ++ [e])).

Definition logging (lvl : level) (msg : message) : M unit := emit (Log lvl msg).

Definition get {A} (f : world -> A) : M A := fun w => (Ok (f w), w).

Definition modify (f : world -> world) : M unit := fun w => (Ok tt, f w).

(** [for x in l: body x] *)
Fixpoint for_ {A} (l : list A) (body : A -> M unit) : M unit :=
  match l with
  | [] => pass
  | x :: l' => body x;; for_ l' body
  end.

(** [time.sleep]; a negative duration is refused. *)
Definition time_sleep (milliseconds : Z) : M unit :=
  if milliseconds <? 0 then raise ValueError else emit (Sleep milliseconds).

(** The events a step added to the trace. *)
Definition added (w w' : world) : list event := drop (length (trace w)) (trace w').

(** ** The constants of the script *)

Definition USB_IMG : path := ["piusb.bin"%string].
Definition SOURCE_DIR : path := ["mnt"; "usb_share"]%string.

Section WithEnv.
Context (E : env).

Definition DESTINATION_BASE_DIR : path := BASE_PATH E ++ ["transfer"%string].
Definition COPYING_ACTIVE_FILE : path := DESTINATION_BASE_DIR ++ ["copyingActive"%string].

(** [os.stat(USB_IMG).st_mtime] *)
Definition os_stat_img : M Z := fun w =>
  let t := img_mtime E (length (trace w)) in
  (Ok t, with_trace w (trace w ++ [Stat t])).

(** ** [mount] and [umount]  (101-115) *)

Definition subprocess_mount (device : string) (mount_dir : path) : M Z := fun w =>
  let rc := mount_rc E (length (trace w)) in
  (Ok rc, with_trace (with_mounted w (if rc =? 0 then true else mounted w))
            (trace w ++ [Mount device mount_dir rc])).

Definition subprocess_umount (mount_dir : path) : M Z := fun w =>
  let rc := umount_rc E (length (trace w)) in
  (Ok rc, with_trace (with_mounted w (if rc =? 0 then false else mounted w))
            (trace w ++ [Umount mount_dir rc])).

Definition mount (device : string) (mount_dir : path) : M unit :=
  result ← subprocess_mount device mount_dir;
  if negb (result =? 0) then
    logging ERROR (FailedToMount device mount_dir);;
    raise MountError
  else time_sleep 500.

Definition umount (mount_dir : path) : M unit :=
  result ← subprocess_umount mount_dir;
  if negb (result =? 0) then
    logging ERROR (FailedToUnmount mount_dir);;
    raise UmountError
  else time_sleep 500.

(** ** [get_all_file_entries_delete_empty_dirs]  (62-78)

    The walk of a directory hands back the entries it collected, what is
    left of the directory ([None] when [os.rmdir] removed it), the calls it
    made and the exception it ended with, if any. *)
Record walk := {
  entries : list DirEntry;
  residual : option node;
  events : list event;
  raised : option exn }.

Section WalkEntries.
Context (start_dir : path) (recurse : path -> node -> walk).

(** The loop over [items]: also yields the entries that stay in the
    directory, an unfinished walk leaving the rest untouched. *)
Fixpoint walk_entries (items : list (string * node))
    : list DirEntry * list (string * node) * list event * option exn :=
  match items with
  | [] => ([], [], [], None)
  | item :: rest =>
      match item.2 with
      | File _ _ _ =>
          let '(found, kept, evs, ex) := walk_entries rest in
          ({| de_path := start_dir ++ [item.1]; de_node := item.2 |} :: found,
           item :: kept, evs, ex)
      | Dir _ _ =>
          let sub := recurse (start_dir ++ [item.1]) item.2 in
          let left := match residual sub with
                      | Some child => [(item.1, child)]
                      | None => []
                      end in
          match raised sub with
          | Some e => (entries sub, left ++ rest, events sub, Some e)
          | None =>
              let '(found, kept, evs, ex) := walk_entries rest in
              (entries sub ++ found, left ++ kept, events sub ++ evs, ex)
          end
      end
  end.
End WalkEntries.

Fixpoint get_all_file_entries_delete_empty_dirs (start_dir : path) (n : node)
    {struct n} : walk :=
  match n with
  | File _ _ _ =>
      {| entries := []; residual := Some n; events := [];
         raised := Some (OSError start_dir) |}
  | Dir m items =>
      let '(all_file_entries, kept, evs, ex) :=
        walk_entries start_dir get_all_file_entries_delete_empty_dirs items in
      match ex with
      | Some e =>
          {| entries := all_file_entries; residual := Some (Dir m kept);
             events := evs; raised := Some e |}
      | None =>
          let counter := length items in
          if (counter =? 0)%nat then
            let evs := evs ++ [Log INFO (DeletingEmptyDirectory start_dir);
                               Rmdir start_dir] in
            if rmdir_fails E start_dir then
              {| entries := all_file_entries; residual := Some (Dir m kept);
                 events := evs; raised := Some (OSError start_dir) |}
            else
              {| entries := all_file_entries; residual := None;
                 events := evs; raised := None |}
          else
            {| entries := all_file_entries; residual := Some (Dir m kept);
               events := evs; raised := None |}
      end
  end.

(** The walk of the directory at [start_dir], which is the mount point. *)
Definition walk_source (start_dir : path) : M (list DirEntry) := fun w =>
  match source w with
  | None => (Raise (OSError start_dir), w)
  | Some root =>
      let o := get_all_file_entries_delete_empty_dirs start_dir root in
      let w' := with_trace (with_source w (residual o)) (trace w ++ events o) in
      match raised o with
      | Some e => (Raise e, w')
      | None => (Ok (entries o), w')
      end
  end.

(** [os.remove] of a file below the mount point. *)
Definition os_remove_source (p : path) : M unit := fun w =>
  let w1 := with_trace w (trace w ++ [Remove p]) in
  match remove_outcome E p with
  | PermissionDenied => (Raise (PermissionError p), w1)
  | Failed => (Raise (OSError p), w1)
  | Removed =>
      match relpath p SOURCE_DIR, source w with
      | Some rel, Some root =>
          match remove_file rel root with
          | Some root' => (Ok tt, with_source w1 (Some root'))
          | None => (Raise (OSError p), w1)
          end
      | _, _ => (Raise (OSError p), w1)
      end
  end.

(** ** [check_and_delete_on_usb]  (117-137) *)

(** [a / b] as a fraction, and [n > a / b]. *)
Definition true_divide (a b : Z) : M (Z * Z) :=
  if b =? 0 then raise ZeroDivisionError else ret (a, b).

Definition gt_fraction (n : Z) (q : Z * Z) : bool :=
  if 0 <? q.2 then q.1 <? n * q.2 else n * q.2 <? q.1.

(** One turn of the deletion loop, [file_entries[i]] out of range included:
    the handler formats [file_entries[i].path] again and raises anew. *)
Definition delete_entry (file_entries : list DirEntry) (i : nat) : M unit :=
  match file_entries !! i with
  | None => raise IndexError
  | Some f =>
      try_except
        (os_remove_source (de_path f);;
         logging INFO (DeletedFile (de_path f)))
        (fun e =>
           match e with
           | PermissionError _ =>
               logging ERROR (PermissionErrorWhileDeleting (de_path f))
           | _ => logging ERROR (FailedToDeleteFile (de_path f))
           end)
  end.

Definition check_and_delete_on_usb (device : string) (config : config) : M unit :=
  check_count ← true_divide (DeleteOnUSBCycleTime config) (CopyCheckCycleTime config);
  modify (fun w => with_cycle_counter w (cycle_counter w + 1));;
  counter ← get cycle_counter;
  if gt_fraction counter check_count then
    logging INFO (PerformUsbDeletionCheck counter);;
    mount device SOURCE_DIR;;
    file_entries ← walk_source SOURCE_DIR;
    let max_file_diff := Z.of_nat (length file_entries) - KeepMaxFilesOnUSB config in
    logging INFO (MaxFileDiff max_file_diff);;
    (if 0 <? max_file_diff then
       let file_entries := sort_asc st_mtime_of file_entries in
       for_ (seq 0 (Z.to_nat max_file_diff)) (delete_entry file_entries)
     else pass);;
    umount SOURCE_DIR;;
    modify (fun w => with_cycle_counter w 0)
  else pass.

(** ** The local file system *)

Definition isfile_in (fs : gmap path lnode) (p : path) : bool :=
  match fs !! p with
  | Some (LFile _ _) => true
  | _ => false
  end.

Definition isdir_in (fs : gmap path lnode) (p : path) : bool :=
  match p with
  | [] => true
  | _ :: _ => match fs !! p with Some LDir => true | _ => false end
  end.

(** [os.path.isfile] *)
Definition os_path_isfile (p : path) : M bool := fun w => (Ok (isfile_in (local w) p), w).

(** [os.remove] of a local file *)
Definition os_remove (p : path) : M unit := fun w =>
  let w1 := with_trace w (trace w ++ [Remove p]) in
  if isfile_in (local w) p then (Ok tt, with_local w1 (delete p (local w)))
  else (Raise (OSError p), w1).

(** [Path(p).touch()]: an existing path is left as it is, a new file needs
    its directory. The time stamp of the marker plays no part. *)
Definition touch (p : path) : M unit := fun w =>
  let w1 := with_trace w (trace w ++ [Touch p]) in
  match local w !! p with
  | Some _ => (Ok tt, w1)
  | None =>
      if isdir_in (local w) (dirname p)
      then (Ok tt, with_local w1 (<[p := LFile 0 ""]> (local w)))
      else (Raise (OSError p), w1)
  end.

(** The directories [os.makedirs] creates on its way down, [None] when a
    file is in the way. *)
Fixpoint makedirs_from (above below : path) (fs : gmap path lnode)
    : option (gmap path lnode) :=
  match below with
  | [] => Some fs
  | name :: below' =>
      let d := above ++ [name] in
      match fs !! d with
      | Some (LFile _ _) => None
      | Some LDir => makedirs_from d below' fs
      | None => makedirs_from d below' (<[d := LDir]> fs)
      end
  end.

(** [os.makedirs(p, exist_ok=True)] *)
Definition os_makedirs (p : path) : M unit := fun w =>
  let w1 := with_trace w (trace w ++ [Makedirs p]) in
  match makedirs_from [] p (local w) with
  | Some fs => (Ok tt, with_local w1 fs)
  | None => (Raise (OSError p), w1)
  end.

(** What is found at the path [p] below the mount point. *)
Definition read_source (w : world) (p : path) : option node :=
  match relpath p SOURCE_DIR, source w with
  | Some rel, Some root => lookup_node rel root
  | _, _ => None
  end.

(** [shutil.copy2(src, dst)]: the file read below the mount point is written
    with its content and modification time, into [dst] when that is a
    directory. *)
Definition shutil_copy2 (src dst : path) : M unit := fun w =>
  let w1 := with_trace w (trace w ++ [Copy2 src dst]) in
  if copy_fails E src then (Raise (OSError src), w1)
  else
    match read_source w src with
    | Some (File m _ data) =>
        let target := if isdir_in (local w) dst then dst ++ [basename src] else dst in
        if isdir_in (local w) target || negb (isdir_in (local w) (dirname target))
        then (Raise (OSError target), w1)
        else (Ok tt, with_local w1 (<[target := LFile m data]> (local w)))
    | _ => (Raise (OSError src), w1)
    end.

(** ** [copy_file_with_directory_structure]  (80-85) *)
Definition copy_file_with_directory_structure
    (source_base_path source_file_path dest_base_path : path) : M unit :=
  match relpath source_file_path source_base_path with
  | None => raise ValueError
  | Some relative_path =>
      let destination_path := dest_base_path ++ dirname relative_path in
      logging INFO (CopyTo source_file_path destination_path);;
      os_makedirs destination_path;;
      shutil_copy2 source_file_path destination_path
  end.

(** ** [copy_new_files]  (139-158) *)

(** The change scan of the mounted tree; running out of fuel would be
    Python's [RecursionError]. *)
Definition scan_source (start_dir : path) (point_in_time : Z)
    (newest_dir_count : nat) : M (list path) := fun w =>
  match source w with
  | None => (Raise (OSError start_dir), w)
  | Some root =>
      match scan start_dir root point_in_time newest_dir_count with
      | Some new_files => (Ok new_files, w)
      | None => (Raise RecursionError, w)
      end
  end.

Definition copy_new_files (device : string) : M unit :=
  current_modify_time ← os_stat_img;
  watermark ← get last_modify_time;
  if watermark <? current_modify_time then
    mount device SOURCE_DIR;;
    let destination_dir := DESTINATION_BASE_DIR ++ [str current_modify_time] in
    new_files ← scan_source SOURCE_DIR watermark 2;
    stale ← os_path_isfile COPYING_ACTIVE_FILE;
    (if stale then
       logging WARNING (AlreadyExistsRemoving COPYING_ACTIVE_FILE);;
       os_remove COPYING_ACTIVE_FILE
     else pass);;
    touch COPYING_ACTIVE_FILE;;
    for_ new_files
      (fun file => copy_file_with_directory_structure SOURCE_DIR file destination_dir);;
    present ← os_path_isfile COPYING_ACTIVE_FILE;
    (if present then os_remove COPYING_ACTIVE_FILE else pass);;
    umount SOURCE_DIR;;
    t ← os_stat_img;
    modify (fun w => with_last_modify_time w t)
  else pass.

(** ** The main loop  (189-195)

    [ticks] turns of [while True]; the first exception ends the loop. *)
Fixpoint main_loop (device : string) (config : config) (ticks : nat) : M unit :=
  match ticks with
  | O => pass
  | S ticks' =>
      check_and_delete_on_usb device config;;
      copy_new_files device;;
      time_sleep (1000 * CopyCheckCycleTime config);;
      main_loop device config ticks'
  end.

(** The script from [last_modify_time = [os.stat(USB_IMG).st_mtime]] on,
    with its [try: ... except Exception as ex: logging.exception(ex)]. *)
Definition main (device : string) (config : config) (ticks : nat) : M unit :=
  t ← os_stat_img;
  modify (fun w => with_last_modify_time w t);;
  try_except
    (logging INFO Started;;
     main_loop device config ticks)
    (fun ex => logging ERROR (Traceback ex)).

End WithEnv.

(** ** Notions for the statements *)

(** Mounting and unmounting. *)
Definition mounting (e : event) : Prop :=
  match e with
  | Mount _ _ _ | Umount _ _ => True
  | _ => False
  end.

(** Events other than mounting, unmounting and reading the image's time. *)
Definition calm (e : event) : Prop :=
  match e with
  | Mount _ _ _ | Umount _ _ | Stat _ => False
  | _ => True
  end.

(** A step that only appends calm events, leaves the mount state and the
    watermark alone, and does not raise the error of a failed unmount. *)
Definition quiet {A} (m : M A) : Prop :=
  forall w r w', m w = (r, w') ->
    (exists evs, trace w' = trace w ++ evs /\ Forall calm evs) /\
    mounted w' = mounted w /\
    last_modify_time w' = last_modify_time w /\
    (forall e, r = Raise e -> e <> UmountError).

(** The same of a walk. *)
Definition calm_walk (o : walk) : Prop :=
  Forall calm (events o) /\ raised o <> Some UmountError.

(** The walk of a directory ends without exception, has collected every
    file below it and leaves the pruned directory. *)
Definition clean_walk (E : env) (p : path) (n : node) : Prop :=
  match n with
  | File _ _ _ => True
  | Dir _ _ =>
      let o := get_all_file_entries_delete_empty_dirs E p n in
      raised o = None /\ entries o = all_files p n /\ residual o = prune n
  end.

(** A step that always returns, without mounting or unmounting. *)
Definition settles {A} (k : M A) : Prop :=
  forall w, exists a w' evs,
    k w = (Ok a, w') /\ trace w' = trace w ++ evs /\
    Forall (fun e => ~ mounting e) evs /\
    mounted w' = mounted w.

(** What holds of the rest of a cycle, run on a mounted partition: it
    returns only past a successful unmount; an exception leaves the
    watermark as it was, and unless it is the one of a failed unmount, no
    unmount was attempted. *)
Definition released {A} (k : M A) : Prop :=
  forall w r w', k w = (r, w') -> mounted w = true ->
    exists evs, trace w' = trace w ++ evs /\
      match r with
      | Ok _ => Umount SOURCE_DIR 0 ∈ evs /\ mounted w' = false
      | Raise e =>
          mounted w' = true /\
          last_modify_time w' = last_modify_time w /\
          (e = UmountError -> exists rc, rc <> 0 /\ Umount SOURCE_DIR rc ∈ evs) /\
          (e <> UmountError -> forall d rc, Umount d rc ∉ evs)
      end.

(** The file at [rel] below the source root is found below [batch] in the
    local file system [fs], at the same relative path, with its content and
    its modification time, and every directory on the way to it is there. *)
Definition mirrored (root : node) (batch : path) (fs : gmap path lnode)
    (rel : path) : Prop :=
  exists m c data,
    lookup_node rel root = Some (File m c data) /\
    fs !! (batch ++ rel) = Some (LFile m data) /\
    forall j, (0 < j <= length (batch ++ dirname rel))%nat ->
              fs !! take j (batch ++ dirname rel) = Some LDir.

(** A step that raises, whatever the world. *)
Definition fails {A} (k : M A) : Prop :=
  forall w, exists e w', k w = (Raise e, w').

Definition is_stat (e : event) : bool :=
  match e with Stat _ => true | _ => false end.

(** A step that only appends to the trace. *)
Definition appends {A} (m : M A) : Prop :=
  forall w r w', m w = (r, w') -> exists evs, trace w' = trace w ++ evs.

(** ** Inputs for the examples *)

(** The tree of the specification's scenario: [a.txt] and [sub/b.txt] were
    written after the watermark 1000, [old.txt] before it. *)
Definition usb_tree : node :=
  Dir 1800 [("a.txt", File 1500 1500 "alpha");
            ("old.txt", File 900 900 "omega");
            ("sub", Dir 1800 [("b.txt", File 1800 1800 "beta")])]%string.

Definition home : gmap path lnode :=
  list_to_map [(["home"], LDir); (["home"; "pi"], LDir);
               (["home"; "pi"; "transfer"], LDir)]%string.

(** Nothing fails, and the image was last modified at 2000. *)
Definition E_calm : env :=
  {| BASE_PATH := ["home"; "pi"]%string;
     img_mtime := fun _ => 2000;
     mount_rc := fun _ => 0;
     umount_rc := fun _ => 0;
     rmdir_fails := fun _ => false;
     remove_outcome := fun _ => Removed;
     copy_fails := fun _ => false |}.

(** The image is modified at 2000, after the poller has started, and the
    copy of [sub/b.txt] fails. *)
Definition E_copy_fails : env :=
  {| BASE_PATH := ["home"; "pi"]%string;
     img_mtime := fun n => if (n =? 0)%nat then 1000 else 2000;
     mount_rc := fun _ => 0;
     umount_rc := fun _ => 0;
     rmdir_fails := fun _ => false;
     remove_outcome := fun _ => Removed;
     copy_fails := fun p =>
       bool_decide (p = ["mnt"; "usb_share"; "sub"; "b.txt"]%string) |}.

(** The image is written to while the copy runs: its modification time is
    2000 at the first call and moves on with every call made. *)
Definition E_busy : env :=
  {| BASE_PATH := ["home"; "pi"]%string;
     img_mtime := fun n => 2000 + Z.of_nat n;
     mount_rc := fun _ => 0;
     umount_rc := fun _ => 0;
     rmdir_fails := fun _ => false;
     remove_outcome := fun _ => Removed;
     copy_fails := fun _ => false |}.

(** The poller between two cycles, with the watermark at 1000. *)
Definition w_idle : world :=
  {| source := Some usb_tree; mounted := false; local := home; trace := [];
     cycle_counter := 0; last_modify_time := 1000 |}.

(** The same after a crash in the middle of a copy: the marker is there. *)
Definition w_crashed : world :=
  with_local w_idle (<[["home"; "pi"; "transfer"; "copyingActive"]%string :=
                       LFile 0 ""]> home).

(** A sweep every minute, a copy check every ten seconds. *)
Definition every_minute (keep : Z) : config :=
  {| CopyCheckCycleTime := 10; DeleteOnUSBCycleTime := 60;
     KeepMaxFilesOnUSB := keep |}.

(** A sweep at every check. *)
Definition every_check (keep : Z) : config :=
  {| CopyCheckCycleTime := 10; DeleteOnUSBCycleTime := 0;
     KeepMaxFilesOnUSB := keep |}.

(** The poller once it has started: the image's time has been read (1000)
    and the start has been logged. *)
Definition w_started : world :=
  with_trace w_idle [Stat 1000; Log INFO Started].

(** A tree with a directory that holds only an empty directory, and a
    directory that holds only a file. *)
Definition nested_tree : node :=
  Dir 5 [("a", Dir 4 [("b", Dir 3 [])]);
         ("d", Dir 2 [("f", File 1 1 "x")])]%string.

Definition w_nested : world := with_source w_idle (Some nested_tree).

(** An empty partition. *)
Definition w_empty : world := with_source w_idle (Some (Dir 7 [])).

(** ** Further notions for the statements *)

(** A step all of whose events satisfy [P], and that takes a world to one
    related to it by [R]. *)
Definition steady {A} (P : event -> Prop) (R : world -> world -> Prop)
    (m : M A) : Prop :=
  forall w r w', m w = (r, w') ->
    (exists evs, trace w' = trace w ++ evs /\ Forall P evs) /\ R w w'.

(** The calls a copy cycle with the batch directory [batch] makes on files:
    the marker is the only path it touches and removes, it removes no
    directory, and what it creates or writes lies in the batch directory,
    read from below the mount point. *)
Definition copy_event (E : env) (batch : path) (e : event) : Prop :=
  match e with
  | Remove p | Touch p => p = COPYING_ACTIVE_FILE E
  | Rmdir _ => False
  | Makedirs p => exists rel, p = batch ++ rel
  | Copy2 src dst =>
      (exists rel, src = SOURCE_DIR ++ rel) /\ exists rel, dst = batch ++ rel
  | _ => True
  end.

(** The source tree and the counter are as before, and so is every local
    entry outside the batch directory, the marker apart. *)
Definition copy_frame (E : env) (batch : path) (w w' : world) : Prop :=
  source w' = source w /\ cycle_counter w' = cycle_counter w /\
  forall k v, k <> COPYING_ACTIVE_FILE E -> ~ batch `prefix_of` k ->
              local w !! k = Some v -> local w' !! k = Some v.

(** The calls a sweep makes on files: removals of files below the mount
    point, and of directories there, the mount point included. *)
Definition sweep_event (e : event) : Prop :=
  match e with
  | Remove p => exists rel, p = SOURCE_DIR ++ rel /\ rel <> []
  | Rmdir p => exists rel, p = SOURCE_DIR ++ rel
  | Stat _ | Touch _ | Makedirs _ | Copy2 _ _ => False
  | _ => True
  end.

(** The local file system and the watermark are as before. *)
Definition sweep_frame (w w' : world) : Prop :=
  local w' = local w /\ last_modify_time w' = last_modify_time w.

(** The calls of [n] turns of the main loop in which nothing is due: the
    image's time is read and the poller sleeps.  [len] is the number of
    calls made before. *)
Fixpoint idle_events (E : env) (config : config) (len n : nat) : list event :=
  match n with
  | O => []
  | S n' =>
      Stat (img_mtime E len) :: Sleep (1000 * CopyCheckCycleTime config)
      :: idle_events E config (len + 2) n'
  end.

(** The calls of a turn of the deletion loop whose removal is refused. *)
Definition refusal (E : env) (f : DirEntry) : list event :=
  [Remove (de_path f);
   Log ERROR
     match remove_outcome E (de_path f) with
     | PermissionDenied => PermissionErrorWhileDeleting (de_path f)
     | _ => FailedToDeleteFile (de_path f)
     end].

(** The calls of a walk: removals of directories at or below [p], each
    after its log entry. *)
Definition walk_event (p : path) (e : event) : Prop :=
  match e with
  | Log INFO (DeletingEmptyDirectory q) | Rmdir q => exists rel, q = p ++ rel
  | _ => False
  end.

(** ** Further inputs for the examples *)

(** Every removal of a file is refused. *)
Definition E_read_only : env :=
  {| BASE_PATH := ["home"; "pi"]%string;
     img_mtime := fun _ => 2000;
     mount_rc := fun _ => 0;
     umount_rc := fun _ => 0;
     rmdir_fails := fun _ => false;
     remove_outcome := fun _ => PermissionDenied;
     copy_fails := fun _ => false |}.

(** A configuration with the check time at zero. *)
Definition check_time_zero : config :=
  {| CopyCheckCycleTime := 0; DeleteOnUSBCycleTime := 60; KeepMaxFilesOnUSB := 1 |}.

(** The poller on a machine without the staging directory. *)
Definition w_bare : world := with_local w_idle ∅.

(** The poller once the image of [E_calm] has been copied: the watermark
    is at 2000. *)
Definition w_settled : world := with_last_modify_time w_idle 2000.

(** ** A cycle that fails *)

(** The poller once it has started: the image's time has been read, the
    watermark is that time, and the start has been logged. *)
Definition started (E : env) (w : world) : world :=
  let t := img_mtime E (length (trace w)) in
  with_trace (with_last_modify_time w t) (trace w ++ [Stat t; Log INFO Started]).

(** The files the copies among [evs] read, in the order of the copies. *)
Definition copy_sources (evs : list event) : list path :=
  omap (fun e => match e with Copy2 src _ => Some src | _ => None end) evs.

End Copy.

(** * The forwarder: [upload_new_files_v2.py] *)
Module Upload.

(** ** Outcomes, trace and world *)

Inductive exn :=
| KeyError (key : string)
| ApiError (file : path)     (* dropbox.exceptions.ApiError *)
| OSError (p : path)         (* any other failure of a call *)
| ValueError.

(** A step ends with a value, with an exception, or not within its fuel. *)
Inductive result (A : Type) :=
| Ok (a : A)
| Raise (e : exn)
| OutOfFuel.
Arguments Ok {A} a.
Arguments Raise {A} e.
Arguments OutOfFuel {A}.

Inductive level := INFO | WARNING | ERROR.

Inductive message :=
| Started
| TimedOutWaiting
| ScpTransferFailed (source_dir : path)
| ScpTransferSuccessful (source_dir : path)
| FailedToExecuteScp (e : exn)
| StartingDropboxUpload (prefix : string) (relative : path)
| FinishedDropboxUpload (prefix : string) (relative : path)
| DropboxApiError (e : exn)
| FailedToUploadFile (file : path) (e : exn)
| Traceback (e : exn).

Inductive event :=
| IsFile (p : path) (answer : bool)      (* os.path.isfile and its answer *)
| Sleep (milliseconds : Z)
| Log (lvl : level) (msg : message)
| Open (file : path)
| FilesUpload (file : path) (prefix : string) (relative : path)
| Scp (source_dir_content : path) (scp_path : string) (rc : Z)
| Rmtree (folder : path).

(** The values of [config.json]. *)
Inductive value :=
| VBool (b : bool)
| VStr (s : string).

Definition truthy (v : value) : bool :=
  match v with
  | VBool b => b
  | VStr s => negb (String.eqb s "")
  end.

Definition str_of (v : value) : string :=
  match v with
  | VBool true => "True"
  | VBool false => "False"
  | VStr s => s
  end.

Inductive upload := Uploaded | ApiFailure | OtherFailure.

(** What the outside answers: whether the marker is there at a given time
    (in milliseconds; the poller puts it there and takes it away), how an
    upload ends, whether [open] fails, the return code of the secure copy
    ([None]: [subprocess.run] itself raises), whether the removal of a
    single entry, a file or an emptied directory, fails. *)
Record env := {
  BASE_PATH : path;
  marker_present : Z -> bool;
  open_fails : path -> bool;
  files_upload : path -> upload;
  scp_rc : path -> option Z;
  rmtree_fails : path -> bool }.

(** [transfer] lists the staging directory; [clock] counts the time slept. *)
Record world := {
  transfer : list (string * node);
  trace : list event;
  clock : Z }.

Definition with_trace (w : world) (t : list event) : world :=
  {| transfer := transfer w; trace := t; clock := clock w |}.
Definition with_transfer (w : world) (es : list (string * node)) : world :=
  {| transfer := es; trace := trace w; clock := clock w |}.
Definition with_clock (w : world) (c : Z) : world :=
  {| transfer := transfer w; trace := trace w; clock := c |}.

Definition M (A : Type) : Type := world -> result A * world.

Definition ret {A} (a : A) : M A := fun w => (Ok a, w).

Definition bind {A B} (m : M A) (f : A -> M B) : M B := fun w =>
  match m w with
  | (Ok a, w') => f a w'
  | (Raise e, w') => (Raise e, w')
  | (OutOfFuel, w') => (OutOfFuel, w')
  end.

Declare Scope forwarder_scope.
Delimit Scope forwarder_scope with forwarder.
Notation "x ← y ; z" := (bind y (fun x => z))
  (at level 20, y at level 100, z at level 200, only parsing) : forwarder_scope.
Notation "x ;; z" := (bind x (fun _ => z))
  (at level 100, z at level 200, only parsing, right associativity) : forwarder_scope.
#[local] Open Scope forwarder_scope.

Definition pass : M unit := ret tt.

Definition raise {A} (e : exn) : M A := fun w => (Raise e, w).

(** [try: m  except Exception as e: h e] *)
Definition try_except {A} (m : M A) (h : exn -> M A) : M A := fun w =>
  match m w with
  | (Raise e, w') => h e w'
  | other => other
  end.

Definition emit (e : event) : M unit := fun w =>
  (Ok tt, with_trace w (trace w ++ [e])).

Definition logging (lvl : level) (msg : message) : M unit := emit (Log lvl msg).

Fixpoint for_ {A} (l : list A) (body : A -> M unit) : M unit :=
  match l with
  | [] => pass
  | x :: l' => body x;; for_ l' body
  end.

(** [time.sleep]: the clock moves on. *)
Definition time_sleep (milliseconds : Z) : M unit := fun w =>
  if milliseconds <? 0 then (Raise ValueError, w)
  else (Ok tt, with_clock (with_trace w (trace w ++ [Sleep milliseconds]))
                 (clock w + milliseconds)).

(** [config[key]] *)
Definition getitem (config : gmap string value) (key : string) : M value :=
  match config !! key with
  | Some v => ret v
  | None => raise (KeyError key)
  end.

(** [config.get(key, False)] *)
Definition get_or_false (config : gmap string value) (key : string) : value :=
  default (VBool false) (config !! key).

Definition added (w w' : world) : list event := drop (length (trace w)) (trace w').

Section WithEnv.
Context (E : env).

Definition SOURCE_BASE_DIR : path := BASE_PATH E ++ ["transfer"%string].
Definition COPYING_ACTIVE_FILE : path := SOURCE_BASE_DIR ++ ["copyingActive"%string].

(** [os.path.isfile] of the marker: asked of the outside, at the present
    time. *)
Definition os_path_isfile (p : path) : M bool := fun w =>
  let answer := marker_present E (clock w) in
  (Ok answer, with_trace w (trace w ++ [IsFile p answer])).

(** ** [wait_until_no_copying_active]  (45-52) *)
Fixpoint wait_loop (fuel : nat) (copy_active_file : path) (max_time : Z) : M unit :=
  match fuel with
  | O => fun w => (OutOfFuel, w)
  | S fuel' =>
      present ← os_path_isfile copy_active_file;
      if present then
        time_sleep 1000;;
        let max_time := max_time + 1 in
        if 30 <? max_time then
          logging WARNING TimedOutWaiting
        else wait_loop fuel' copy_active_file max_time
      else pass
  end.

Definition wait_until_no_copying_active (fuel : nat) (copy_active_file : path) : M unit :=
  wait_loop fuel copy_active_file 0.

(** ** [transfer_via_scp]  (54-64) *)
Definition subprocess_run_scp (source_dir_content : path) (scp_path : string) : M Z :=
  fun w =>
    match scp_rc E source_dir_content with
    | Some rc => (Ok rc, with_trace w (trace w ++ [Scp source_dir_content scp_path rc]))
    | None => (Raise (OSError source_dir_content), w)
    end.

Definition transfer_via_scp (source_dir : path) (config : gmap string value) : M unit :=
  let source_dir_content := source_dir ++ ["*"%string] in
  try_except
    (scp_path ← getitem config "ScpPath";
     returncode ← subprocess_run_scp source_dir_content (str_of scp_path);
     if negb (returncode =? 0) then logging ERROR (ScpTransferFailed source_dir)
     else logging INFO (ScpTransferSuccessful source_dir))
    (fun e => logging ERROR (FailedToExecuteScp e)).

(** ** [get_all_files]  (66-73) *)
Fixpoint get_all_files (folder : path) (n : node) : list path :=
  match n with
  | File _ _ _ => []
  | Dir _ items =>
      flat_map
        (fun item =>
           match item.2 with
           | File _ _ _ => [folder ++ [item.1]]
           | Dir _ _ => get_all_files (folder ++ [item.1]) item.2
           end) items
  end.

(** ** [transfer_to_dropbox]  (75-91) *)

Definition open_rb (file : path) : M unit := fun w =>
  let w1 := with_trace w (trace w ++ [Open file]) in
  if open_fails E file then (Raise (OSError file), w1) else (Ok tt, w1).

Definition dbx_files_upload (file : path) (prefix : string) (relative : path) : M unit :=
  fun w =>
    let w1 := with_trace w (trace w ++ [FilesUpload file prefix relative]) in
    match files_upload E file with
    | Uploaded => (Ok tt, w1)
    | ApiFailure => (Raise (ApiError file), w1)
    | OtherFailure => (Raise (OSError file), w1)
    end.

(** The body of the loop over [all_files]. The destination is the remote
    root followed, without a separator, by the path below the batch. *)
Definition upload_file (source_dir : path) (config : gmap string value)
    (file : path) : M unit :=
  try_except
    (open_rb file;;
     dropbox_path ← getitem config "DropBoxPath";
     match relpath file source_dir with
     | None => raise ValueError
     | Some relative =>
         logging INFO (StartingDropboxUpload (str_of dropbox_path) relative);;
         dbx_files_upload file (str_of dropbox_path) relative;;
         logging INFO (FinishedDropboxUpload (str_of dropbox_path) relative)
     end)
    (fun e =>
       match e with
       | ApiError _ => logging ERROR (DropboxApiError e)
       | _ => logging ERROR (FailedToUploadFile file e)
       end).

Definition transfer_to_dropbox (source_dir : DirEntry) (config : gmap string value)
    : M unit :=
  token ← getitem config "DropBoxRefreshToken";
  key ← getitem config "DropboxAppKey";
  secret ← getitem config "DropboxAppSecret";
  let all_files := get_all_files (de_path source_dir) (de_node source_dir) in
  for_ all_files (upload_file (de_path source_dir) config).

(** ** The main loop  (114-124) *)

Fixpoint remove_entry (name : string) (es : list (string * node))
    : list (string * node) :=
  match es with
  | [] => []
  | e :: es' => if decide (e.1 = name) then es' else e :: remove_entry name es'
  end.

(** The first entry called [name] holds [n] instead. *)
Fixpoint put_entry (name : string) (n : node) (es : list (string * node))
    : list (string * node) :=
  match es with
  | [] => []
  | e :: es' =>
      if decide (e.1 = name) then (name, n) :: es' else e :: put_entry name n es'
  end.

(** The entries of a directory are removed in the order of the directory;
    the first that cannot be removed ends the removal, and the entries after
    it are left as they are.  [None]: every entry is gone; otherwise what is
    left, and the exception. *)
Section RmtreeEntries.
Context (recurse : path -> node -> option (node * exn)).

Fixpoint rmtree_entries (p : path) (items : list (string * node))
    : option (list (string * node) * exn) :=
  match items with
  | [] => None
  | item :: rest =>
      match recurse (p ++ [item.1]) item.2 with
      | Some (kept, e) => Some ((item.1, kept) :: rest, e)
      | None => rmtree_entries p rest
      end
  end.
End RmtreeEntries.

(** The removal of the tree [n] at [p]: a file is unlinked; a directory is
    emptied, entry by entry, and then removed itself.  [rmtree_fails] tells
    of each single removal, of a file or of an emptied directory, whether it
    fails; the first failure is raised, after what came before it has been
    removed. *)
Fixpoint rmtree (p : path) (n : node) {struct n} : option (node * exn) :=
  match n with
  | File _ _ _ => if rmtree_fails E p then Some (n, OSError p) else None
  | Dir mtime items =>
      match rmtree_entries rmtree p items with
      | Some (kept, e) => Some (Dir mtime kept, e)
      | None => if rmtree_fails E p then Some (Dir mtime [], OSError p) else None
      end
  end.

(** [shutil.rmtree(folder)], on the directory as it is in the staging
    directory at the time of the call.  It raises when there is no such
    directory, and at the first entry it cannot remove; the entries it has
    removed by then are gone. *)
Definition shutil_rmtree (folder : DirEntry) : M unit := fun w =>
  let w1 := with_trace w (trace w ++ [Rmtree (de_path folder)]) in
  let name := basename (de_path folder) in
  match assoc name (transfer w) with
  | Some (Dir mtime items) =>
      match rmtree (de_path folder) (Dir mtime items) with
      | Some (kept, e) => (Raise e, with_transfer w1 (put_entry name kept (transfer w)))
      | None => (Ok tt, with_transfer w1 (remove_entry name (transfer w)))
      end
  | _ => (Raise (OSError (de_path folder)), w1)
  end.

(** The body of [for folder in folders_to_transfer]. *)
Definition dispatch (config : gmap string value) (folder : DirEntry) : M unit :=
  (if truthy (get_or_false config "ActivateDropboxSync")
   then transfer_to_dropbox folder config else pass);;
  (if truthy (get_or_false config "ActivateScpSync")
   then transfer_via_scp (de_path folder) config else pass);;
  shutil_rmtree folder.

(** [[d for d in os.scandir(SOURCE_BASE_DIR) if d.is_dir()]] *)
Definition folders_to_transfer : M (list DirEntry) := fun w =>
  (Ok (List.filter is_dir
         (scandir {| de_path := SOURCE_BASE_DIR; de_node := Dir 0 (transfer w) |})), w).

(** [ticks] turns of [while True]; every wait gets [fuel]. *)
Fixpoint main_loop (fuel : nat) (config : gmap string value) (ticks : nat) : M unit :=
  match ticks with
  | O => pass
  | S ticks' =>
      folders ← folders_to_transfer;
      (match folders with
       | [] => pass
       | _ :: _ =>
           wait_until_no_copying_active fuel COPYING_ACTIVE_FILE;;
           for_ folders (dispatch config)
       end);;
      time_sleep 4500;;
      main_loop fuel config ticks'
  end.

Definition main (fuel : nat) (config : gmap string value) (ticks : nat) : M unit :=
  try_except
    (logging INFO Started;;
     main_loop fuel config ticks)
    (fun ex => logging ERROR (Traceback ex)).

End WithEnv.

(** [k] rounds of finding the marker and sleeping a second. *)
Fixpoint rounds (copy_active_file : path) (k : nat) : list event :=
  match k with
  | O => []
  | S k' => IsFile copy_active_file true :: Sleep 1000 :: rounds copy_active_file k'
  end.

(** The trace of an attempt to run the secure copy on a batch: the call,
    or the record that it could not be made. *)
Definition scp_attempt (folder : path) (e : event) : Prop :=
  (exists scp_path rc, e = Scp (folder ++ ["*"%string]) scp_path rc) \/
  (exists x, e = Log ERROR (FailedToExecuteScp x)).

Definition not_rmtree (e : event) : Prop := forall p, e <> Rmtree p.

(** The record that the upload of [file] was not made, or that it failed. *)
Definition upload_failure (file : path) (e : event) : Prop :=
  e = Log ERROR (DropboxApiError (ApiError file)) \/
  exists x, e = Log ERROR (FailedToUploadFile file x).

(** What the cloud sink leaves among [evs] for [file] of the batch at
    [source_dir]: the file is opened; once it is open, and if the
    configuration names the remote root, the upload is called, under the
    root followed by the path of the file below the batch; and an upload
    that is not made, or that fails, is logged as an error. *)
Definition upload_attempt (E : env) (config : gmap string value)
    (source_dir file : path) (evs : list event) : Prop :=
  Open file ∈ evs /\
  (open_fails E file = false ->
   forall v, config !! "DropBoxPath"%string = Some v ->
     exists rel, file = source_dir ++ rel /\
                 FilesUpload file (str_of v) rel ∈ evs) /\
  (open_fails E file = true \/ config !! "DropBoxPath"%string = None \/
   files_upload E file <> Uploaded ->
   exists e, e ∈ evs /\ upload_failure file e).

(** A step that returns, keeps staging area and clock, and removes
    nothing. *)
Definition harmless (m : M unit) (w : world) (evs : list event) : Prop :=
  m w = (Ok tt, {| transfer := transfer w; trace := trace w ++ evs;
                   clock := clock w |}) /\
  Forall not_rmtree evs.

(** The three credentials [transfer_to_dropbox] reads before anything else. *)
Definition has_credentials (config : gmap string value) : Prop :=
  is_Some (config !! "DropBoxRefreshToken"%string) /\
  is_Some (config !! "DropboxAppKey"%string) /\
  is_Some (config !! "DropboxAppSecret"%string).

(** ** Inputs for the examples *)

Definition quiet_env (present : Z -> bool) : env :=
  {| BASE_PATH := ["home"; "pi"]%string;
     marker_present := present;
     open_fails := fun _ => false;
     files_upload := fun _ => Uploaded;
     scp_rc := fun _ => Some 0;
     rmtree_fails := fun _ => false |}.

(** The marker never goes away. *)
Definition E_stuck : env := quiet_env (fun _ => true).

(** The marker goes away after five seconds. *)
Definition E_cleared : env := quiet_env (fun t => t <? 5000).

(** Every upload is refused and the secure copy ends with code 1. *)
Definition E_failing : env :=
  {| BASE_PATH := ["home"; "pi"]%string;
     marker_present := fun _ => false;
     open_fails := fun _ => false;
     files_upload := fun _ => ApiFailure;
     scp_rc := fun _ => Some 1;
     rmtree_fails := fun _ => false |}.

Definition batch_2000 : DirEntry :=
  {| de_path := ["home"; "pi"; "transfer"; "2000"]%string;
     de_node := Dir 2000 [("a.txt", File 1500 1500 "alpha");
                          ("sub", Dir 2000 [("b.txt", File 1800 1800 "beta")])]%string |}.

Definition w_start : world :=
  {| transfer := [("2000"%string, de_node batch_2000)]; trace := []; clock := 0 |}.

Definition both_sinks : gmap string value :=
  list_to_map
    [("ActivateDropboxSync", VBool true); ("ActivateScpSync", VBool true);
     ("DropBoxRefreshToken", VStr "token"); ("DropboxAppKey", VStr "key");
     ("DropboxAppSecret", VStr "secret"); ("DropBoxPath", VStr "/usb/");
     ("ScpPath", VStr "pi@host:/srv/usb")]%string.


(** ** Further notions for the statements *)

(** The file an event opens, if it is the opening of a file. *)
Definition opened (e : event) : option path :=
  match e with Open file => Some file | _ => None end.

(** The entries of the staging directory that are not directories. *)
Definition plain_files (es : list (string * node)) : list (string * node) :=
  List.filter (fun e => match e.2 with File _ _ _ => true | Dir _ _ => false end) es.

(** An event other than a poll for the marker and a call of a sink. *)
Definition no_transfer (e : event) : Prop :=
  match e with
  | Open _ | FilesUpload _ _ _ | Scp _ _ _ => False
  | _ => True
  end.

(** Every upload among [evs] is named by the remote root of the
    configuration and the path of the file relative to [source_dir]. *)
Definition named (config : gmap string value) (source_dir : path)
    (evs : list event) : Prop :=
  forall f prefix rel, FilesUpload f prefix rel ∈ evs ->
    f = source_dir ++ rel /\
    (str_of <$> config !! "DropBoxPath"%string) = Some prefix.

(** The entries of the staging directory that are directories: the
    batches. *)
Definition batches (es : list (string * node)) : list (string * node) :=
  List.filter (fun e => match e.2 with File _ _ _ => false | Dir _ _ => true end) es.

(** ** Further inputs for the examples *)

(** The staging directory with the marker in it and no batch. *)
Definition w_marker_only : world :=
  {| transfer := [("copyingActive"%string, File 0 0 "")]; trace := []; clock := 0 |}.

(** Two batches, and the marker between them. *)
Definition w_two_batches : world :=
  {| transfer := [("1000", Dir 1000 [("old.txt", File 900 900 "omega")]);
                  ("copyingActive", File 0 0 "");
                  ("2000", de_node batch_2000)]%string;
     trace := []; clock := 0 |}.

End Upload.

(** * The start of the two scripts: [setup_logging] and [get_loop_device] *)
Module Startup.
Import Copy.
#[local] Open Scope poller_scope.

(** ** [setup_logging]  (copy_new_usb_files_v2.py, 29-45;
       upload_new_files_v2.py, 28-43)

    Both scripts call it on a path below their own directory, so on an
    absolute path, whose directory name is not the empty string: the test
    [if base_path] holds whenever it is reached.  [writable] is what the
    outside answers on the permission to write an entry that is there. *)
Section SetupLogging.
Context (writable : path -> bool).

(** [os.access(p, os.W_OK)]: [False] also for a path that is not there. *)
Definition os_access_W_OK (p : path) : M bool := fun w =>
  (Ok (match p with
       | [] => writable p
       | _ :: _ => match local w !! p with
                   | Some _ => writable p
                   | None => false
                   end
       end), w).

(** [RotatingFileHandler(p, ...)] opens [p] for appending: a file that is
    not there is created in its directory, one that is there is left as it
    is.  The call is recorded like a touch. *)
Definition open_append (p : path) : M unit := fun w =>
  let w1 := with_trace w (trace w ++ [Touch p]) in
  match local w !! p with
  | Some LDir => (Raise (OSError p), w1)
  | Some (LFile _ _) =>
      if writable p then (Ok tt, w1) else (Raise (PermissionError p), w1)
  | None =>
      if isdir_in (local w) (dirname p) && writable (dirname p)
      then (Ok tt, with_local w1 (<[p := LFile 0 ""]> (local w)))
      else (Raise (OSError p), w1)
  end.

Definition setup_logging (log_file_full_path : path) : M unit :=
  let base_path := dirname log_file_full_path in
  may_write ← os_access_W_OK base_path;
  if negb may_write then raise (PermissionError base_path)
  else
    os_makedirs base_path;;
    open_append log_file_full_path.
End SetupLogging.

(** In a file system every entry lies in a directory. *)
Definition closed (fs : gmap path lnode) : Prop :=
  forall p v, fs !! p = Some v ->
    forall j, (0 < j < length p)%nat -> fs !! take j p = Some LDir.

(** The same, as a test. *)
Definition closedb (fs : gmap path lnode) : bool :=
  forallb
    (fun pv : path * lnode =>
       forallb
         (fun j => match fs !! take j pv.1 with Some LDir => true | _ => false end)
         (seq 1 (length pv.1 - 1)))
    (map_to_list fs).

(** ** [get_loop_device]  (copy_new_usb_files_v2.py, 87-99) *)

(** What [json.loads] returns.  An object is a dictionary: its keys are
    distinct. *)
Unset Elimination Schemes.
Inductive json :=
| JNull
| JBool (b : bool)
| JNumber (z : Z)
| JString (s : string)
| JArray (items : list json)
| JObject (fields : list (string * json)).
Set Elimination Schemes.

Inductive error :=
| JSONDecodeError
| KeyError (key : string)
| TypeError
| FailedToSetUpLoopDevice (stderr : string).

Inductive outcome (A : Type) :=
| Returns (a : A)
| Raises (e : error).
Arguments Returns {A} a.
Arguments Raises {A} e.

Inductive call :=
| LosetupList                            (* losetup -l -J *)
| LosetupAttach (image : string)         (* sudo losetup -fP --show image *)
| LogError (stderr : string).

(** What the outside answers: the output of [losetup -l -J] as
    [json.loads] reads it ([None]: it is not JSON), and the return code and
    the two outputs of the attachment. *)
Record losetup := {
  listing : option json;
  returncode : Z;
  stdout : string;
  stderr : string }.

Definition USB_IMG : string := "/piusb.bin".

Fixpoint field (key : string) (fields : list (string * json)) : option json :=
  match fields with
  | [] => None
  | f :: fields' => if decide (f.1 = key) then Some f.2 else field key fields'
  end.

(** [v[key]] for a string [key] *)
Definition getitem (v : json) (key : string) : outcome json :=
  match v with
  | JObject fields =>
      match field key fields with
      | Some x => Returns x
      | None => Raises (KeyError key)
      end
  | _ => Raises TypeError
  end.

(** What [for x in v] runs through: the items of an array, the keys of an
    object, the characters of a string. *)
Definition iterate (v : json) : outcome (list json) :=
  match v with
  | JArray items => Returns items
  | JObject fields => Returns (map (fun f => JString f.1) fields)
  | JString s => Returns (map (fun c => JString (String c "")) (list_ascii_of_string s))
  | _ => Raises TypeError
  end.

(** [v == s] for a string [s] *)
Definition equals_str (v : json) (s : string) : bool :=
  match v with
  | JString s' => String.eqb s' s
  | _ => false
  end.

(** The loop over the loop devices: [Some name] when it returns from
    within. *)
Fixpoint first_backed_by (image : string) (loopdevices : list json)
    : outcome (option json) :=
  match loopdevices with
  | [] => Returns None
  | ld :: rest =>
      match getitem ld "back-file" with
      | Raises e => Raises e
      | Returns back_file =>
          if equals_str back_file image then
            match getitem ld "name" with
            | Raises e => Raises e
            | Returns name => Returns (Some name)
            end
          else first_backed_by image rest
      end
  end.

(** [str.isspace] of an ASCII character, and [str.strip()] *)
Definition isspace (c : Ascii.ascii) : bool :=
  let n := Ascii.nat_of_ascii c in
  ((9 <=? n) && (n <=? 13) || (28 <=? n) && (n <=? 32))%nat.

Fixpoint lstrip (s : string) : string :=
  match s with
  | String c s' => if isspace c then lstrip s' else s
  | EmptyString => EmptyString
  end.

Fixpoint rstrip (s : string) : string :=
  match s with
  | String c s' =>
      match rstrip s' with
      | EmptyString => if isspace c then EmptyString else String c EmptyString
      | rest => String c rest
      end
  | EmptyString => EmptyString
  end.

Definition strip (s : string) : string := rstrip (lstrip s).

(** The calls made, and the result. *)
Definition get_loop_device (O : losetup) : list call * outcome json :=
  match listing O with
  | None => ([LosetupList], Raises JSONDecodeError)
  | Some jsonLoop =>
      match getitem jsonLoop "loopdevices" with
      | Raises e => ([LosetupList], Raises e)
      | Returns loopdevices =>
          match iterate loopdevices with
          | Raises e => ([LosetupList], Raises e)
          | Returns lds =>
              match first_backed_by USB_IMG lds with
              | Raises e => ([LosetupList], Raises e)
              | Returns (Some name) => ([LosetupList], Returns name)
              | Returns None =>
                  if negb (returncode O =? 0) then
                    ([LosetupList; LosetupAttach USB_IMG; LogError (stderr O)],
                     Raises (FailedToSetUpLoopDevice (stderr O)))
                  else
                    ([LosetupList; LosetupAttach USB_IMG],
                     Returns (JString (strip (stdout O))))
              end
          end
      end
  end.

(** A loop device as [losetup] lists it, backed by [back_file]. *)
Definition backed_by (back_file : string) (name : json) (ld : json) : Prop :=
  exists fields,
    ld = JObject fields /\
    field "back-file" fields = Some (JString back_file) /\
    field "name" fields = Some name.

(** A loop device as [losetup] lists it, backed by something else. *)
Definition elsewhere (image : string) (ld : json) : Prop :=
  exists fields back_file,
    ld = JObject fields /\
    field "back-file" fields = Some back_file /\
    equals_str back_file image = false.

(** ** Inputs for the examples *)

(** The image is attached already, as the second of two loop devices. *)
Definition image_attached : losetup :=
  {| listing :=
       Some (JObject
               [("loopdevices",
                 JArray [JObject [("name", JString "/dev/loop0");
                                  ("back-file", JString "/var/swap.img")];
                         JObject [("name", JString "/dev/loop1");
                                  ("back-file", JString "/piusb.bin")]])]%string);
     returncode := 0; stdout := ""; stderr := "" |}.

(** Only another image is attached; the attachment prints the new device. *)
Definition image_detached : losetup :=
  {| listing :=
       Some (JObject
               [("loopdevices",
                 JArray [JObject [("name", JString "/dev/loop0");
                                  ("back-file", JString "/var/swap.img")]])]%string);
     returncode := 0;
     stdout := String.append "/dev/loop1" (String (Ascii.ascii_of_nat 10) "");
     stderr := "" |}.

End Startup.
(** * Facts about sorting and about the change scan *)

(** ** Facts about the stable sort *)
Section SortingFacts.
Context {A : Type} (key : A -> Z).

Lemma insert_asc_perm x (l : list A) : insert_asc key x l ≡ₚ x :: l.
Proof.
  induction l as [|y l IH]; simpl; [done|].
  destruct (key x <=? key y); [done|].
  rewrite IH. apply Permutation_swap.
Qed.

Lemma sort_asc_perm (l : list A) : sort_asc key l ≡ₚ l.
Proof.
  induction l as [|x l IH]; simpl; [done|].
  rewrite insert_asc_perm. by rewrite IH.
Qed.

Lemma insert_desc_perm x (l : list A) : insert_desc key x l ≡ₚ x :: l.
Proof.
  induction l as [|y l IH]; simpl; [done|].
  destruct (key y <=? key x); [done|].
  rewrite IH. apply Permutation_swap.
Qed.

Lemma sort_desc_perm (l : list A) : sort_desc key l ≡ₚ l.
Proof.
  induction l as [|x l IH]; simpl; [done|].
  rewrite insert_desc_perm. by rewrite IH.
Qed.

Lemma insert_asc_sorted x (l : list A) :
  ascending key l -> ascending key (insert_asc key x l).
Proof.
  unfold ascending. induction 1 as [|y l Hs IH Hy]; simpl.
  - repeat constructor.
  - destruct (key x <=? key y) eqn:E.
    + apply Z.leb_le in E. constructor; [by constructor|].
      constructor; [done|].
      eapply Forall_impl; [exact Hy|]. simpl. intros; lia.
    + apply Z.leb_gt in E. constructor; [done|].
      rewrite insert_asc_perm. constructor; [lia | done].
Qed.

Lemma sort_asc_sorted (l : list A) : ascending key (sort_asc key l).
Proof.
  induction l as [|x l IH]; simpl; [constructor|].
  by apply insert_asc_sorted.
Qed.

Lemma insert_desc_sorted x (l : list A) :
  descending key l -> descending key (insert_desc key x l).
Proof.
  unfold descending. induction 1 as [|y l Hs IH Hy]; simpl.
  - repeat constructor.
  - destruct (key y <=? key x) eqn:E.
    + apply Z.leb_le in E. constructor; [by constructor|].
      constructor; [done|].
      eapply Forall_impl; [exact Hy|]. simpl. intros; lia.
    + apply Z.leb_gt in E. constructor; [done|].
      rewrite insert_desc_perm. constructor; [lia | done].
Qed.

Lemma sort_desc_sorted (l : list A) : descending key (sort_desc key l).
Proof.
  induction l as [|x l IH]; simpl; [constructor|].
  by apply insert_desc_sorted.
Qed.

(** In a sorted list no element of the front is beaten by one of the rest. *)
Lemma ascending_take_drop (l : list A) (k : nat) x y :
  ascending key l -> x ∈ take k l -> y ∈ drop k l -> key x <= key y.
Proof.
  intros Hs. revert k. induction Hs as [|z l Hs IH Hz]; intros k Hx Hy.
  - rewrite take_nil in Hx. by apply elem_of_nil in Hx.
  - destruct k as [|k]; simpl in *; [by apply elem_of_nil in Hx|].
    apply elem_of_cons in Hx as [->|Hx]; [|by eapply IH].
    rewrite Forall_forall in Hz. apply Hz.
    eapply subseteq_drop, Hy.
Qed.

Lemma descending_take_drop (l : list A) (k : nat) x y :
  descending key l -> x ∈ take k l -> y ∈ drop k l -> key y <= key x.
Proof.
  intros Hs. revert k. induction Hs as [|z l Hs IH Hz]; intros k Hx Hy.
  - rewrite take_nil in Hx. by apply elem_of_nil in Hx.
  - destruct k as [|k]; simpl in *; [by apply elem_of_nil in Hx|].
    apply elem_of_cons in Hx as [->|Hx]; [|by eapply IH].
    rewrite Forall_forall in Hz. apply Hz.
    eapply subseteq_drop, Hy.
Qed.
End SortingFacts.

(** ** Facts about the change scan *)

Lemma qualifies_spec t f :
  qualifies t f = true <-> is_file f = true /\ newer_than t f.
Proof.
  unfold qualifies, newer_than. rewrite andb_true_iff, Z.ltb_lt. tauto.
Qed.

Lemma file_not_dir item : is_file item = true -> is_dir item = false.
Proof. unfold is_file, is_dir. by destruct (de_node item). Qed.

Lemma scan_item_fold t items fs ds :
  fold_left (scan_item t) items (fs, ds) =
  (fs ++ map de_path (List.filter (qualifies t) items),
   ds ++ List.filter is_dir items).
Proof.
  revert fs ds. induction items as [|x items IH]; intros fs ds; simpl.
  - by rewrite !app_nil_r.
  - unfold scan_item at 2. fold (qualifies t x).
    destruct (qualifies t x) eqn:Q; simpl.
    + apply qualifies_spec in Q as [Hf _].
      rewrite (file_not_dir _ Hf), IH. simpl. by rewrite <- app_assoc.
    + destruct (is_dir x); rewrite IH; simpl; by rewrite <- ?app_assoc.
Qed.

(** [for i in range(n): if len(directories) > i: ... directories[i]] visits
    the first [n] directories, in order. *)
Lemma scan_range_take (rec : DirEntry -> option (list path))
    (dirs : list DirEntry) n k acc :
  fold_left
    (fun acc i =>
       match acc with
       | None => None
       | Some all_files =>
           match dirs !! i with
           | Some d =>
               match rec d with
               | Some sub => Some (all_files ++ sub)
               | None => None
               end
           | None => Some all_files
           end
       end) (seq k n) acc
  = fold_left (scan_into rec) (take n (drop k dirs)) acc.
Proof.
  revert k acc. induction n as [|n IH]; intros k acc; simpl; [done|].
  rewrite IH. destruct (dirs !! k) as [d|] eqn:E.
  - rewrite (drop_S _ _ _ E). simpl. by destruct acc.
  - apply lookup_ge_None in E.
    rewrite (drop_ge dirs k), (drop_ge dirs (S k)) by lia.
    rewrite !take_nil. simpl. by destruct acc.
Qed.

Lemma scan_into_fold (rec : DirEntry -> option (list path))
    (chosen : list DirEntry) (fs : list path) :
  (forall c, c ∈ chosen -> is_Some (rec c)) ->
  exists l, fold_left (scan_into rec) chosen (Some fs) = Some l /\
    forall p, p ∈ l <-> p ∈ fs \/ exists c sub, c ∈ chosen /\ rec c = Some sub /\ p ∈ sub.
Proof.
  revert fs. induction chosen as [|c chosen IH]; intros fs Hall; simpl.
  - exists fs. split; [done|]. intros p. split; [by left|].
    intros [?|(c & sub & Hc & _)]; [done|]. by apply elem_of_nil in Hc.
  - destruct (Hall c) as [sub Hsub]; [by left|]. rewrite Hsub.
    destruct (IH (fs ++ sub)) as (l & Hl & Hmem).
    { intros c' Hc'. apply Hall. by right. }
    exists l. split; [done|]. intros p. rewrite Hmem, elem_of_app. split.
    + intros [[?|?]|(c' & sub' & Hc' & Hr & Hp)]; [by left| |].
      * right. exists c, sub. split; [by left|done].
      * right. exists c', sub'. split; [by right|done].
    + intros [?|(c' & sub' & Hc' & Hr & Hp)]; [by left; left|].
      apply elem_of_cons in Hc' as [->|Hc'].
      * left; right. congruence.
      * right. by exists c', sub'.
Qed.

Lemma height_child (e : string * node) es :
  e ∈ es -> (height e.2 <= foldr (fun e h => Nat.max (height e.2) h) O es)%nat.
Proof.
  induction 1; simpl; lia.
Qed.

Lemma height_scandir dir c :
  c ∈ scandir dir -> (height (de_node c) < height (de_node dir))%nat.
Proof.
  unfold scandir. intros Hc. apply list_elem_of_fmap in Hc as (e & -> & He).
  destruct (de_node dir) as [|m es]; simpl in *.
  - by apply elem_of_nil in He.
  - apply height_child in He. lia.
Qed.

Lemma chosen_scandir d dir sub :
  sub ∈ take d (sort_desc st_mtime_of (List.filter is_dir (scandir dir))) ->
  sub ∈ scandir dir /\ is_dir sub = true.
Proof.
  intros H. apply subseteq_take in H. rewrite sort_desc_perm in H.
  apply list_elem_of_In, filter_In in H as [H ?]. by apply list_elem_of_In in H.
Qed.

(** With fuel above the height the scan returns, and returns the paths of
    the files in reach that are newer than the watermark. *)
Lemma scan_in_reach t d fuel dir :
  (height (de_node dir) < fuel)%nat ->
  exists l, get_files_since_point_in_time fuel dir t d = Some l /\
    forall p, p ∈ l <->
      exists f, in_reach d dir f /\ newer_than t f /\ de_path f = p.
Proof.
  revert dir. induction fuel as [|fuel IH]; intros dir Hh; [lia|].
  simpl. rewrite scan_item_fold. simpl.
  rewrite (scan_range_take
             (fun c => get_files_since_point_in_time fuel c t d)).
  rewrite drop_0.
  set (chosen := take d (sort_desc st_mtime_of (List.filter is_dir (scandir dir)))).
  assert (Hsub : forall c, c ∈ chosen -> (height (de_node c) < fuel)%nat).
  { intros c Hc. apply chosen_scandir in Hc as [Hc _].
    apply height_scandir in Hc. lia. }
  destruct (scan_into_fold (fun c => get_files_since_point_in_time fuel c t d)
              chosen (map de_path (List.filter (qualifies t) (scandir dir))))
    as (l & Hl & Hmem).
  { intros c Hc. destruct (IH c (Hsub c Hc)) as (l & -> & _). by eexists. }
  exists l. split; [done|]. intros p. rewrite Hmem. split.
  - intros [Hp|(c & sub & Hc & Hr & Hp)].
    + apply list_elem_of_fmap in Hp as (f & -> & Hf).
      apply list_elem_of_In, filter_In in Hf as [Hf Hq].
      apply qualifies_spec in Hq as [? ?]. apply list_elem_of_In in Hf.
      exists f. split; [by apply reach_here|done].
    + destruct (IH c (Hsub c Hc)) as (l' & Hl' & Hmem').
      rewrite Hr in Hl'. injection Hl' as <-.
      apply Hmem' in Hp as (f & Hf & Hn & Hpath).
      exists f. split; [by eapply reach_below|done].
  - intros (f & Hf & Hn & Hpath). inversion Hf as [? ? Hin Hfile|? sub ? Hsubin Hin]; subst.
    + left. apply list_elem_of_fmap. exists f. split; [done|].
      apply list_elem_of_In, filter_In. split; [by apply list_elem_of_In|].
      by apply qualifies_spec.
    + right. destruct (IH sub (Hsub sub Hsubin)) as (l' & Hl' & Hmem').
      exists sub, l'. split; [done|]. split; [done|].
      apply Hmem'. by exists f.
Qed.

(** With [newest_dir_count = 0] nothing below the directory is visited. *)
Lemma scan_depth_zero t fuel dir :
  get_files_since_point_in_time (S fuel) dir t 0 =
  Some (map de_path (List.filter (qualifies t) (scandir dir))).
Proof.
  simpl. by rewrite scan_item_fold.
Qed.


(** ** Facts about paths *)

Lemma relpath_app (p base rel : path) :
  relpath p base = Some rel -> p = base ++ rel.
Proof.
  revert p. induction base as [|b base IH]; intros p; simpl.
  - by intros [= ->].
  - destruct p as [|x p]; [done|]. destruct (decide (x = b)) as [->|]; [|done].
    intros H. by rewrite (IH _ H).
Qed.

Lemma relpath_below (base rel : path) : relpath (base ++ rel) base = Some rel.
Proof.
  induction base as [|b base IH]; simpl; [done|].
  by destruct (decide (b = b)).
Qed.

Lemma last_app_nonempty (l l' : path) (d : string) :
  l' <> [] -> List.last (l ++ l') d = List.last l' d.
Proof.
  intros Hl'. induction l as [|x l IH]; simpl; [done|].
  destruct (l ++ l') eqn:E; [|done].
  apply app_eq_nil in E as [_ ->]. done.
Qed.

(** A path below the base is its directory followed by its name. *)
Lemma dirname_basename (base rel : path) :
  rel <> [] -> dirname rel ++ [basename (base ++ rel)] = rel.
Proof.
  intros Hrel. unfold dirname, basename.
  rewrite last_app_nonempty by done.
  symmetry. by apply app_removelast_last.
Qed.

(** The scan yields paths strictly below the directory it starts from. *)
Lemma in_reach_below d dir f :
  in_reach d dir f -> exists rel, de_path f = de_path dir ++ rel /\ rel <> [].
Proof.
  induction 1 as [dir f Hf _|dir sub f Hsub _ (rel & -> & _)].
  - unfold scandir in Hf. apply list_elem_of_fmap in Hf as (e & -> & _).
    simpl. by eexists.
  - apply chosen_scandir in Hsub as [Hsub _].
    unfold scandir in Hsub. apply list_elem_of_fmap in Hsub as (e & -> & _).
    simpl. exists (e.1 :: rel). by rewrite <- app_assoc.
Qed.

Lemma scan_below root_path root t d l p :
  scan root_path root t d = Some l -> p ∈ l ->
  exists rel, p = root_path ++ rel /\ rel <> [].
Proof.
  unfold scan. intros Hl Hp.
  destruct (scan_in_reach t d (S (height root))
              {| de_path := root_path; de_node := root |}) as (l' & Hl' & Hmem);
    [simpl; lia|].
  rewrite Hl in Hl'. injection Hl' as <-.
  apply Hmem in Hp as (f & Hf & _ & <-).
  by apply in_reach_below in Hf.
Qed.

(** ** Facts about directory trees *)

Lemma all_files_dir p m es : all_files p (Dir m es) = flat_map (files_in p) es.
Proof. reflexivity. Qed.

Lemma prune_dir m e es :
  prune (Dir m (e :: es)) = Some (Dir m (flat_map prune_entry (e :: es))).
Proof.
  change (prune (Dir m (e :: es))) with
    (Some (Dir m
             (flat_map
                (fun e =>
                   match e.2 with
                   | File _ _ _ => [e]
                   | Dir _ _ =>
                       match prune e.2 with
                       | Some child => [(e.1, child)]
                       | None => []
                       end
                   end) (e :: es)))).
  do 2 f_equal. apply flat_map_ext. intros [name [a b c|m' sub]]; reflexivity.
Qed.

Lemma prune_is_dir m es n' : prune (Dir m es) = Some n' -> exists es', n' = Dir m es'.
Proof.
  destruct es as [|e es]; [done|]. rewrite prune_dir. intros [= <-]. by eexists.
Qed.

Lemma wf_dir m es :
  wf (Dir m es) = true <-> NoDup (map fst es) /\ Forall (fun e => wf e.2 = true) es.
Proof.
  simpl. rewrite andb_true_iff, bool_decide_eq_true, forallb_forall, Forall_forall.
  split; intros [? H]; (split; [done|]); intros x Hx; apply H;
    by apply list_elem_of_In.
Qed.

Lemma assoc_app name es1 es2 :
  assoc name (es1 ++ es2) =
  match assoc name es1 with Some n => Some n | None => assoc name es2 end.
Proof.
  induction es1 as [|e es1 IH]; simpl; [done|].
  by destruct (decide (e.1 = name)).
Qed.

Lemma assoc_none name es : name ∉ map fst es -> assoc name es = None.
Proof.
  induction es as [|e es IH]; simpl; [done|].
  intros Hn. apply not_elem_of_cons in Hn as [Hne Hn].
  destruct (decide (e.1 = name)); [done|]. by apply IH.
Qed.

Lemma assoc_some name es n : assoc name es = Some n -> (name, n) ∈ es.
Proof.
  induction es as [|[k v] es IH]; simpl; [done|].
  destruct (decide (k = name)) as [->|].
  - intros [= ->]. by left.
  - intros H. right. by apply IH.
Qed.

Lemma assoc_elem name n es :
  NoDup (map fst es) -> (name, n) ∈ es -> assoc name es = Some n.
Proof.
  induction es as [|[k v] es IH]; simpl; intros Hnd Hin.
  - by apply elem_of_nil in Hin.
  - apply NoDup_cons in Hnd as [Hk Hnd].
    apply elem_of_cons in Hin as [[= <- <-]|Hin].
    + by destruct (decide (name = name)).
    + destruct (decide (k = name)) as [->|]; [|by apply IH].
      exfalso. apply Hk. apply list_elem_of_fmap. by exists (name, n).
Qed.

(** The entry called [name] splits the directory in two. *)
Lemma assoc_split name es n :
  NoDup (map fst es) -> assoc name es = Some n ->
  exists es1 es2, es = es1 ++ (name, n) :: es2 /\
                  (name ∉ map fst es1) /\ (name ∉ map fst es2).
Proof.
  induction es as [|[k v] es IH]; simpl; intros Hnd H; [done|].
  apply NoDup_cons in Hnd as [Hk Hnd].
  destruct (decide (k = name)) as [->|Hne].
  - injection H as ->. exists [], es. split; [done|]. split; [|done].
    simpl. apply not_elem_of_nil.
  - destruct (IH Hnd H) as (es1 & es2 & -> & H1 & H2).
    exists ((k, v) :: es1), es2. split; [done|]. split; [|done].
    simpl. apply not_elem_of_cons. by split.
Qed.

Lemma alter_entry_split name f es1 n es2 :
  name ∉ map fst es1 ->
  alter_entry name f (es1 ++ (name, n) :: es2) =
  match f n with
  | Some (Some n') => Some (es1 ++ (name, n') :: es2)
  | Some None => Some (es1 ++ es2)
  | None => None
  end.
Proof.
  induction es1 as [|[k v] es1 IH]; simpl; intros Hn.
  - destruct (decide (name = name)); [|done]. by destruct (f n) as [[?|]|].
  - apply not_elem_of_cons in Hn as [Hne Hn].
    destruct (decide (k = name)); [congruence|].
    rewrite (IH Hn). by destruct (f n) as [[?|]|].
Qed.

(** Pruning keeps every file. *)
Lemma prune_files n : forall p, files_under p (prune n) = all_files p n.
Proof.
  induction n as [m c data|m es IH] using node_ind; intros p; [done|].
  assert (Hflat : flat_map (files_in p) (flat_map prune_entry es)
                  = flat_map (files_in p) es).
  { induction IH as [|[name child] es Hchild _ IHes]; [done|].
    change (flat_map prune_entry ((name, child) :: es))
      with (prune_entry (name, child) ++ flat_map prune_entry es).
    change (flat_map (files_in p) ((name, child) :: es))
      with (files_in p (name, child) ++ flat_map (files_in p) es).
    rewrite flat_map_app, IHes. f_equal.
    unfold prune_entry. simpl.
    specialize (Hchild (p ++ [name])). simpl in Hchild.
    destruct child as [a b c|m' sub]; [done|].
    destruct (prune (Dir m' sub)) as [child'|] eqn:Hp.
    - apply prune_is_dir in Hp as (es' & ->). simpl.
      rewrite app_nil_r. exact Hchild.
    - exact Hchild. }
  destruct es as [|e0 es0]; [done|]. rewrite prune_dir.
  simpl files_under. by rewrite !all_files_dir.
Qed.

Lemma prune_names es : map fst (flat_map prune_entry es) ⊆ map fst es.
Proof.
  induction es as [|[name child] es IH]; [done|].
  change (flat_map prune_entry ((name, child) :: es))
    with (prune_entry (name, child) ++ flat_map prune_entry es).
  rewrite fmap_app. unfold prune_entry at 1. simpl.
  destruct (prune child); simpl.
  - intros x [->|Hx]%elem_of_cons; [by left|]. right. by apply IH.
  - intros x Hx. right. by apply IH.
Qed.

Lemma prune_nodup es : NoDup (map fst es) -> NoDup (map fst (flat_map prune_entry es)).
Proof.
  induction es as [|[name child] es IH]; [done|]. simpl map at 1.
  intros [Hn Hnd]%NoDup_cons.
  change (flat_map prune_entry ((name, child) :: es))
    with (prune_entry (name, child) ++ flat_map prune_entry es).
  unfold prune_entry at 1. simpl. destruct (prune child); simpl; [|by apply IH].
  apply NoDup_cons. split; [|by apply IH].
  intros Hin. apply Hn. by apply prune_names.
Qed.

(** Pruning keeps the names apart. *)
Lemma prune_wf n : wf n = true -> forall n', prune n = Some n' -> wf n' = true.
Proof.
  induction n as [m c data|m es IH] using node_ind; intros Hwf n'.
  - by intros [= <-].
  - apply wf_dir in Hwf as [Hnd Hall].
    assert (Hkept : Forall (fun e => wf e.2 = true) (flat_map prune_entry es)).
    { clear Hnd. induction IH as [|[name child] es Hchild _ IHes]; [constructor|].
      apply Forall_cons in Hall as [Hc Hall].
      change (flat_map prune_entry ((name, child) :: es))
        with (prune_entry (name, child) ++ flat_map prune_entry es).
      apply Forall_app. split; [|by apply IHes].
      unfold prune_entry. simpl in *. destruct (prune child) as [child'|] eqn:Hp;
        [|constructor].
      repeat constructor. simpl. by apply Hchild. }
    destruct es as [|e0 es0]; [done|]. rewrite prune_dir. intros [= <-].
    apply wf_dir. split; [exact (prune_nodup _ Hnd)|done].
Qed.

Lemma assoc_prune name es :
  NoDup (map fst es) ->
  assoc name (flat_map prune_entry es) = (assoc name es ≫= prune).
Proof.
  induction es as [|[k child] es IH]; [done|]. simpl map.
  intros [Hk Hnd]%NoDup_cons.
  change (flat_map prune_entry ((k, child) :: es))
    with (prune_entry (k, child) ++ flat_map prune_entry es).
  rewrite assoc_app. simpl assoc at 3. unfold prune_entry at 1. simpl.
  destruct (decide (k = name)) as [->|Hne]; simpl.
  - destruct (prune child) as [child'|]; simpl.
    + by destruct (decide (name = name)).
    + apply assoc_none. intros Hin. apply Hk. by apply prune_names.
  - rewrite <- (IH Hnd). destruct (prune child); simpl; [|done].
    by destruct (decide (k = name)).
Qed.

(** Looking up in the pruned tree is pruning what is looked up. *)
Lemma prune_lookup n : wf n = true ->
  forall rel, (prune n ≫= lookup_node rel) = (lookup_node rel n ≫= prune).
Proof.
  induction n as [m c data|m es IH] using node_ind; intros Hwf rel.
  - destruct rel; [done|]. simpl. done.
  - destruct rel as [|name rest].
    { unfold mbind, option_bind. cbn [lookup_node].
      by destruct (prune (Dir m es)). }
    apply wf_dir in Hwf as [Hnd Hall].
    destruct es as [|e0 es0]; [done|]. rewrite prune_dir.
    remember (e0 :: es0) as es eqn:Hes. clear Hes.
    simpl. rewrite assoc_prune by done.
    destruct (assoc name es) as [child|] eqn:Hchild; [|done]. simpl.
    apply assoc_some in Hchild.
    rewrite Forall_forall in IH, Hall.
    specialize (IH _ Hchild (Hall _ Hchild) rest). simpl in IH.
    destruct (prune child) as [child'|]; simpl in *; [|by rewrite <- IH].
    by rewrite <- IH.
Qed.

(** Every file of a tree is found again by its path. *)
Lemma all_files_lookup n : wf n = true ->
  forall p f, f ∈ all_files p n ->
    exists rel, de_path f = p ++ rel /\ rel <> [] /\
                lookup_node rel n = Some (de_node f) /\ is_file f = true.
Proof.
  induction n as [m c data|m es IH] using node_ind; intros Hwf p f Hf.
  - by apply elem_of_nil in Hf.
  - apply wf_dir in Hwf as [Hnd Hall]. rewrite all_files_dir in Hf.
    apply list_elem_of_In, in_flat_map in Hf as ([name child] & He & Hf).
    apply list_elem_of_In in He, Hf.
    pose proof (assoc_elem _ _ _ Hnd He) as Hassoc.
    rewrite Forall_forall in IH, Hall.
    unfold files_in in Hf. simpl in Hf. destruct child as [a b c|m' sub].
    + apply list_elem_of_singleton in Hf as ->. exists [name]. simpl.
      rewrite Hassoc. done.
    + destruct (IH _ He (Hall _ He) (p ++ [name]) f Hf)
        as (rel & Hpath & _ & Hlook & Hfile).
      exists (name :: rel). rewrite Hpath, <- app_assoc. simpl.
      rewrite Hassoc. done.
Qed.

Lemma remove_file_cons name rest m es :
  remove_file (name :: rest) (Dir m es) =
  match alter_entry name
          (fun child =>
             match rest with
             | [] => if is_file {| de_path := []; de_node := child |}
                     then Some None else None
             | _ :: _ =>
                 match remove_file rest child with
                 | Some child' => Some (Some child')
                 | None => None
                 end
             end) es with
  | Some es' => Some (Dir m es')
  | None => None
  end.
Proof. reflexivity. Qed.

Lemma files_in_cons p e es :
  flat_map (files_in p) (e :: es) = files_in p e ++ flat_map (files_in p) es.
Proof. reflexivity. Qed.

Lemma remove_file_dir rel m es n' :
  remove_file rel (Dir m es) = Some n' -> exists es', n' = Dir m es'.
Proof.
  destruct rel as [|name rest]; simpl; [done|].
  destruct (alter_entry _ _ es); [|done]. intros [= <-]. by eexists.
Qed.

Lemma lookup_below_file rel a b c : rel <> [] -> lookup_node rel (File a b c) = None.
Proof. by destruct rel. Qed.

Lemma lookup_cons name rest n :
  lookup_node (name :: rest) n =
  match assoc name (entries_of n) with
  | Some child => lookup_node rest child
  | None => None
  end.
Proof. reflexivity. Qed.

(** Removing the entry called [name] takes no path into the directory. *)
Lemma lookup_without name child es1 es2 rel0 m :
  name ∉ map fst es2 ->
  lookup_node rel0 (Dir m (es1 ++ (name, child) :: es2)) = None ->
  lookup_node rel0 (Dir m (es1 ++ es2)) = None.
Proof.
  intros H2. destruct rel0 as [|x r0]; [done|].
  rewrite !lookup_cons. simpl entries_of. rewrite !assoc_app. simpl.
  destruct (assoc x es1) as [y|]; [done|].
  destruct (decide (name = x)) as [->|Hne]; [|done].
  intros _. by rewrite (assoc_none _ _ H2).
Qed.

(** Nor does changing it for an entry into which no path is taken. *)
Lemma lookup_changed name child child' es1 es2 rel0 m :
  (forall r0, lookup_node r0 child = None -> lookup_node r0 child' = None) ->
  lookup_node rel0 (Dir m (es1 ++ (name, child) :: es2)) = None ->
  lookup_node rel0 (Dir m (es1 ++ (name, child') :: es2)) = None.
Proof.
  intros Hc. destruct rel0 as [|x r0]; [done|].
  rewrite !lookup_cons. simpl entries_of. rewrite !assoc_app. simpl.
  destruct (assoc x es1) as [y|]; [done|].
  destruct (decide (name = x)) as [->|Hne]; [|done].
  apply Hc.
Qed.

(** Removing a file of a tree takes that file out of it, and nothing else. *)
Lemma remove_file_spec rel : forall n a b c,
  wf n = true -> rel <> [] -> lookup_node rel n = Some (File a b c) ->
  exists n',
    remove_file rel n = Some n' /\ wf n' = true /\
    (forall p, all_files p n ≡ₚ
               {| de_path := p ++ rel; de_node := File a b c |} :: all_files p n') /\
    (forall rel0, lookup_node rel0 n = None -> lookup_node rel0 n' = None).
Proof.
  induction rel as [|name rest IH]; intros n a b c Hwf Hrel Hlook; [done|].
  destruct n as [a' b' c'|m es]; [by rewrite lookup_below_file in Hlook|].
  rewrite lookup_cons in Hlook. simpl in Hlook.
  destruct (assoc name es) as [child|] eqn:Hassoc; [|done].
  apply wf_dir in Hwf as [Hnd Hall].
  destruct (assoc_split _ _ _ Hnd Hassoc) as (es1 & es2 & -> & H1 & H2).
  rewrite fmap_app in Hnd. simpl in Hnd.
  apply Forall_app in Hall as [Hall1 Hall2].
  apply Forall_cons in Hall2 as [Hchild Hall2]. simpl in Hchild.
  assert (Hnd' : NoDup (map fst (es1 ++ es2))).
  { rewrite fmap_app. apply NoDup_app in Hnd as (Hn1 & Hdisj & Hn2).
    apply NoDup_cons in Hn2 as [_ Hn2]. apply NoDup_app.
    split; [done|]. split; [|done].
    intros x Hx Hin. apply (Hdisj x Hx). by right. }
  rewrite remove_file_cons, alter_entry_split by done.
  destruct rest as [|r rest].
  - injection Hlook as ->. cbn [is_file de_node].
    exists (Dir m (es1 ++ es2)). split; [done|]. split; [|split].
    + apply wf_dir. split; [done|]. by apply Forall_app.
    + intros p. rewrite !all_files_dir, !flat_map_app, files_in_cons.
      unfold files_in at 2. simpl.
      symmetry. apply Permutation_middle.
    + intros rel0 Hnone. by eapply lookup_without.
  - assert (exists m' sub, child = Dir m' sub) as (m' & sub & ->).
    { destruct child; [by rewrite lookup_below_file in Hlook|by eexists _, _]. }
    destruct (IH (Dir m' sub) a b c Hchild ltac:(done) Hlook)
      as (child' & Hrm & Hwf' & Hperm & Hnone').
    rewrite Hrm.
    destruct (remove_file_dir _ _ _ _ Hrm) as (sub' & ->).
    exists (Dir m (es1 ++ (name, Dir m' sub') :: es2)).
    split; [done|]. split; [|split].
    + apply wf_dir. split.
      * rewrite fmap_app. simpl. done.
      * apply Forall_app. split; [done|]. by constructor.
    + intros p. rewrite !all_files_dir, !flat_map_app, !files_in_cons.
      change (files_in p (name, Dir m' sub))
        with (all_files (p ++ [name]) (Dir m' sub)).
      change (files_in p (name, Dir m' sub'))
        with (all_files (p ++ [name]) (Dir m' sub')).
      rewrite (Hperm (p ++ [name])), <- (app_assoc p [name]). simpl.
      symmetry. apply Permutation_middle.
    + intros rel0 Hnone. by eapply lookup_changed.
Qed.

(** ** The files of a tree, once each *)

(** The files an entry contributes lie below the entry. *)
Lemma files_in_below p e f :
  wf e.2 = true -> f ∈ files_in p e -> exists r, de_path f = p ++ e.1 :: r.
Proof.
  intros Hwf. unfold files_in. destruct e as [name [a b c|m es]]; simpl in *.
  - intros Hf. apply list_elem_of_singleton in Hf as ->. by exists [].
  - intros Hf.
    destruct (all_files_lookup (Dir m es) Hwf (p ++ [name]) f Hf) as (rel & -> & _).
    exists rel. by rewrite <- app_assoc.
Qed.

(** In a tree in which no directory lists a name twice, no path is listed
    twice among the files. *)
Lemma all_files_nodup n : wf n = true -> forall p, NoDup (map de_path (all_files p n)).
Proof.
  induction n as [a b c|m es IH] using node_ind; intros Hwf p; [constructor|].
  rewrite all_files_dir. apply wf_dir in Hwf as [Hnames Hwfs].
  induction es as [|e es IHes]; [constructor|].
  rewrite files_in_cons, map_app.
  apply Forall_cons in IH as [IHe IH]. apply Forall_cons in Hwfs as [Hwfe Hwfs].
  apply NoDup_cons in Hnames as [Hfresh Hnames].
  apply NoDup_app. split; [|split; [|by apply IHes]].
  - unfold files_in. destruct e as [name [a b c|m' es']]; simpl in *.
    + apply NoDup_singleton.
    + by apply IHe.
  - intros q Hq1 Hq2.
    apply list_elem_of_fmap in Hq1 as (f1 & -> & Hf1).
    apply list_elem_of_fmap in Hq2 as (f2 & Heq & Hf2).
    apply files_in_below in Hf1 as [r1 Hr1]; [|done].
    apply list_elem_of_In, in_flat_map in Hf2 as (e2 & He2 & Hf2).
    apply list_elem_of_In in He2, Hf2.
    apply files_in_below in Hf2 as [r2 Hr2].
    2:{ rewrite Forall_forall in Hwfs. by apply Hwfs. }
    rewrite Hr1, Hr2 in Heq. apply app_inv_head in Heq. injection Heq as Heq _.
    apply Hfresh. rewrite Heq. apply list_elem_of_fmap. by exists e2.
Qed.


(** * Facts about the poller *)
Module CopyFacts.
Import Copy.
#[local] Open Scope poller_scope.

(** ** Stepping through a sequence *)

Lemma bind_inv {A B} (m : M A) (f : A -> M B) w r w' :
  bind m f w = (r, w') ->
  (exists a w1, m w = (Ok a, w1) /\ f a w1 = (r, w')) \/
  (exists e, m w = (Raise e, w') /\ r = Raise e).
Proof.
  unfold bind. destruct (m w) as [[a|e] w1]; intros H.
  - left. by exists a, w1.
  - right. exists e. by injection H as <- <-.
Qed.

Lemma bind_ok {A B} (m : M A) (f : A -> M B) w b w' :
  bind m f w = (Ok b, w') ->
  exists a w1, m w = (Ok a, w1) /\ f a w1 = (Ok b, w').
Proof.
  intros H. apply bind_inv in H as [H|(e & _ & H)]; [done|discriminate].
Qed.

Lemma added_app (w w' : world) evs :
  trace w' = trace w ++ evs -> added w w' = evs.
Proof. unfold added. intros ->. by rewrite drop_app_length. Qed.

Lemma calm_not_umount evs d rc : Forall calm evs -> Umount d rc ∉ evs.
Proof.
  intros H Hin. rewrite Forall_forall in H. by apply H in Hin.
Qed.

Lemma calm_not_mounting e : calm e -> ~ mounting e.
Proof. destruct e; simpl; tauto. Qed.

(** ** Quiet steps *)
Section Quiet.
Context (E : env).

(** A step that appends the calm events [evs] and changes at most the
    trees and the counter is quiet. *)
Lemma quiet_here {A} (w : world) (r : result A) (w' : world) evs :
  trace w' = trace w ++ evs -> Forall calm evs ->
  mounted w' = mounted w -> last_modify_time w' = last_modify_time w ->
  (forall e, r = Raise e -> e <> UmountError) ->
  (exists evs, trace w' = trace w ++ evs /\ Forall calm evs) /\
  mounted w' = mounted w /\
  last_modify_time w' = last_modify_time w /\
  (forall e, r = Raise e -> e <> UmountError).
Proof. intros. split; [by exists evs|done]. Qed.

Ltac here evs :=
  apply (quiet_here _ _ _ evs);
  [simpl; by rewrite ?app_nil_r
  |repeat constructor
  |reflexivity
  |reflexivity
  |intros ? [= <-]; discriminate || done].

Lemma quiet_ret {A} (a : A) : quiet (ret a).
Proof. intros w r w' [= <- <-]. here (@nil event). Qed.

Lemma quiet_pass : quiet pass.
Proof. apply quiet_ret. Qed.

Lemma quiet_raise {A} (e : exn) : e <> UmountError -> quiet (@raise A e).
Proof.
  intros He w r w' [= <- <-].
  apply (quiet_here _ _ _ []); [by rewrite app_nil_r|constructor|done|done|].
  by intros ? [= <-].
Qed.

Lemma quiet_get {A} (f : world -> A) : quiet (get f).
Proof. intros w r w' [= <- <-]. here (@nil event). Qed.

Lemma quiet_emit e : calm e -> quiet (emit e).
Proof.
  intros He w r w' [= <- <-].
  apply (quiet_here _ _ _ [e]); [done|by constructor|done|done|].
  intros ? [=].
Qed.

Lemma quiet_logging lvl msg : quiet (logging lvl msg).
Proof. by apply quiet_emit. Qed.

Lemma quiet_bind {A B} (m : M A) (f : A -> M B) :
  quiet m -> (forall a, quiet (f a)) -> quiet (bind m f).
Proof.
  intros Hm Hf w r w' H.
  apply bind_inv in H as [(a & w1 & H1 & H2)|(e & H1 & ->)].
  - destruct (Hm _ _ _ H1) as ((evs1 & Ht1 & Hc1) & Hm1 & Hl1 & _).
    destruct (Hf a _ _ _ H2) as ((evs2 & Ht2 & Hc2) & Hm2 & Hl2 & Hr).
    apply (quiet_here _ _ _ (evs1 ++ evs2)); [|by apply Forall_app|congruence..|done].
    by rewrite Ht2, Ht1, app_assoc.
  - destruct (Hm _ _ _ H1) as ((evs1 & Ht1 & Hc1) & Hm1 & Hl1 & Hr).
    apply (quiet_here _ _ _ evs1); [done..|].
    intros e' [= <-]. by apply Hr.
Qed.

Lemma quiet_if {A} (b : bool) (m1 m2 : M A) :
  quiet m1 -> quiet m2 -> quiet (if b then m1 else m2).
Proof. by destruct b. Qed.

Lemma quiet_for {A} (l : list A) (body : A -> M unit) :
  (forall x, quiet (body x)) -> quiet (for_ l body).
Proof.
  intros Hb. induction l as [|x l IH]; simpl.
  - apply quiet_pass.
  - apply quiet_bind; [apply Hb|by intros _].
Qed.

Lemma quiet_try_except {A} (m : M A) (h : exn -> M A) :
  quiet m -> (forall e, quiet (h e)) -> quiet (try_except m h).
Proof.
  intros Hm Hh w r w' H. unfold try_except in H.
  destruct (m w) as [[a|e] w1] eqn:H1.
  - injection H as <- <-. exact (Hm _ _ _ H1).
  - destruct (Hm _ _ _ H1) as ((evs1 & Ht1 & Hc1) & Hm1 & Hl1 & _).
    destruct (Hh e _ _ _ H) as ((evs2 & Ht2 & Hc2) & Hm2 & Hl2 & Hr).
    apply (quiet_here _ _ _ (evs1 ++ evs2)); [|by apply Forall_app|congruence..|done].
    by rewrite Ht2, Ht1, app_assoc.
Qed.

Lemma quiet_time_sleep ms : quiet (time_sleep ms).
Proof.
  unfold time_sleep. destruct (ms <? 0).
  - by apply quiet_raise.
  - by apply quiet_emit.
Qed.

Lemma quiet_os_path_isfile p : quiet (os_path_isfile p).
Proof. intros w r w' [= <- <-]. here (@nil event). Qed.

Lemma quiet_os_remove p : quiet (os_remove p).
Proof.
  intros w r w'. unfold os_remove.
  destruct (isfile_in (local w) p); intros [= <- <-]; here [Remove p].
Qed.

Lemma quiet_touch p : quiet (touch p).
Proof.
  intros w r w'. unfold touch.
  destruct (local w !! p); [|destruct (isdir_in (local w) (dirname p))];
    intros [= <- <-]; here [Touch p].
Qed.

Lemma quiet_os_makedirs p : quiet (os_makedirs p).
Proof.
  intros w r w'. unfold os_makedirs.
  destruct (makedirs_from [] p (local w)); intros [= <- <-]; here [Makedirs p].
Qed.

Lemma quiet_shutil_copy2 src dst : quiet (shutil_copy2 E src dst).
Proof.
  intros w r w'. unfold shutil_copy2.
  destruct (copy_fails E src); [intros [= <- <-]; here [Copy2 src dst]|].
  destruct (read_source w src) as [[m c data|m es]|].
  2,3: intros [= <- <-]; here [Copy2 src dst].
  match goal with |- context [if ?b then _ else _] => destruct b end;
    intros [= <- <-]; here [Copy2 src dst].
Qed.

Lemma quiet_copy_file_with_directory_structure base p dst :
  quiet (copy_file_with_directory_structure E base p dst).
Proof.
  unfold copy_file_with_directory_structure.
  destruct (relpath p base) as [rel|]; [|by apply quiet_raise].
  apply quiet_bind; [apply quiet_logging|intros _].
  apply quiet_bind; [apply quiet_os_makedirs|intros _].
  apply quiet_shutil_copy2.
Qed.

Lemma quiet_scan_source p t n : quiet (scan_source p t n).
Proof.
  intros w r w'. unfold scan_source.
  destruct (source w) as [root|]; [destruct (scan p root t n)|];
    intros [= <- <-]; here (@nil event).
Qed.
End Quiet.

(** ** The walk makes no call that mounts or unmounts *)

#[local] Arguments get_all_file_entries_delete_empty_dirs : simpl never.
#[local] Arguments read_source : simpl never.

(** The walk of a directory, unfolded once. *)
Lemma walk_dir (E : env) (start_dir : path) (m : Z) (items : list (string * node)) :
  get_all_file_entries_delete_empty_dirs E start_dir (Dir m items) =
  let '(all_file_entries, kept, evs, ex) :=
    walk_entries start_dir (get_all_file_entries_delete_empty_dirs E) items in
  match ex with
  | Some e =>
      {| entries := all_file_entries; residual := Some (Dir m kept);
         events := evs; raised := Some e |}
  | None =>
      if (length items =? 0)%nat then
        let evs := evs ++ [Log INFO (DeletingEmptyDirectory start_dir);
                           Rmdir start_dir] in
        if rmdir_fails E start_dir then
          {| entries := all_file_entries; residual := Some (Dir m kept);
             events := evs; raised := Some (OSError start_dir) |}
        else
          {| entries := all_file_entries; residual := None;
             events := evs; raised := None |}
      else
        {| entries := all_file_entries; residual := Some (Dir m kept);
           events := evs; raised := None |}
  end.
Proof. reflexivity. Qed.

Section WalkCalm.
Context (E : env).

Lemma walk_entries_calm start_dir items :
  Forall (fun e => forall p,
            calm_walk (get_all_file_entries_delete_empty_dirs E p e.2)) items ->
  Forall calm
    (walk_entries start_dir (get_all_file_entries_delete_empty_dirs E) items).1.2 /\
  (walk_entries start_dir (get_all_file_entries_delete_empty_dirs E) items).2
    <> Some UmountError.
Proof.
  induction 1 as [|item items Hitem _ IH]; simpl; [by split|].
  destruct item as [name [m c data|m es]]; simpl in *.
  - destruct (walk_entries start_dir _ items) as [[[found kept] evs] ex].
    exact IH.
  - destruct (Hitem (start_dir ++ [name])) as [Hc Hr].
    destruct (raised (get_all_file_entries_delete_empty_dirs E
                        (start_dir ++ [name]) (Dir m es))) as [e|] eqn:Hraised.
    + simpl. by split.
    + destruct (walk_entries start_dir _ items) as [[[found kept] evs] ex].
      simpl in *. destruct IH as [IH1 IH2]. split; [by apply Forall_app|done].
Qed.

Lemma walk_calm n : forall p,
  calm_walk (get_all_file_entries_delete_empty_dirs E p n).
Proof.
  induction n as [m c data|m es IH] using node_ind; intros p.
  - split; simpl; [constructor|discriminate].
  - pose proof (walk_entries_calm p es IH) as [Hc Hr].
    rewrite walk_dir.
    destruct (walk_entries p _ es) as [[[found kept] evs] ex]. simpl in *.
    destruct ex as [e|]; [by split|].
    destruct (length es =? 0)%nat; [|by split].
    destruct (rmdir_fails E p); (split; simpl; [|discriminate]);
      (apply Forall_app; split; [done|]); by repeat constructor.
Qed.

Lemma quiet_walk_source p : quiet (walk_source E p).
Proof.
  intros w r w'. unfold walk_source.
  destruct (source w) as [root|].
  2:{ intros [= <- <-].
      apply (quiet_here _ _ _ []); [by rewrite app_nil_r|constructor|done..|].
      by intros ? [= <-]. }
  destruct (walk_calm root p) as [Hc Hr].
  destruct (raised (get_all_file_entries_delete_empty_dirs E p root)) as [e|];
    intros [= <- <-];
    (apply (quiet_here _ _ _
              (events (get_all_file_entries_delete_empty_dirs E p root)));
     [done..|]).
  - intros ? [= <-]. congruence.
  - intros ? [=].
Qed.

Lemma quiet_os_remove_source p : quiet (os_remove_source E p).
Proof.
  intros w r w'. unfold os_remove_source.
  destruct (remove_outcome E p).
  - destruct (relpath p SOURCE_DIR) as [rel|], (source w) as [root|];
      [destruct (remove_file rel root)|..];
      intros [= <- <-];
      (apply (quiet_here _ _ _ [Remove p]); [done|by repeat constructor|done..|]);
      by intros ? [= <-].
  - intros [= <- <-].
    apply (quiet_here _ _ _ [Remove p]); [done|by repeat constructor|done..|].
    by intros ? [= <-].
  - intros [= <- <-].
    apply (quiet_here _ _ _ [Remove p]); [done|by repeat constructor|done..|].
    by intros ? [= <-].
Qed.

Lemma quiet_delete_entry file_entries i : quiet (delete_entry E file_entries i).
Proof.
  unfold delete_entry. destruct (file_entries !! i) as [f|].
  - apply quiet_try_except.
    + apply quiet_bind; [apply quiet_os_remove_source|intros _].
      apply quiet_logging.
    + intros e. destruct e; apply quiet_logging.
  - by apply quiet_raise.
Qed.
End WalkCalm.

(** ** From the mount to the unmount *)
Section Released.
Context (E : env).

Lemma os_stat_img_eq w :
  os_stat_img E w =
  (Ok (img_mtime E (length (trace w))),
   with_trace w (trace w ++ [Stat (img_mtime E (length (trace w)))])).
Proof. reflexivity. Qed.

(** [mount] either succeeds, and the partition is mounted, or raises. *)
Lemma mount_inv device d w r w' :
  mount E device d w = (r, w') ->
  (r = Ok tt /\ mount_rc E (length (trace w)) = 0 /\
   w' = with_trace (with_mounted w true)
          (trace w ++ [Mount device d 0; Sleep 500])) \/
  (exists rc, rc <> 0 /\ r = Raise MountError /\
   w' = with_trace w
          (trace w ++ [Mount device d rc; Log ERROR (FailedToMount device d)])).
Proof.
  unfold mount, bind, subprocess_mount, logging, emit, raise, time_sleep.
  simpl. destruct (mount_rc E (length (trace w)) =? 0) eqn:Hrc; simpl.
  - apply Z.eqb_eq in Hrc. rewrite Hrc. intros [= <- <-]. left.
    repeat split; unfold with_trace, with_mounted; simpl.
    by rewrite <- app_assoc.
  - apply Z.eqb_neq in Hrc. intros [= <- <-]. right.
    exists (mount_rc E (length (trace w))). repeat split; [done|].
    unfold with_trace, with_mounted; simpl. rewrite <- app_assoc.
    by destruct w.
Qed.

Lemma umount_inv d w r w' :
  umount E d w = (r, w') ->
  (r = Ok tt /\ umount_rc E (length (trace w)) = 0 /\
   w' = with_trace (with_mounted w false)
          (trace w ++ [Umount d 0; Sleep 500])) \/
  (exists rc, rc <> 0 /\ r = Raise UmountError /\
   w' = with_trace w
          (trace w ++ [Umount d rc; Log ERROR (FailedToUnmount d)])).
Proof.
  unfold umount, bind, subprocess_umount, logging, emit, raise, time_sleep.
  simpl. destruct (umount_rc E (length (trace w)) =? 0) eqn:Hrc; simpl.
  - apply Z.eqb_eq in Hrc. rewrite Hrc. intros [= <- <-]. left.
    repeat split; unfold with_trace, with_mounted; simpl.
    by rewrite <- app_assoc.
  - apply Z.eqb_neq in Hrc. intros [= <- <-]. right.
    exists (umount_rc E (length (trace w))). repeat split; [done|].
    unfold with_trace, with_mounted; simpl. rewrite <- app_assoc.
    by destruct w.
Qed.

(** The unmount and what follows it. *)
Lemma released_umount {A} (k : M A) :
  settles k -> released (umount E SOURCE_DIR;; k).
Proof.
  intros Hk w r w' H Hm.
  apply bind_inv in H as [([] & w1 & H1 & H2)|(e & H1 & ->)].
  - apply umount_inv in H1 as [(_ & Hrc & ->)|(rc & _ & [=] & _)].
    destruct (Hk (with_trace (with_mounted w false)
                    (trace w ++ [Umount SOURCE_DIR 0; Sleep 500])))
      as (a & w2 & evs & Hrun & Ht & Hc & Hm2).
    rewrite Hrun in H2. injection H2 as <- <-.
    exists ([Umount SOURCE_DIR 0; Sleep 500] ++ evs). split.
    + rewrite Ht. simpl. by rewrite <- app_assoc.
    + split; [|by rewrite Hm2]. apply elem_of_app. left. by left.
  - apply umount_inv in H1 as [([=] & _)|(rc & Hrc & [= ->] & ->)].
    exists [Umount SOURCE_DIR rc; Log ERROR (FailedToUnmount SOURCE_DIR)].
    split; [done|]. split; [done|]. split; [done|]. split; [|done].
    intros _. exists rc. split; [done|]. by left.
Qed.

(** A quiet step in front changes nothing of it. *)
Lemma released_bind {A B} (m : M A) (f : A -> M B) :
  quiet m -> (forall a, released (f a)) -> released (bind m f).
Proof.
  intros Hq Hf w r w' H Hm.
  apply bind_inv in H as [(a & w1 & H1 & H2)|(e & H1 & ->)].
  - destruct (Hq _ _ _ H1) as ((evs1 & Ht1 & Hc1) & Hm1 & Hl1 & _).
    destruct (Hf a _ _ _ H2) as (evs2 & Ht2 & Hr); [congruence|].
    exists (evs1 ++ evs2). split; [by rewrite Ht2, Ht1, app_assoc|].
    destruct r as [b|e].
    + destruct Hr as [Hin ?]. split; [|done]. apply elem_of_app. by right.
    + destruct Hr as (? & Hl & Hu & Hn). split; [done|].
      split; [congruence|]. split.
      * intros He. destruct (Hu He) as (rc & ? & Hin). exists rc.
        split; [done|]. apply elem_of_app. by right.
      * intros He d rc Hin. apply elem_of_app in Hin as [Hin|Hin].
        -- by eapply calm_not_umount.
        -- by eapply Hn.
  - destruct (Hq _ _ _ H1) as ((evs1 & Ht1 & Hc1) & Hm1 & Hl1 & Hr).
    exists evs1. split; [done|]. split; [congruence|]. split; [done|]. split.
    + intros ->. by destruct (Hr UmountError).
    + intros _ d rc Hin. by eapply calm_not_umount.
Qed.

Lemma settles_stat_modify :
  settles (t ← os_stat_img E; modify (fun w => with_last_modify_time w t)).
Proof.
  intros w. do 3 eexists. unfold bind. rewrite os_stat_img_eq. simpl.
  split; [reflexivity|]. simpl. split; [reflexivity|]. split; [|done].
  repeat constructor. by intros [].
Qed.

Lemma settles_modify (f : world -> world) :
  (forall w, trace (f w) = trace w) -> (forall w, mounted (f w) = mounted w) ->
  settles (modify f).
Proof.
  intros Ht Hm w. exists tt, (f w), []. split; [done|].
  rewrite app_nil_r. split; [done|]. split; [constructor|done].
Qed.

(** What follows the handling of a stale marker in a copy cycle. *)
Lemma released_copy_tail (new_files : list path) (destination_dir : path) :
  released
    (touch (COPYING_ACTIVE_FILE E);;
     for_ new_files
       (fun file =>
          copy_file_with_directory_structure E SOURCE_DIR file destination_dir);;
     present ← os_path_isfile (COPYING_ACTIVE_FILE E);
     (if present then os_remove (COPYING_ACTIVE_FILE E) else pass);;
     umount E SOURCE_DIR;;
     t ← os_stat_img E;
     modify (fun w => with_last_modify_time w t)).
Proof.
  apply released_bind; [apply quiet_touch|intros _].
  apply released_bind.
  { apply quiet_for. intros x. apply quiet_copy_file_with_directory_structure. }
  intros _. apply released_bind; [apply quiet_os_path_isfile|intros present].
  apply released_bind.
  { apply quiet_if; [apply quiet_os_remove|apply quiet_pass]. }
  intros _. apply released_umount, settles_stat_modify.
Qed.

(** What follows the mount in a copy cycle. *)
Lemma released_copy current_modify_time watermark :
  released
    (let destination_dir := DESTINATION_BASE_DIR E ++ [str current_modify_time] in
     new_files ← scan_source SOURCE_DIR watermark 2;
     stale ← os_path_isfile (COPYING_ACTIVE_FILE E);
     (if stale then
        logging WARNING (AlreadyExistsRemoving (COPYING_ACTIVE_FILE E));;
        os_remove (COPYING_ACTIVE_FILE E)
      else pass);;
     touch (COPYING_ACTIVE_FILE E);;
     for_ new_files
       (fun file =>
          copy_file_with_directory_structure E SOURCE_DIR file destination_dir);;
     present ← os_path_isfile (COPYING_ACTIVE_FILE E);
     (if present then os_remove (COPYING_ACTIVE_FILE E) else pass);;
     umount E SOURCE_DIR;;
     t ← os_stat_img E;
     modify (fun w => with_last_modify_time w t)).
Proof.
  cbv zeta.
  apply released_bind; [apply quiet_scan_source|intros new_files].
  apply released_bind; [apply quiet_os_path_isfile|intros stale].
  apply released_bind.
  { apply quiet_if; [|apply quiet_pass].
    apply quiet_bind; [apply quiet_logging|intros _; apply quiet_os_remove]. }
  intros _. apply released_copy_tail.
Qed.

(** What follows the mount in a sweep. *)
Lemma released_sweep config :
  released
    (file_entries ← walk_source E SOURCE_DIR;
     let max_file_diff :=
       Z.of_nat (length file_entries) - KeepMaxFilesOnUSB config in
     logging INFO (MaxFileDiff max_file_diff);;
     (if 0 <? max_file_diff then
        let file_entries := sort_asc st_mtime_of file_entries in
        for_ (seq 0 (Z.to_nat max_file_diff)) (delete_entry E file_entries)
      else pass);;
     umount E SOURCE_DIR;;
     modify (fun w => with_cycle_counter w 0)).
Proof.
  apply released_bind; [apply quiet_walk_source|intros file_entries].
  cbv zeta.
  apply released_bind; [apply quiet_logging|intros _].
  apply released_bind.
  { apply quiet_if; [|apply quiet_pass].
    apply quiet_for. intros i. apply quiet_delete_entry. }
  intros _. apply released_umount, settles_modify; by intros [].
Qed.
End Released.

(** The two cycles, from the mount on. *)
Lemma copy_new_files_unfold (E : env) device w :
  copy_new_files E device w =
  let t := img_mtime E (length (trace w)) in
  let w1 := with_trace w (trace w ++ [Stat t]) in
  if last_modify_time w <? t then
    (mount E device SOURCE_DIR;;
     let destination_dir := DESTINATION_BASE_DIR E ++ [str t] in
     new_files ← scan_source SOURCE_DIR (last_modify_time w) 2;
     stale ← os_path_isfile (COPYING_ACTIVE_FILE E);
     (if stale then
        logging WARNING (AlreadyExistsRemoving (COPYING_ACTIVE_FILE E));;
        os_remove (COPYING_ACTIVE_FILE E)
      else pass);;
     touch (COPYING_ACTIVE_FILE E);;
     for_ new_files
       (fun file =>
          copy_file_with_directory_structure E SOURCE_DIR file destination_dir);;
     present ← os_path_isfile (COPYING_ACTIVE_FILE E);
     (if present then os_remove (COPYING_ACTIVE_FILE E) else pass);;
     umount E SOURCE_DIR;;
     t ← os_stat_img E;
     modify (fun w => with_last_modify_time w t)) w1
  else (Ok tt, w1).
Proof.
  unfold copy_new_files. unfold bind at 1. rewrite os_stat_img_eq.
  unfold bind at 1. unfold get at 1. simpl.
  by destruct (last_modify_time w <? img_mtime E (length (trace w))).
Qed.

Lemma check_and_delete_on_usb_unfold (E : env) device config w :
  check_and_delete_on_usb E device config w =
  if CopyCheckCycleTime config =? 0 then (Raise ZeroDivisionError, w)
  else
    let counter := cycle_counter w + 1 in
    let w1 := with_cycle_counter w counter in
    if gt_fraction counter (DeleteOnUSBCycleTime config, CopyCheckCycleTime config)
    then
      (logging INFO (PerformUsbDeletionCheck counter);;
       mount E device SOURCE_DIR;;
       file_entries ← walk_source E SOURCE_DIR;
       let max_file_diff :=
         Z.of_nat (length file_entries) - KeepMaxFilesOnUSB config in
       logging INFO (MaxFileDiff max_file_diff);;
       (if 0 <? max_file_diff then
          let file_entries := sort_asc st_mtime_of file_entries in
          for_ (seq 0 (Z.to_nat max_file_diff)) (delete_entry E file_entries)
        else pass);;
       umount E SOURCE_DIR;;
       modify (fun w => with_cycle_counter w 0)) w1
    else (Ok tt, w1).
Proof.
  unfold check_and_delete_on_usb, true_divide. unfold bind at 1.
  destruct (CopyCheckCycleTime config =? 0); [done|].
  unfold ret. unfold bind at 1. unfold modify at 1. unfold bind at 1.
  unfold get at 1. simpl.
  by destruct (gt_fraction _ _).
Qed.

(** A mount after calm events, followed by a rest that releases. *)
Lemma mounted_cycle (E : env) (device : string) (k : M unit) (pre : list event)
    (w w0 : world) (r : result unit) (w' : world) :
  trace w0 = trace w ++ pre -> Forall (fun e => ~ mounting e) pre ->
  released k ->
  (mount E device SOURCE_DIR;; k) w0 = (r, w') ->
  Mount device SOURCE_DIR 0 ∈ added w w' ->
  match r with
  | Ok _ => Umount SOURCE_DIR 0 ∈ added w w' /\ mounted w' = false
  | Raise e =>
      mounted w' = true /\
      (e = UmountError ->
       exists rc, rc <> 0 /\ Umount SOURCE_DIR rc ∈ added w w') /\
      (e <> UmountError -> forall d rc, Umount d rc ∉ added w w')
  end.
Proof.
  intros Hpre Hcalm Hk H Hmount.
  apply bind_inv in H as [([] & w1 & H1 & H2)|(e & H1 & ->)].
  - apply mount_inv in H1 as [(_ & Hrc & ->)|(rc & _ & [=] & _)].
    destruct (Hk _ _ _ H2) as (evs & Ht & Hr); [done|].
    simpl in Ht. rewrite Hpre, <- !app_assoc in Ht.
    rewrite (added_app _ _ _ Ht) in *.
    destruct r as [b|e].
    + destruct Hr as [Hin ?]. split; [|done].
      apply elem_of_app. right. apply elem_of_app. by right.
    + destruct Hr as (? & _ & Hu & Hn). split; [done|]. split.
      * intros He. destruct (Hu He) as (rc & ? & Hin). exists rc.
        split; [done|]. apply elem_of_app. right. apply elem_of_app. by right.
      * intros He d rc Hin. apply elem_of_app in Hin as [Hin|Hin].
        { rewrite Forall_forall in Hcalm. by apply Hcalm in Hin. }
        apply elem_of_app in Hin as [Hin|Hin]; [|by eapply Hn].
        apply elem_of_cons in Hin as [[=]|Hin].
        apply elem_of_cons in Hin as [[=]|Hin]. by apply elem_of_nil in Hin.
  - apply mount_inv in H1 as [([=] & _)|(rc & Hrc & _ & ->)].
    unfold added in Hmount. simpl in Hmount.
    rewrite Hpre, <- app_assoc, drop_app_length in Hmount.
    apply elem_of_app in Hmount as [Hin|Hin].
    { rewrite Forall_forall in Hcalm. by apply Hcalm in Hin. }
    apply elem_of_cons in Hin as [[= <-]|Hin]; [done|].
    apply elem_of_cons in Hin as [[=]|Hin]. by apply elem_of_nil in Hin.
Qed.

(** C1, as amended.  In a cycle that mounts the device, the copy cycle or
    the sweep, the unmount is attempted only when nothing between the mount
    and the unmount raises: a cycle that returns has unmounted; a cycle
    that ends with an exception other than that of the unmount itself has
    attempted no unmount, and leaves the mount point mounted. *)
Theorem unmount_needs_a_clean_cycle (E : env) (device : string) (config : config)
    (w : world) (r : result unit) (w' : world) :
  copy_new_files E device w = (r, w') \/
  check_and_delete_on_usb E device config w = (r, w') ->
  Mount device SOURCE_DIR 0 ∈ added w w' ->
  match r with
  | Ok _ => Umount SOURCE_DIR 0 ∈ added w w' /\ mounted w' = false
  | Raise e =>
      mounted w' = true /\
      (e = UmountError ->
       exists rc, rc <> 0 /\ Umount SOURCE_DIR rc ∈ added w w') /\
      (e <> UmountError -> forall d rc, Umount d rc ∉ added w w')
  end.
Proof.
  intros [H|H] Hmount.
  - rewrite copy_new_files_unfold in H. cbv zeta in H.
    destruct (last_modify_time w <? img_mtime E (length (trace w))).
    + eapply (mounted_cycle E device _ [Stat _]);
        [|repeat constructor; by intros []| |exact H|done]; [reflexivity|].
      apply released_copy.
    + injection H as <- <-. unfold added in Hmount. simpl in Hmount.
      rewrite drop_app_length in Hmount.
      apply elem_of_cons in Hmount as [[=]|Hin]. by apply elem_of_nil in Hin.
  - rewrite check_and_delete_on_usb_unfold in H.
    destruct (CopyCheckCycleTime config =? 0).
    { injection H as <- <-. unfold added in Hmount.
      rewrite drop_all in Hmount. by apply elem_of_nil in Hmount. }
    cbv zeta in H. destruct (gt_fraction _ _).
    + apply bind_inv in H as [([] & w1 & H1 & H2)|(e & [=] & _)].
      injection H1 as <-.
      eapply (mounted_cycle E device _ [Log _ _]);
        [|repeat constructor; by intros []| |exact H2|done]; [reflexivity|].
      apply released_sweep.
    + injection H as <- <-. unfold added in Hmount. simpl in Hmount.
      rewrite drop_all in Hmount. by apply elem_of_nil in Hmount.
Qed.

(** The specification's scenario, where nothing fails: the copy cycle
    mounts, and unmounts. *)
Lemma unmount_needs_a_clean_cycle_witness :
  let w' := (copy_new_files E_calm "loop0p1" w_idle).2 in
  (copy_new_files E_calm "loop0p1" w_idle = (Ok tt, w') \/
   check_and_delete_on_usb E_calm "loop0p1" (every_minute 10) w_idle = (Ok tt, w')) /\
  Mount "loop0p1" SOURCE_DIR 0 ∈ added w_idle w' /\
  Umount SOURCE_DIR 0 ∈ added w_idle w' /\ mounted w' = false.
Proof.
  intros w'.
  assert (H1 : copy_new_files E_calm "loop0p1" w_idle = (Ok tt, w') \/
               check_and_delete_on_usb E_calm "loop0p1" (every_minute 10) w_idle
                 = (Ok tt, w')).
  { left. vm_compute. reflexivity. }
  assert (H2 : Mount "loop0p1" SOURCE_DIR 0 ∈ added w_idle w').
  { vm_compute. repeat constructor. }
  split; [exact H1|]. split; [exact H2|].
  exact (unmount_needs_a_clean_cycle E_calm "loop0p1" (every_minute 10)
           w_idle (Ok tt) w' H1 H2).
Defined.

(** C1, the claim as it stands, fails: when the copy of a file raises, the
    exception leaves the cycle and the main loop, the handler at the top
    logs it, and no unmount has been attempted: the mount point stays
    mounted. *)
Lemma failed_copy_leaves_mounted :
  let w' := (main E_copy_fails "loop0p1" (every_minute 10) 3 w_idle).2 in
  Mount "loop0p1" SOURCE_DIR 0 ∈ trace w' /\
  Log ERROR (Traceback (OSError ["mnt"; "usb_share"; "sub"; "b.txt"]%string))
    ∈ trace w' /\
  (forall d rc, Umount d rc ∉ trace w') /\
  mounted w' = true.
Proof.
  vm_compute. split; [repeat constructor|]. split; [repeat constructor|].
  split; [|reflexivity].
  intros d rc Hin.
  repeat (apply elem_of_cons in Hin as [[=]|Hin]).
  by apply elem_of_nil in Hin.
Qed.

(** ** A copy that fails *)
Section Fails.
Context (E : env).

Lemma fails_bind_l {A B} (m : M A) (f : A -> M B) : fails m -> fails (bind m f).
Proof.
  intros Hm w. destruct (Hm w) as (e & w' & H). exists e, w'.
  unfold bind. by rewrite H.
Qed.

Lemma fails_bind_r {A B} (m : M A) (f : A -> M B) :
  (forall a, fails (f a)) -> fails (bind m f).
Proof.
  intros Hf w. unfold bind. destruct (m w) as [[a|e] w1].
  - apply Hf.
  - by exists e, w1.
Qed.

Lemma fails_copy_file base f dst :
  copy_fails E f = true ->
  fails (copy_file_with_directory_structure E base f dst).
Proof.
  intros Hf. unfold copy_file_with_directory_structure.
  destruct (relpath f base) as [rel|]; [|intros w; by eexists _, _].
  apply fails_bind_r. intros _. apply fails_bind_r. intros _.
  intros w. unfold shutil_copy2. rewrite Hf. by eexists _, _.
Qed.

Lemma fails_for {A} (l : list A) (body : A -> M unit) x :
  x ∈ l -> fails (body x) -> fails (for_ l body).
Proof.
  intros Hx Hb. induction Hx as [x l|x y l Hx IH]; simpl.
  - by apply fails_bind_l.
  - apply fails_bind_r. intros _. by apply IH.
Qed.

(** An exception out of the copy cycle leaves the watermark as it was. *)
Lemma copy_new_files_raise_keeps_watermark device w e w' :
  copy_new_files E device w = (Raise e, w') ->
  last_modify_time w' = last_modify_time w.
Proof.
  rewrite copy_new_files_unfold. cbv zeta.
  destruct (last_modify_time w <? img_mtime E (length (trace w))); [|done].
  intros H. apply bind_inv in H as [([] & w1 & H1 & H2)|(e' & H1 & _)].
  - apply mount_inv in H1 as [(_ & _ & ->)|(rc & _ & [=] & _)].
    destruct (released_copy E _ _ _ _ _ H2) as (evs & _ & _ & Hl & _); done.
  - by apply mount_inv in H1 as [([=] & _)|(rc & _ & _ & ->)].
Qed.

(** When the copy of one of the changed files fails, the cycle raises. *)
Lemma copy_new_files_fails device w root files f :
  last_modify_time w < img_mtime E (length (trace w)) ->
  source w = Some root ->
  scan SOURCE_DIR root (last_modify_time w) 2 = Some files ->
  f ∈ files -> copy_fails E f = true ->
  exists e w', copy_new_files E device w = (Raise e, w').
Proof.
  intros Htrig Hsrc Hscan Hf Hfail.
  rewrite copy_new_files_unfold. cbv zeta.
  apply Z.ltb_lt in Htrig. rewrite Htrig.
  unfold bind at 1.
  destruct (mount E device SOURCE_DIR _) as [[u|ex] wm] eqn:Hmount;
    [destruct u|by exists ex, wm].
  apply mount_inv in Hmount as [(_ & _ & ->)|(rc & _ & [=] & _)].
  unfold bind at 1. unfold scan_source at 1. simpl. rewrite Hsrc, Hscan.
  match goal with |- exists e w', ?k ?w0 = _ => assert (fails k) as Hk end; [|apply Hk].
  apply fails_bind_r. intros stale. apply fails_bind_r. intros _.
  apply fails_bind_r. intros _. apply fails_bind_l.
  eapply fails_for; [exact Hf|]. by apply fails_copy_file.
Qed.
End Fails.

(** C2, the claim as it stands, fails: after the failed copy there is no
    next poll tick.  The poller given three turns ends where the poller given
    one turn ends, having read the image's time twice: at the start and in
    the cycle that failed. *)
Lemma no_tick_after_failed_copy :
  let w1 := (main E_copy_fails "loop0p1" (every_minute 10) 1 w_idle).2 in
  let w3 := (main E_copy_fails "loop0p1" (every_minute 10) 3 w_idle).2 in
  w3 = w1 /\
  List.filter is_stat (trace w3) = [Stat 1000; Stat 2000] /\
  last (trace w3) =
    Some (Log ERROR (Traceback (OSError ["mnt"; "usb_share"; "sub"; "b.txt"]%string))).
Proof.
  vm_compute. done.
Qed.

(** ** A copy cycle that returns *)

(** The steps of a copy cycle that found the image modified and returned. *)
Lemma copy_new_files_ok (E : env) (device : string) (w w' : world) :
  copy_new_files E device w = (Ok tt, w') ->
  last_modify_time w < img_mtime E (length (trace w)) ->
  exists root files w3 w4 w5 t2,
    source w = Some root /\
    scan SOURCE_DIR root (last_modify_time w) 2 = Some files /\
    trace w3 =
      trace w ++
      [Stat (img_mtime E (length (trace w))); Mount device SOURCE_DIR 0; Sleep 500] ++
      (if isfile_in (local w) (COPYING_ACTIVE_FILE E)
       then [Log WARNING (AlreadyExistsRemoving (COPYING_ACTIVE_FILE E));
             Remove (COPYING_ACTIVE_FILE E)]
       else []) /\
    source w3 = source w /\
    touch (COPYING_ACTIVE_FILE E) w3 = (Ok tt, w4) /\
    for_ files
      (fun file =>
         copy_file_with_directory_structure E SOURCE_DIR file
           (DESTINATION_BASE_DIR E ++ [str (img_mtime E (length (trace w)))]))
      w4 = (Ok tt, w5) /\
    local w' = (if isfile_in (local w5) (COPYING_ACTIVE_FILE E)
                then delete (COPYING_ACTIVE_FILE E) (local w5) else local w5) /\
    trace w' =
      trace w5 ++
      (if isfile_in (local w5) (COPYING_ACTIVE_FILE E)
       then [Remove (COPYING_ACTIVE_FILE E)] else []) ++
      [Umount SOURCE_DIR 0; Sleep 500; Stat t2] /\
    t2 = img_mtime E (length (trace w') - 1) /\
    last_modify_time w' = t2 /\
    mounted w' = false.
Proof.
  rewrite copy_new_files_unfold. cbv zeta. intros H Htrig.
  apply Z.ltb_lt in Htrig. rewrite Htrig in H.
  apply bind_ok in H as ([] & w2 & Hmount & H).
  apply mount_inv in Hmount as [(_ & _ & ->)|(rc & _ & [=] & _)].
  apply bind_ok in H as (files & w2 & Hscan & H).
  unfold scan_source in Hscan. simpl in Hscan.
  destruct (source w) as [root|] eqn:Hsrc; [|done].
  destruct (scan SOURCE_DIR root (last_modify_time w) 2) as [files'|] eqn:Hfiles;
    [|done].
  injection Hscan as -> <-.
  apply bind_ok in H as (stale & w2 & Hstale & H).
  injection Hstale as <- <-. simpl in H.
  apply bind_ok in H as ([] & w3 & Hmarker & H).
  apply bind_ok in H as ([] & w4 & Htouch & H).
  apply bind_ok in H as ([] & w5 & Hloop & H).
  apply bind_ok in H as (present & w5' & Hpresent & H).
  injection Hpresent as <- <-.
  apply bind_ok in H as ([] & w6 & Hclear & H).
  apply bind_ok in H as ([] & w7 & Humount & H).
  apply umount_inv in Humount as [(_ & _ & ->)|(rc & _ & [=] & _)].
  unfold bind in H. rewrite os_stat_img_eq in H. injection H as <-.
  exists root, files, w3, w4, w5,
    (img_mtime E (length (trace w6 ++ [Umount SOURCE_DIR 0; Sleep 500]))).
  split; [done|]. split; [done|].
  assert (source w3 = Some root /\
          trace w3 =
            trace w ++
            [Stat (img_mtime E (length (trace w))); Mount device SOURCE_DIR 0;
             Sleep 500] ++
            (if isfile_in (local w) (COPYING_ACTIVE_FILE E)
             then [Log WARNING (AlreadyExistsRemoving (COPYING_ACTIVE_FILE E));
                   Remove (COPYING_ACTIVE_FILE E)]
             else [])) as [Hsrc3 Htr3].
  { destruct (isfile_in (local w) (COPYING_ACTIVE_FILE E)) eqn:Hstale.
    - unfold bind, logging, emit, os_remove in Hmarker. simpl in Hmarker.
      rewrite Hstale in Hmarker. injection Hmarker as <-. simpl.
      split; [done|]. by rewrite <- !app_assoc.
    - injection Hmarker as <-. simpl. split; [done|]. by rewrite <- !app_assoc. }
  split; [done|]. split; [done|]. split; [done|]. split; [done|].
  assert (local w6 = (if isfile_in (local w5) (COPYING_ACTIVE_FILE E)
                      then delete (COPYING_ACTIVE_FILE E) (local w5) else local w5) /\
          trace w6 = trace w5 ++
                     (if isfile_in (local w5) (COPYING_ACTIVE_FILE E)
                      then [Remove (COPYING_ACTIVE_FILE E)] else []))
    as [Hloc6 Htr6].
  { destruct (isfile_in (local w5) (COPYING_ACTIVE_FILE E)) eqn:Hpresent.
    - unfold os_remove in Hclear. rewrite Hpresent in Hclear.
      by injection Hclear as <-.
    - injection Hclear as <-. by rewrite app_nil_r. }
  simpl. split; [done|]. split; [by rewrite Htr6, <- !app_assoc|].
  split; [|done]. f_equal. rewrite (length_app (_ ++ _)). simpl. lia.
Qed.

Lemma calm_not_stat evs : Forall calm evs -> Forall (fun e => is_stat e = false) evs.
Proof.
  intros H. eapply Forall_impl; [exact H|]. by intros [].
Qed.

(** C7.  In a copy cycle that returns, the image's modification time is
    read twice: first of all, to see whether the image was modified, and
    last of all, after the unmount has succeeded and the pause that follows
    it.  The watermark becomes the answer to the second reading, which is
    the image's time at that later moment. *)
Theorem watermark_read_after_unmount (E : env) (device : string) (w w' : world) :
  copy_new_files E device w = (Ok tt, w') ->
  last_modify_time w < img_mtime E (length (trace w)) ->
  exists during t,
    added w w' =
      Stat (img_mtime E (length (trace w))) :: during ++
      [Umount SOURCE_DIR 0; Sleep 500; Stat t] /\
    Forall (fun e => is_stat e = false) during /\
    t = img_mtime E (length (trace w) + length during + 3) /\
    last_modify_time w' = t.
Proof.
  intros Hrun Htrig.
  destruct (copy_new_files_ok E device w w' Hrun Htrig)
    as (root & files & w3 & w4 & w5 & t2 & _ & _ & Ht3 & _ & Htouch & Hloop &
        _ & Ht' & Ht2 & Hl & _).
  destruct (quiet_touch _ _ _ _ Htouch) as ((evs4 & Ht4 & Hc4) & _).
  destruct (quiet_for _ _
              (fun x => quiet_copy_file_with_directory_structure E SOURCE_DIR x _)
              _ _ _ Hloop) as ((evs5 & Ht5 & Hc5) & _).
  set (stale := if isfile_in (local w) (COPYING_ACTIVE_FILE E)
                then [Log WARNING (AlreadyExistsRemoving (COPYING_ACTIVE_FILE E));
                      Remove (COPYING_ACTIVE_FILE E)]
                else []) in *.
  set (clear := if isfile_in (local w5) (COPYING_ACTIVE_FILE E)
                then [Remove (COPYING_ACTIVE_FILE E)] else []) in *.
  set (during := [Mount device SOURCE_DIR 0; Sleep 500] ++ stale ++ evs4 ++ evs5
                 ++ clear).
  assert (Htrace : trace w' =
            trace w ++ Stat (img_mtime E (length (trace w))) :: during ++
            [Umount SOURCE_DIR 0; Sleep 500; Stat t2]).
  { rewrite Ht', Ht5, Ht4, Ht3. unfold during.
    repeat (rewrite <- app_assoc; simpl). reflexivity. }
  exists during, t2. split; [by apply added_app|]. split.
  - assert (Hstale : Forall (fun e => is_stat e = false) stale).
    { unfold stale. destruct (isfile_in (local w) _); by repeat constructor. }
    assert (Hclear : Forall (fun e => is_stat e = false) clear).
    { unfold clear. destruct (isfile_in (local w5) _); by repeat constructor. }
    unfold during. simpl. do 2 (constructor; [done|]).
    repeat apply Forall_app_2; done || by apply calm_not_stat.
  - split; [|done]. rewrite Ht2, Htrace. f_equal.
    rewrite length_app. simpl. rewrite length_app. simpl. lia.
Qed.

(** The scenario of the specification.  The watermark becomes 2000. *)
Lemma watermark_read_after_unmount_witness :
  let w' := (copy_new_files E_calm "loop0p1" w_idle).2 in
  (copy_new_files E_calm "loop0p1" w_idle = (Ok tt, w') /\
   last_modify_time w_idle < img_mtime E_calm (length (trace w_idle))) /\
  exists during t,
    added w_idle w' =
      Stat 2000 :: during ++ [Umount SOURCE_DIR 0; Sleep 500; Stat t] /\
    Forall (fun e => is_stat e = false) during /\
    t = img_mtime E_calm (length (trace w_idle) + length during + 3) /\
    last_modify_time w' = t.
Proof.
  intros w'.
  assert (H1 : copy_new_files E_calm "loop0p1" w_idle = (Ok tt, w'))
    by (vm_compute; reflexivity).
  assert (H2 : last_modify_time w_idle < img_mtime E_calm (length (trace w_idle)))
    by (simpl; lia).
  split; [by split|].
  exact (watermark_read_after_unmount E_calm "loop0p1" w_idle w' H1 H2).
Defined.

(** When the image is written to during the copy, the watermark is the
    later of the two times read, not the one that named the batch. *)
Example watermark_moves_with_the_image :
  let w' := (copy_new_files E_busy "loop0p1" w_idle).2 in
  head (trace w') = Some (Stat 2000) /\
  last (trace w') = Some (Stat 2013) /\
  last_modify_time w' = 2013.
Proof. vm_compute. done. Qed.

(** ** Copying into the batch directory *)
Section Mirror.
Context (E : env) (root : node) (batch : path).

Lemma makedirs_from_keeps below : forall above fs fs1,
  makedirs_from above below fs = Some fs1 ->
  forall k v, fs !! k = Some v -> fs1 !! k = Some v.
Proof.
  induction below as [|name below IH]; intros above fs fs1; simpl.
  - by intros [= ->].
  - destruct (fs !! (above ++ [name])) as [[m data|]|] eqn:Hd; [done| |].
    + apply IH.
    + intros H k v Hk. eapply IH; [exact H|].
      rewrite lookup_insert_ne; [done|]. intros <-. congruence.
Qed.

Lemma makedirs_from_dirs below : forall above fs fs1,
  makedirs_from above below fs = Some fs1 ->
  forall j, (0 < j <= length below)%nat ->
            fs1 !! (above ++ take j below) = Some LDir.
Proof.
  induction below as [|name below IH]; intros above fs fs1 H j Hj; simpl in *;
    [lia|].
  destruct j as [|j]; [lia|]. simpl.
  assert (exists fs', makedirs_from (above ++ [name]) below fs' = Some fs1 /\
                      fs' !! (above ++ [name]) = Some LDir) as (fs' & H' & Hd).
  { destruct (fs !! (above ++ [name])) as [[m data|]|] eqn:Hd; [done| |].
    - by exists fs.
    - eexists. split; [exact H|]. by rewrite lookup_insert_eq. }
  destruct j as [|j].
  - rewrite take_0. eapply makedirs_from_keeps; [exact H'|done].
  - replace (above ++ name :: take (S j) below)
      with ((above ++ [name]) ++ take (S j) below) by (by rewrite <- app_assoc).
    eapply IH; [exact H'|]. simpl in Hj. lia.
Qed.

Lemma makedirs_isdir p fs fs1 :
  makedirs_from [] p fs = Some fs1 -> isdir_in fs1 p = true.
Proof.
  intros H. destruct p as [|x p]; [done|]. unfold isdir_in.
  pose proof (makedirs_from_dirs _ _ _ _ H (length (x :: p)) ltac:(simpl; lia))
    as Hd.
  rewrite firstn_all in Hd. simpl in Hd. by rewrite Hd.
Qed.

Lemma read_source_same (w1 w2 : world) p :
  source w1 = source w2 -> read_source w1 p = read_source w2 p.
Proof. unfold read_source. by intros ->. Qed.

(** One file copied. *)
Lemma copy_step p w w1 :
  copy_file_with_directory_structure E SOURCE_DIR p batch w = (Ok tt, w1) ->
  exists rel m c data fs1,
    p = SOURCE_DIR ++ rel /\
    read_source w p = Some (File m c data) /\
    makedirs_from [] (batch ++ dirname rel) (local w) = Some fs1 /\
    isdir_in fs1 (batch ++ dirname rel ++ [basename p]) = false /\
    local w1 = <[batch ++ dirname rel ++ [basename p] := LFile m data]> fs1 /\
    source w1 = source w.
Proof.
  unfold copy_file_with_directory_structure.
  destruct (relpath p SOURCE_DIR) as [rel|] eqn:Hrel; [|done].
  intros H. apply bind_ok in H as ([] & w2 & Hlog & H).
  injection Hlog as <-.
  apply bind_ok in H as ([] & w3 & Hmk & H).
  unfold os_makedirs in Hmk. simpl in Hmk.
  destruct (makedirs_from [] (batch ++ dirname rel) (local w)) as [fs1|] eqn:Hfs1;
    [|done].
  injection Hmk as <-.
  unfold shutil_copy2 in H. destruct (copy_fails E p); [done|].
  rewrite (read_source_same _ w) in H by done.
  destruct (read_source w p) as [[m c data|m es]|] eqn:Hread; [|done|done].
  cbn [local with_local with_trace] in H.
  rewrite (makedirs_isdir _ _ _ Hfs1) in H.
  rewrite <- app_assoc in H.
  destruct (isdir_in fs1 (batch ++ dirname rel ++ [basename p])) eqn:Hdir;
    [done|].
  destruct (negb _); [done|]. injection H as <-.
  exists rel, m, c, data, fs1.
  split; [by apply relpath_app|]. done.
Qed.

Lemma mirrored_step p rel w w1 :
  source w = Some root -> p = SOURCE_DIR ++ rel -> rel <> [] ->
  copy_file_with_directory_structure E SOURCE_DIR p batch w = (Ok tt, w1) ->
  source w1 = Some root /\
  mirrored root batch (local w1) rel /\
  forall rel0, rel0 <> [] ->
    mirrored root batch (local w) rel0 -> mirrored root batch (local w1) rel0.
Proof.
  intros Hsrc -> Hrel H.
  apply copy_step in H
    as (rel' & m & c & data & fs1 & Hp & Hread & Hmk & Hdir & Hloc & Hsrc1).
  apply app_inv_head in Hp as <-.
  unfold read_source in Hread. rewrite relpath_below, Hsrc in Hread.
  rewrite (dirname_basename SOURCE_DIR rel Hrel) in Hdir, Hloc.
  assert (Hdirs : forall k, fs1 !! k = Some LDir ->
                            local w1 !! k = Some LDir).
  { intros k Hk. rewrite Hloc, lookup_insert_ne; [done|].
    intros <-. unfold isdir_in in Hdir. rewrite Hk in Hdir.
    by destruct (batch ++ rel). }
  split; [congruence|]. split.
  - exists m, c, data. split; [done|]. split.
    + by rewrite Hloc, lookup_insert_eq.
    + intros j Hj. apply Hdirs.
      apply (makedirs_from_dirs _ _ _ _ Hmk j Hj).
  - intros rel0 Hrel0 (m0 & c0 & data0 & Hlook0 & Hfile0 & Hdirs0).
    exists m0, c0, data0. split; [done|]. split.
    + rewrite Hloc. destruct (decide (rel0 = rel)) as [->|Hne].
      * rewrite lookup_insert_eq. congruence.
      * rewrite lookup_insert_ne; [|by intros ?%app_inv_head].
        eapply makedirs_from_keeps; [exact Hmk|done].
    + intros j Hj. apply Hdirs.
      eapply makedirs_from_keeps; [exact Hmk|]. by apply Hdirs0.
Qed.

(** All files copied. *)
Lemma mirrored_loop files : forall w w5,
  source w = Some root ->
  (forall p, p ∈ files -> exists rel, p = SOURCE_DIR ++ rel /\ rel <> []) ->
  for_ files (fun file => copy_file_with_directory_structure E SOURCE_DIR file batch) w
    = (Ok tt, w5) ->
  source w5 = Some root /\
  (forall rel0, rel0 <> [] ->
     mirrored root batch (local w) rel0 -> mirrored root batch (local w5) rel0) /\
  (forall p, p ∈ files ->
     exists rel, p = SOURCE_DIR ++ rel /\ mirrored root batch (local w5) rel).
Proof.
  induction files as [|p files IH]; intros w w5 Hsrc Hbelow H; simpl in H.
  - injection H as <-. split; [done|]. split; [done|].
    intros p Hp. by apply elem_of_nil in Hp.
  - apply bind_ok in H as ([] & w1 & Hstep & H).
    destruct (Hbelow p) as (rel & Hp & Hrel); [by left|].
    destruct (mirrored_step p rel w w1 Hsrc Hp Hrel Hstep)
      as (Hsrc1 & Hnew & Hkeep).
    destruct (IH w1 w5 Hsrc1) as (Hsrc5 & Hkeep5 & Hall); [|done|].
    { intros q Hq. apply Hbelow. by right. }
    split; [done|]. split.
    + intros rel0 Hrel0 Hm. by apply Hkeep5, Hkeep.
    + intros q Hq. apply elem_of_cons in Hq as [->|Hq]; [|by apply Hall].
      exists rel. split; [done|]. by apply Hkeep5.
Qed.
End Mirror.

Lemma touch_source p w r w' : touch p w = (r, w') -> source w' = source w.
Proof.
  unfold touch.
  destruct (local w !! p); [|destruct (isdir_in (local w) (dirname p))];
    by intros [= <- <-].
Qed.

(** Clearing the marker takes nothing out of the batch. *)
Lemma mirrored_delete (root : node) (base : path) (name marker : string)
    (fs : gmap path lnode) (rel : path) :
  rel <> [] -> isfile_in fs (base ++ [marker]) = true ->
  mirrored root (base ++ [name]) fs rel ->
  mirrored root (base ++ [name]) (delete (base ++ [marker]) fs) rel.
Proof.
  intros Hrel Hfile (m & c & data & Hlook & Hf & Hdirs).
  unfold isfile_in in Hfile.
  destruct (fs !! (base ++ [marker])) as [[m' data'|]|] eqn:Hmarker; [|done|done].
  exists m, c, data. split; [done|]. split.
  - rewrite lookup_delete_ne; [done|]. intros Heq.
    apply (f_equal length) in Heq. rewrite !length_app in Heq. simpl in Heq.
    destruct rel; [done|]. simpl in Heq. lia.
  - intros j Hj. rewrite lookup_delete_ne; [by apply Hdirs|].
    intros Heq. specialize (Hdirs j Hj). rewrite <- Heq in Hdirs. congruence.
Qed.

(** C9.  In a copy cycle that returns, every file the change scan found,
    at the path [rel] below the source root, is found in the batch directory
    named by the image's modification time (the one read at the start of the
    cycle, as a decimal number) at the same path [rel], with the content and
    the modification time it has in the source, and with every directory on
    the way to it in place.  The watermark is the image's modification time
    as read at the end of the cycle. *)
Theorem batch_mirrors_changed_files (E : env) (device : string) (w w' : world)
    (root : node) (files : list path) :
  copy_new_files E device w = (Ok tt, w') ->
  last_modify_time w < img_mtime E (length (trace w)) ->
  source w = Some root ->
  scan SOURCE_DIR root (last_modify_time w) 2 = Some files ->
  (forall p, p ∈ files ->
     exists rel, p = SOURCE_DIR ++ rel /\
       mirrored root
         (DESTINATION_BASE_DIR E ++ [str (img_mtime E (length (trace w)))])
         (local w') rel) /\
  last_modify_time w' = img_mtime E (length (trace w') - 1).
Proof.
  intros Hrun Htrig Hsrc Hscan.
  destruct (copy_new_files_ok E device w w' Hrun Htrig)
    as (root' & files' & w3 & w4 & w5 & t2 & Hsrc' & Hscan' & _ & Hsrc3 & Htouch &
        Hloop & Hloc & _ & Ht2 & Hl & _).
  rewrite Hsrc in Hsrc'. injection Hsrc' as <-.
  rewrite Hscan in Hscan'. injection Hscan' as <-.
  split; [|congruence].
  apply touch_source in Htouch.
  destruct (mirrored_loop E root
              (DESTINATION_BASE_DIR E ++ [str (img_mtime E (length (trace w)))])
              files w4 w5) as (_ & _ & Hall);
    [congruence| |exact Hloop|].
  { intros p Hp. by eapply scan_below. }
  intros p Hp. destruct (Hall p Hp) as (rel & -> & Hm).
  exists rel. split; [done|]. rewrite Hloc.
  destruct (isfile_in (local w5) (COPYING_ACTIVE_FILE E)) eqn:Hfile; [|done].
  apply mirrored_delete; [|done..].
  destruct (scan_below _ _ _ _ _ _ Hscan Hp) as (rel' & Heq & Hrel').
  by apply app_inv_head in Heq as ->.
Qed.

(** The scenario of the specification: watermark 1000, image modified at
    2000, [a.txt] and [sub/b.txt] changed. *)
Lemma batch_mirrors_changed_files_witness :
  let w' := (copy_new_files E_calm "loop0p1" w_idle).2 in
  let files := [["mnt"; "usb_share"; "a.txt"];
                ["mnt"; "usb_share"; "sub"; "b.txt"]]%string in
  (copy_new_files E_calm "loop0p1" w_idle = (Ok tt, w') /\
   last_modify_time w_idle < img_mtime E_calm (length (trace w_idle)) /\
   source w_idle = Some usb_tree /\
   scan SOURCE_DIR usb_tree (last_modify_time w_idle) 2 = Some files) /\
  (forall p, p ∈ files ->
     exists rel, p = SOURCE_DIR ++ rel /\
       mirrored usb_tree ["home"; "pi"; "transfer"; "2000"]%string (local w') rel) /\
  last_modify_time w' = 2000.
Proof.
  intros w' files.
  assert (H1 : copy_new_files E_calm "loop0p1" w_idle = (Ok tt, w'))
    by (vm_compute; reflexivity).
  assert (H2 : last_modify_time w_idle < img_mtime E_calm (length (trace w_idle)))
    by (simpl; lia).
  assert (H3 : source w_idle = Some usb_tree) by reflexivity.
  assert (H4 : scan SOURCE_DIR usb_tree (last_modify_time w_idle) 2 = Some files)
    by reflexivity.
  split; [done|].
  exact (batch_mirrors_changed_files E_calm "loop0p1" w_idle w' usb_tree files
           H1 H2 H3 H4).
Defined.

(** The same scenario, computed: what the batch directory holds. *)
Example scenario_batch_2000 :
  let w' := (copy_new_files E_calm "loop0p1" w_idle).2 in
  local w' !! ["home"; "pi"; "transfer"; "2000"; "a.txt"]%string
    = Some (LFile 1500 "alpha") /\
  local w' !! ["home"; "pi"; "transfer"; "2000"; "sub"; "b.txt"]%string
    = Some (LFile 1800 "beta") /\
  local w' !! ["home"; "pi"; "transfer"; "2000"; "sub"]%string = Some LDir /\
  local w' !! ["home"; "pi"; "transfer"; "2000"; "old.txt"]%string = None /\
  local w' !! ["home"; "pi"; "transfer"; "copyingActive"]%string = None /\
  last_modify_time w' = 2000.
Proof. vm_compute. done. Qed.

(** The directories the scan descends into are the most recently modified
    ones: none of those left out is newer than one of those chosen. *)
Lemma chosen_most_recent (d : nat) (dir sub other : DirEntry) :
  sub ∈ take d (sort_desc st_mtime_of (List.filter is_dir (scandir dir))) ->
  other ∈ drop d (sort_desc st_mtime_of (List.filter is_dir (scandir dir))) ->
  st_mtime_of other <= st_mtime_of sub.
Proof.
  apply descending_take_drop, sort_desc_sorted.
Qed.

(** C4.  For every tree, watermark [t] and bound [d] the change scan
    returns, and what it returns are the paths of exactly those files that
    are in reach (directly in the root, or in reach within one of the [d]
    subdirectories first in the order of descending modification time, at
    every level) and whose later time stamp, of modification and of status
    change, is greater than [t].  With [d = 0] these are the files of the
    root alone.  The scan reads the tree and changes nothing: the world after
    it is the world before it. *)
Theorem change_scan_exact (root_path : path) (root : node) (t : Z) (d : nat) :
  exists l,
    scan root_path root t d = Some l /\
    (forall p, p ∈ l <->
       exists f, in_reach d {| de_path := root_path; de_node := root |} f /\
                 newer_than t f /\ de_path f = p) /\
    scan root_path root t 0 =
      Some (map de_path
              (List.filter (qualifies t)
                 (scandir {| de_path := root_path; de_node := root |}))) /\
    (forall w, scan_source root_path t d (with_source w (Some root))
               = (Ok l, with_source w (Some root))).
Proof.
  unfold scan.
  destruct (scan_in_reach t d (S (height root))
              {| de_path := root_path; de_node := root |}) as (l & Hl & Hmem);
    [simpl; lia|].
  exists l. split; [done|]. split; [done|]. split.
  - apply scan_depth_zero.
  - intros w. unfold scan_source, scan. cbn [source with_source]. by rewrite Hl.
Qed.

(** The tree of the specification's scenario, scanned from the watermark
    1000 with the poller's bound of two directories. *)
Lemma change_scan_exact_witness :
  exists l,
    scan SOURCE_DIR usb_tree 1000 2 = Some l /\
    l = [["mnt"; "usb_share"; "a.txt"]; ["mnt"; "usb_share"; "sub"; "b.txt"]]%string /\
    (forall p, p ∈ l <->
       exists f, in_reach 2 {| de_path := SOURCE_DIR; de_node := usb_tree |} f /\
                 newer_than 1000 f /\ de_path f = p).
Proof.
  destruct (change_scan_exact SOURCE_DIR usb_tree 1000 2) as (l & Hl & Hmem & _).
  exists l. split; [exact Hl|]. split; [|exact Hmem].
  assert (H : scan SOURCE_DIR usb_tree 1000 2 =
              Some [["mnt"; "usb_share"; "a.txt"];
                    ["mnt"; "usb_share"; "sub"; "b.txt"]]%string) by reflexivity.
  rewrite Hl in H. by injection H.
Defined.

(** ** The walk when no removal of a directory fails *)
Section WalkClean.
Context (E : env) (Hrmdir : forall p, rmdir_fails E p = false).

Lemma walk_entries_clean p es :
  Forall (fun e => forall q, clean_walk E q e.2) es ->
  exists evs,
    walk_entries p (get_all_file_entries_delete_empty_dirs E) es =
    (flat_map
       (fun e =>
          match e.2 with
          | File _ _ _ => [{| de_path := p ++ [e.1]; de_node := e.2 |}]
          | Dir _ _ => all_files (p ++ [e.1]) e.2
          end) es,
     flat_map
       (fun e =>
          match e.2 with
          | File _ _ _ => [e]
          | Dir _ _ =>
              match prune e.2 with
              | Some child => [(e.1, child)]
              | None => []
              end
          end) es,
     evs, None).
Proof.
  induction 1 as [|[name child] es Hchild _ (evs & IH)]; simpl.
  - by eexists.
  - destruct child as [m c data|m sub]; simpl.
    + rewrite IH. by eexists.
    + destruct (Hchild (p ++ [name])) as (Hr & He & Hres). simpl in *.
      rewrite Hr, IH, He, Hres. by eexists.
Qed.

Lemma walk_clean n : forall p, clean_walk E p n.
Proof.
  induction n as [m c data|m es IH] using node_ind; intros p; [done|].
  unfold clean_walk. cbv zeta. rewrite walk_dir.
  destruct (walk_entries_clean p es IH) as (evs & ->).
  destruct es as [|e es]; simpl.
  - by rewrite Hrmdir.
  - done.
Qed.
End WalkClean.

(** ** The sweep when no removal fails *)
Section Sweep.
Context (E : env).
Context (Hrmdir : forall p, rmdir_fails E p = false).
Context (Hremove : forall p, remove_outcome E p = Removed).

Lemma mount_ok device d w :
  mount_rc E (length (trace w)) = 0 ->
  mount E device d w =
  (Ok tt, with_trace (with_mounted w true) (trace w ++ [Mount device d 0; Sleep 500])).
Proof.
  intros Hrc. unfold mount, bind, subprocess_mount, time_sleep, emit.
  rewrite Hrc. simpl. unfold with_trace, with_mounted. simpl.
  by rewrite <- app_assoc.
Qed.

(** The walk of the source: every file is collected and the pruned tree
    is left. *)
Lemma walk_source_clean w m es :
  source w = Some (Dir m es) ->
  exists evs,
    walk_source E SOURCE_DIR w =
    (Ok (all_files SOURCE_DIR (Dir m es)),
     with_trace (with_source w (prune (Dir m es))) (trace w ++ evs)).
Proof.
  intros Hsrc. unfold walk_source. rewrite Hsrc.
  destruct (walk_clean E Hrmdir (Dir m es) SOURCE_DIR) as (Hr & He & Hres).
  cbv zeta in *. rewrite Hr, He, Hres. by eexists.
Qed.

(** One file evicted. *)
Lemma delete_entry_removes sorted i f w tree :
  sorted !! i = Some f -> source w = Some tree -> wf tree = true ->
  f ∈ all_files SOURCE_DIR tree ->
  exists w' tree',
    delete_entry E sorted i w = (Ok tt, w') /\
    source w' = Some tree' /\ wf tree' = true /\
    all_files SOURCE_DIR tree ≡ₚ f :: all_files SOURCE_DIR tree' /\
    (forall rel0, lookup_node rel0 tree = None -> lookup_node rel0 tree' = None).
Proof.
  intros Hi Hsrc Hwf Hf.
  destruct (all_files_lookup tree Hwf SOURCE_DIR f Hf)
    as (rel & Hpath & Hrel & Hlook & Hfile).
  destruct f as [fpath fnode]. cbn [de_path de_node] in *. subst fpath.
  destruct fnode as [a b c|]; [|done].
  destruct (remove_file_spec rel tree a b c Hwf Hrel Hlook)
    as (tree' & Hrm & Hwf' & Hperm & Hnone).
  unfold delete_entry. rewrite Hi. cbn [de_path].
  unfold try_except, bind, os_remove_source.
  rewrite Hremove, (relpath_below SOURCE_DIR rel), Hsrc, Hrm.
  eexists _, tree'. split; [reflexivity|]. done.
Qed.

(** The oldest files evicted, one after the other. *)
Lemma evict_loop sorted n : forall j w tree,
  source w = Some tree -> wf tree = true ->
  all_files SOURCE_DIR tree ≡ₚ drop j sorted ->
  (j + n <= length sorted)%nat ->
  exists w' tree',
    for_ (seq j n) (delete_entry E sorted) w = (Ok tt, w') /\
    source w' = Some tree' /\ wf tree' = true /\
    all_files SOURCE_DIR tree' ≡ₚ drop (j + n) sorted /\
    (forall rel0, lookup_node rel0 tree = None -> lookup_node rel0 tree' = None).
Proof.
  induction n as [|n IH]; intros j w tree Hsrc Hwf Hperm Hlen; simpl.
  - exists w, tree. rewrite Nat.add_0_r. done.
  - destruct (lookup_lt_is_Some_2 sorted j) as [f Hf]; [lia|].
    rewrite (drop_S _ _ _ Hf) in Hperm.
    destruct (delete_entry_removes sorted j f w tree Hf Hsrc Hwf)
      as (w1 & tree1 & Hrun & Hsrc1 & Hwf1 & Hperm1 & Hnone1).
    { rewrite Hperm. by left. }
    destruct (IH (S j) w1 tree1 Hsrc1 Hwf1)
      as (w' & tree' & Hloop & Hsrc' & Hwf' & Hperm' & Hnone'); [|lia|].
    { rewrite Hperm1 in Hperm. by apply Permutation_cons_inv in Hperm. }
    exists w', tree'. unfold bind. rewrite Hrun, Hloop.
    replace (j + S n)%nat with (S j + n)%nat by lia.
    repeat split; try done. intros rel0 Hrel0. by apply Hnone', Hnone1.
Qed.
End Sweep.

(** The evictions of a sweep, after the walk has left the pruned tree. *)
Lemma evictions (E : env) (w : world) (root : node) (keep : Z) :
  (forall p, remove_outcome E p = Removed) ->
  wf root = true -> 0 <= keep -> source w = prune root ->
  exists w4,
    (if 0 <? Z.of_nat (length (all_files SOURCE_DIR root)) - keep then
       for_ (seq 0 (Z.to_nat (Z.of_nat (length (all_files SOURCE_DIR root)) - keep)))
         (delete_entry E (sort_asc st_mtime_of (all_files SOURCE_DIR root)))
     else pass) w = (Ok tt, w4) /\
    files_under SOURCE_DIR (source w4) ≡ₚ
      drop (Z.to_nat (Z.of_nat (length (all_files SOURCE_DIR root)) - keep))
        (sort_asc st_mtime_of (all_files SOURCE_DIR root)) /\
    (forall rel0, (prune root ≫= lookup_node rel0) = None ->
                  (source w4 ≫= lookup_node rel0) = None).
Proof.
  intros Hremove Hwf Hkeep Hsrc.
  pose proof (prune_files root SOURCE_DIR) as Hfiles.
  pose proof (sort_asc_perm st_mtime_of (all_files SOURCE_DIR root)) as Hsort.
  destruct (0 <? Z.of_nat (length (all_files SOURCE_DIR root)) - keep) eqn:Hdiff.
  - apply Z.ltb_lt in Hdiff.
    destruct (prune root) as [tree|] eqn:Hprune.
    2:{ simpl in Hfiles. rewrite <- Hfiles in Hdiff. simpl in Hdiff. lia. }
    destruct (evict_loop E Hremove (sort_asc st_mtime_of (all_files SOURCE_DIR root))
                (Z.to_nat (Z.of_nat (length (all_files SOURCE_DIR root)) - keep))
                0 w tree Hsrc) as (w4 & tree' & Hloop & Hsrc4 & _ & Hperm & Hnone).
    + by eapply prune_wf.
    + simpl in Hfiles. by rewrite drop_0, Hsort, Hfiles.
    + rewrite (Permutation_length Hsort). lia.
    + exists w4. split; [done|]. rewrite Hsrc4. split; [done|].
      simpl. intros rel0. apply Hnone.
  - apply Z.ltb_ge in Hdiff. exists w. split; [done|].
    replace (Z.to_nat _) with 0%nat by lia. rewrite drop_0, Hsrc, Hfiles.
    split; [by rewrite Hsort|done].
Qed.

(** C3, as amended.  A sweep that is due, on a tree in which no directory
    lists a name twice, with a ceiling that is not negative, and in which
    every removal succeeds: the files evicted are as many as exceed the
    ceiling, so at most that many files remain; no file that remains is
    older than a file evicted; and no directory that was without entries
    before the sweep is there after it.  (A directory that the sweep itself
    empties stays.) *)
Theorem sweep_evicts_the_oldest (E : env) (device : string) (config : config)
    (w : world) (m : Z) (es : list (string * node)) :
  (forall p, rmdir_fails E p = false) ->
  (forall p, remove_outcome E p = Removed) ->
  CopyCheckCycleTime config <> 0 ->
  gt_fraction (cycle_counter w + 1)
    (DeleteOnUSBCycleTime config, CopyCheckCycleTime config) = true ->
  mount_rc E (S (length (trace w))) = 0 ->
  source w = Some (Dir m es) -> wf (Dir m es) = true ->
  0 <= KeepMaxFilesOnUSB config ->
  exists r w' evicted,
    check_and_delete_on_usb E device config w = (r, w') /\
    all_files SOURCE_DIR (Dir m es) ≡ₚ
      evicted ++ files_under SOURCE_DIR (source w') /\
    length evicted =
      Z.to_nat (Z.of_nat (length (all_files SOURCE_DIR (Dir m es)))
                - KeepMaxFilesOnUSB config) /\
    Z.of_nat (length (files_under SOURCE_DIR (source w')))
      <= KeepMaxFilesOnUSB config /\
    (forall f g, f ∈ evicted -> g ∈ files_under SOURCE_DIR (source w') ->
                 st_mtime_of f <= st_mtime_of g) /\
    (forall rel m', lookup_node rel (Dir m es) = Some (Dir m' []) ->
                    (source w' ≫= lookup_node rel) = None).
Proof.
  intros Hrmdir Hremove HC Hdue Hmount Hsrc Hwf Hkeep.
  set (root := Dir m es) in *.
  set (sorted := sort_asc st_mtime_of (all_files SOURCE_DIR root)).
  set (k := Z.to_nat (Z.of_nat (length (all_files SOURCE_DIR root))
                      - KeepMaxFilesOnUSB config)).
  assert (Hfinal : forall w', 
    files_under SOURCE_DIR (source w') ≡ₚ drop k sorted ->
    (forall rel0, (prune root ≫= lookup_node rel0) = None ->
                  (source w' ≫= lookup_node rel0) = None) ->
    all_files SOURCE_DIR root ≡ₚ take k sorted ++ files_under SOURCE_DIR (source w') /\
    length (take k sorted) = k /\
    Z.of_nat (length (files_under SOURCE_DIR (source w')))
      <= KeepMaxFilesOnUSB config /\
    (forall f g, f ∈ take k sorted -> g ∈ files_under SOURCE_DIR (source w') ->
                 st_mtime_of f <= st_mtime_of g) /\
    (forall rel m', lookup_node rel root = Some (Dir m' []) ->
                    (source w' ≫= lookup_node rel) = None)).
  { intros w' Hperm Hnone.
    pose proof (sort_asc_perm st_mtime_of (all_files SOURCE_DIR root)) as Hsort.
    fold sorted in Hsort. pose proof (Permutation_length Hsort) as Hlen.
    split; [by rewrite Hperm, take_drop|].
    split; [rewrite length_take; lia|].
    split; [rewrite (Permutation_length Hperm), length_drop; lia|].
    split.
    - intros f g Hf Hg. rewrite Hperm in Hg.
      eapply ascending_take_drop; [apply sort_asc_sorted|done..].
    - intros rel m' Hlook. apply Hnone.
      rewrite (prune_lookup root Hwf rel), Hlook. done. }
  rewrite check_and_delete_on_usb_unfold.
  destruct (CopyCheckCycleTime config =? 0) eqn:HC0;
    [by apply Z.eqb_eq in HC0|].
  cbv zeta. rewrite Hdue.
  unfold bind at 1. cbn [logging emit].
  unfold bind at 1. rewrite mount_ok.
  2:{ cbn [trace with_trace with_cycle_counter]. rewrite length_app. simpl.
      by rewrite Nat.add_1_r. }
  unfold bind at 1.
  match goal with |- context [walk_source E SOURCE_DIR ?w2] =>
    destruct (walk_source_clean E Hrmdir w2 m es Hsrc) as (evs & Hwalk) end.
  rewrite Hwalk.
  unfold bind at 1. cbn [logging emit].
  unfold bind at 1.
  match goal with |- context [(if _ then _ else _) ?w3] =>
    destruct (evictions E w3 root (KeepMaxFilesOnUSB config) Hremove Hwf Hkeep)
      as (w4 & Hloop & Hperm & Hnone); [done|] end.
  unfold root in Hloop. rewrite Hloop.
  unfold bind at 1.
  destruct (umount E SOURCE_DIR w4) as [r5 w5] eqn:Humount.
  apply umount_inv in Humount as [(-> & _ & ->)|(rc & _ & -> & ->)].
  - eexists _, _, (take k sorted). split; [reflexivity|].
    by apply Hfinal.
  - eexists _, _, (take k sorted). split; [reflexivity|].
    by apply Hfinal.
Qed.

(** The tree of the specification's scenario holds three files; with a
    ceiling of one, the two oldest are evicted. *)
Lemma sweep_evicts_the_oldest_witness :
  ((forall p, rmdir_fails E_calm p = false) /\
   (forall p, remove_outcome E_calm p = Removed) /\
   CopyCheckCycleTime (every_check 1) <> 0 /\
   gt_fraction (cycle_counter w_idle + 1)
     (DeleteOnUSBCycleTime (every_check 1), CopyCheckCycleTime (every_check 1)) = true /\
   mount_rc E_calm (S (length (trace w_idle))) = 0 /\
   source w_idle = Some usb_tree /\ wf usb_tree = true /\
   0 <= KeepMaxFilesOnUSB (every_check 1)) /\
  exists r w' evicted,
    check_and_delete_on_usb E_calm "loop0p1" (every_check 1) w_idle = (r, w') /\
    all_files SOURCE_DIR usb_tree ≡ₚ
      evicted ++ files_under SOURCE_DIR (source w') /\
    length evicted = 2%nat /\
    Z.of_nat (length (files_under SOURCE_DIR (source w'))) <= 1.
Proof.
  assert (H1 : forall p, rmdir_fails E_calm p = false) by reflexivity.
  assert (H2 : forall p, remove_outcome E_calm p = Removed) by reflexivity.
  assert (H3 : CopyCheckCycleTime (every_check 1) <> 0) by (simpl; lia).
  assert (H4 : gt_fraction (cycle_counter w_idle + 1)
                 (DeleteOnUSBCycleTime (every_check 1),
                  CopyCheckCycleTime (every_check 1)) = true) by reflexivity.
  assert (H5 : mount_rc E_calm (S (length (trace w_idle))) = 0) by reflexivity.
  assert (H6 : source w_idle = Some usb_tree) by reflexivity.
  assert (H7 : wf usb_tree = true) by (vm_compute; reflexivity).
  assert (H8 : 0 <= KeepMaxFilesOnUSB (every_check 1)) by (simpl; lia).
  split; [repeat split; assumption|].
  destruct (sweep_evicts_the_oldest E_calm "loop0p1" (every_check 1) w_idle _ _
              H1 H2 H3 H4 H5 H6 H7 H8)
    as (r & w' & evicted & Hrun & Hperm & Hlen & Hcount & _).
  exists r, w', evicted. split; [exact Hrun|]. split; [exact Hperm|].
  split; [exact Hlen|exact Hcount].
Defined.

(** The same sweep, computed: [old.txt] and [a.txt] are gone. *)
Example scenario_sweep :
  source (check_and_delete_on_usb E_calm "loop0p1" (every_check 1) w_idle).2 =
  Some (Dir 1800 [("sub", Dir 1800 [("b.txt", File 1800 1800 "beta")])]%string).
Proof. reflexivity. Qed.

(** C3, the claim as it stands, fails: directories that the sweep itself
    empties remain.  With a ceiling of zero, [a], whose only entry was an
    empty directory, and [d], whose only entry was a file, are both there
    after the sweep, without entries. *)
Lemma emptied_directories_remain :
  let w' := (check_and_delete_on_usb E_calm "loop0p1" (every_check 0) w_nested).2 in
  (check_and_delete_on_usb E_calm "loop0p1" (every_check 0) w_nested).1 = Ok tt /\
  files_under SOURCE_DIR (source w') = [] /\
  (source w' ≫= lookup_node ["a"%string]) = Some (Dir 4 []) /\
  (source w' ≫= lookup_node ["d"%string]) = Some (Dir 2 []).
Proof. vm_compute. done. Qed.

(** C10.  The walk of a directory that has no entries makes two calls: it
    logs the deletion and removes the directory it was started on, the root
    of the traversal itself; unless that removal fails, the directory is
    gone.  In the poller the walk is started on the mount point: a sweep of
    an empty partition, once it has mounted, goes on to remove the
    directory of the mount point, and when that removal is refused the
    exception ends the sweep with the partition mounted. *)
Theorem empty_root_is_removed (E : env) (start_dir : path) (m : Z) :
  get_all_file_entries_delete_empty_dirs E start_dir (Dir m []) =
    {| entries := [];
       residual := if rmdir_fails E start_dir then Some (Dir m []) else None;
       events := [Log INFO (DeletingEmptyDirectory start_dir); Rmdir start_dir];
       raised := if rmdir_fails E start_dir
                 then Some (OSError start_dir) else None |} /\
  forall device config w,
    CopyCheckCycleTime config <> 0 ->
    gt_fraction (cycle_counter w + 1)
      (DeleteOnUSBCycleTime config, CopyCheckCycleTime config) = true ->
    mount_rc E (S (length (trace w))) = 0 ->
    source w = Some (Dir m []) ->
    exists r w' rest,
      check_and_delete_on_usb E device config w = (r, w') /\
      added w w' =
        [Log INFO (PerformUsbDeletionCheck (cycle_counter w + 1));
         Mount device SOURCE_DIR 0; Sleep 500;
         Log INFO (DeletingEmptyDirectory SOURCE_DIR); Rmdir SOURCE_DIR] ++ rest /\
      (rmdir_fails E SOURCE_DIR = false -> source w' = None) /\
      (rmdir_fails E SOURCE_DIR = true ->
       r = Raise (OSError SOURCE_DIR) /\ rest = [] /\ mounted w' = true).
Proof.
  split.
  { rewrite walk_dir. simpl. by destruct (rmdir_fails E start_dir). }
  intros device config w HC Hdue Hmount Hsrc.
  rewrite check_and_delete_on_usb_unfold.
  destruct (CopyCheckCycleTime config =? 0) eqn:HC0;
    [by apply Z.eqb_eq in HC0|].
  cbv zeta. rewrite Hdue.
  unfold bind at 1. cbn [logging emit].
  unfold bind at 1. rewrite mount_ok.
  2:{ cbn [trace with_trace with_cycle_counter]. rewrite length_app. simpl.
      by rewrite Nat.add_1_r. }
  unfold bind at 1. unfold walk_source.
  cbn [source with_trace with_mounted with_cycle_counter]. rewrite Hsrc.
  rewrite walk_dir. cbn [walk_entries length Nat.eqb].
  destruct (rmdir_fails E SOURCE_DIR) eqn:Hfail; cbn [raised residual entries events].
  - eexists _, _, []. split; [reflexivity|]. split.
    + apply added_app. cbn [trace with_trace with_source with_mounted
                              with_cycle_counter].
      repeat (rewrite <- app_assoc; simpl). reflexivity.
    + split; [done|]. done.
  - unfold bind at 1. cbn [logging emit length].
    unfold bind at 1.
    match goal with |- context [(if ?c then _ else _) ?w3] =>
      assert (exists r4 w4 evs4,
                (if c then
                   for_ (seq 0 (Z.to_nat (Z.of_nat 0 - KeepMaxFilesOnUSB config)))
                     (delete_entry E (sort_asc st_mtime_of []))
                 else pass) w3 = (r4, w4) /\
                trace w4 = trace w3 ++ evs4 /\ source w4 = source w3)
        as (r4 & w4 & evs4 & Hloop & Ht4 & Hs4) end.
    { destruct (0 <? Z.of_nat 0 - KeepMaxFilesOnUSB config) eqn:Hk.
      - apply Z.ltb_lt in Hk.
        destruct (Z.to_nat (Z.of_nat 0 - KeepMaxFilesOnUSB config)) as [|k] eqn:Hn;
          [lia|].
        eexists _, _, []. split; [reflexivity|]. by rewrite app_nil_r.
      - eexists _, _, []. split; [reflexivity|]. by rewrite app_nil_r. }
    rewrite Hloop.
    destruct r4 as [[]|e4].
    + unfold bind at 1.
      destruct (umount E SOURCE_DIR w4) as [r5 w5] eqn:Humount.
      apply umount_inv in Humount as [(-> & _ & ->)|(rc & _ & -> & ->)].
      * eexists _, _, _. split; [reflexivity|]. split.
        -- apply added_app. cbn [modify trace with_trace with_source with_mounted
                                   with_cycle_counter]. rewrite Ht4.
           cbn [trace with_trace with_source with_mounted with_cycle_counter].
           repeat (rewrite <- app_assoc; simpl). reflexivity.
        -- split; [|done]. intros _. simpl. by rewrite Hs4.
      * eexists _, _, _. split; [reflexivity|]. split.
        -- apply added_app. cbn [trace with_trace with_source with_mounted
                                   with_cycle_counter]. rewrite Ht4.
           cbn [trace with_trace with_source with_mounted with_cycle_counter].
           repeat (rewrite <- app_assoc; simpl). reflexivity.
        -- split; [|done]. intros _. simpl. by rewrite Hs4.
    + eexists _, _, _. split; [reflexivity|]. split.
      * apply added_app. rewrite Ht4.
        cbn [trace with_trace with_source with_mounted with_cycle_counter].
        repeat (rewrite <- app_assoc; simpl). reflexivity.
      * split; [|done]. intros _. by rewrite Hs4.
Qed.

(** A sweep of an empty partition: the mount point itself is removed. *)
Lemma empty_root_is_removed_witness :
  (CopyCheckCycleTime (every_check 10) <> 0 /\
   gt_fraction (cycle_counter w_empty + 1)
     (DeleteOnUSBCycleTime (every_check 10), CopyCheckCycleTime (every_check 10))
     = true /\
   mount_rc E_calm (S (length (trace w_empty))) = 0 /\
   source w_empty = Some (Dir 7 [])) /\
  exists r w' rest,
    check_and_delete_on_usb E_calm "loop0p1" (every_check 10) w_empty = (r, w') /\
    added w_empty w' =
      [Log INFO (PerformUsbDeletionCheck 1);
       Mount "loop0p1" SOURCE_DIR 0; Sleep 500;
       Log INFO (DeletingEmptyDirectory SOURCE_DIR); Rmdir SOURCE_DIR] ++ rest /\
    source w' = None.
Proof.
  assert (H1 : CopyCheckCycleTime (every_check 10) <> 0) by (simpl; lia).
  assert (H2 : gt_fraction (cycle_counter w_empty + 1)
                 (DeleteOnUSBCycleTime (every_check 10),
                  CopyCheckCycleTime (every_check 10)) = true) by reflexivity.
  assert (H3 : mount_rc E_calm (S (length (trace w_empty))) = 0) by reflexivity.
  assert (H4 : source w_empty = Some (Dir 7 [])) by reflexivity.
  split; [repeat split; assumption|].
  destruct (empty_root_is_removed E_calm SOURCE_DIR 7) as [_ Hsweep].
  destruct (Hsweep "loop0p1" (every_check 10) w_empty H1 H2 H3 H4)
    as (r & w' & rest & Hrun & Hadded & Hgone & _).
  exists r, w', rest. split; [exact Hrun|]. split; [exact Hadded|].
  apply Hgone. reflexivity.
Defined.

(** ** Steady steps *)
Section Steady.
Context (P : event -> Prop) (R : world -> world -> Prop).
Context (R_refl : forall w, R w w).
Context (R_trans : forall a b c, R a b -> R b c -> R a c).

Lemma steady_here {A} (w : world) (r : result A) (w' : world) evs :
  trace w' = trace w ++ evs -> Forall P evs -> R w w' ->
  (exists evs, trace w' = trace w ++ evs /\ Forall P evs) /\ R w w'.
Proof. intros. split; [by exists evs|done]. Qed.

Lemma steady_ret {A} (a : A) : steady P R (ret a).
Proof.
  intros w r w' [= <- <-]. apply (steady_here _ (Ok a) _ []); [|constructor|done].
  by rewrite app_nil_r.
Qed.

Lemma steady_raise {A} (e : exn) : steady P R (@raise A e).
Proof.
  intros w r w' [= <- <-]. apply (steady_here _ (@Raise A e) _ []); [|constructor|done].
  by rewrite app_nil_r.
Qed.

Lemma steady_get {A} (f : world -> A) : steady P R (get f).
Proof.
  intros w r w' [= <- <-]. apply (steady_here _ (Ok tt) _ []); [|constructor|done].
  by rewrite app_nil_r.
Qed.

Lemma steady_bind {A B} (m : M A) (f : A -> M B) :
  steady P R m -> (forall a, steady P R (f a)) -> steady P R (bind m f).
Proof.
  intros Hm Hf w r w' H.
  apply bind_inv in H as [(a & w1 & H1 & H2)|(e & H1 & ->)].
  - destruct (Hm _ _ _ H1) as ((evs1 & Ht1 & Hc1) & HR1).
    destruct (Hf a _ _ _ H2) as ((evs2 & Ht2 & Hc2) & HR2).
    apply (steady_here _ r _ (evs1 ++ evs2)); [|by apply Forall_app|by eapply R_trans].
    by rewrite Ht2, Ht1, app_assoc.
  - destruct (Hm _ _ _ H1) as ((evs1 & Ht1 & Hc1) & HR1).
    by apply (steady_here _ (@Raise B e) _ evs1).
Qed.

(** The same when the rest is steady for the values the first step can
    return. *)
Lemma steady_bind_with {A B} (Q : A -> Prop) (m : M A) (f : A -> M B) :
  steady P R m -> (forall w a w', m w = (Ok a, w') -> Q a) ->
  (forall a, Q a -> steady P R (f a)) -> steady P R (bind m f).
Proof.
  intros Hm HQ Hf w r w' H.
  apply bind_inv in H as [(a & w1 & H1 & H2)|(e & H1 & ->)].
  - destruct (Hm _ _ _ H1) as ((evs1 & Ht1 & Hc1) & HR1).
    destruct (Hf a (HQ _ _ _ H1) _ _ _ H2) as ((evs2 & Ht2 & Hc2) & HR2).
    apply (steady_here _ r _ (evs1 ++ evs2)); [|by apply Forall_app|by eapply R_trans].
    by rewrite Ht2, Ht1, app_assoc.
  - destruct (Hm _ _ _ H1) as ((evs1 & Ht1 & Hc1) & HR1).
    by apply (steady_here _ (@Raise B e) _ evs1).
Qed.

Lemma steady_if {A} (b : bool) (m1 m2 : M A) :
  steady P R m1 -> steady P R m2 -> steady P R (if b then m1 else m2).
Proof. by destruct b. Qed.

Lemma steady_for {A} (l : list A) (body : A -> M unit) :
  (forall x, x ∈ l -> steady P R (body x)) -> steady P R (for_ l body).
Proof.
  induction l as [|x l IH]; intros Hb; simpl.
  - apply steady_ret.
  - apply steady_bind; [apply Hb; by left|intros _].
    apply IH. intros y Hy. apply Hb. by right.
Qed.

Lemma steady_try_except {A} (m : M A) (h : exn -> M A) :
  steady P R m -> (forall e, steady P R (h e)) -> steady P R (try_except m h).
Proof.
  intros Hm Hh w r w' H. unfold try_except in H.
  destruct (m w) as [[a|e] w1] eqn:H1.
  - injection H as <- <-. exact (Hm _ _ _ H1).
  - destruct (Hm _ _ _ H1) as ((evs1 & Ht1 & Hc1) & HR1).
    destruct (Hh e _ _ _ H) as ((evs2 & Ht2 & Hc2) & HR2).
    apply (steady_here _ r _ (evs1 ++ evs2)); [|by apply Forall_app|by eapply R_trans].
    by rewrite Ht2, Ht1, app_assoc.
Qed.
End Steady.

(** ** What a copy cycle touches *)
Section CopyFrame.
Context (E : env) (batch : path).

Lemma copy_frame_refl w : copy_frame E batch w w.
Proof. by repeat split. Qed.

Lemma copy_frame_trans a b c :
  copy_frame E batch a b -> copy_frame E batch b c -> copy_frame E batch a c.
Proof.
  intros (Hs1 & Hc1 & Hl1) (Hs2 & Hc2 & Hl2).
  split; [congruence|]. split; [congruence|].
  intros k v Hk Hb Hv. by apply Hl2, Hl1.
Qed.

Lemma copy_steady_emit e : copy_event E batch e -> steady (copy_event E batch) (copy_frame E batch) (emit e).
Proof.
  intros He w r w' [= <- <-].
  apply (steady_here _ _ _ (Ok tt) _ [e]); [done|by constructor|by repeat split].
Qed.

Lemma copy_steady_stat_modify :
  steady (copy_event E batch) (copy_frame E batch) (t ← os_stat_img E; modify (fun w => with_last_modify_time w t)).
Proof.
  intros w r w' [= <- <-].
  apply (steady_here _ _ _ (Ok 0) _ [Stat (img_mtime E (length (trace w)))]);
    [done|by repeat constructor|by repeat split].
Qed.

Lemma copy_steady_mount device d : steady (copy_event E batch) (copy_frame E batch) (mount E device d).
Proof.
  intros w r w' H.
  apply mount_inv in H as [(-> & _ & ->)|(rc & _ & -> & ->)].
  - apply (steady_here _ _ _ (Ok tt) _ [Mount device d 0; Sleep 500]);
      [done|by repeat constructor|by repeat split].
  - apply (steady_here _ _ _ (Ok tt) _
             [Mount device d rc; Log ERROR (FailedToMount device d)]);
      [done|by repeat constructor|by repeat split].
Qed.

Lemma copy_steady_umount d : steady (copy_event E batch) (copy_frame E batch) (umount E d).
Proof.
  intros w r w' H.
  apply umount_inv in H as [(-> & _ & ->)|(rc & _ & -> & ->)].
  - apply (steady_here _ _ _ (Ok tt) _ [Umount d 0; Sleep 500]);
      [done|by repeat constructor|by repeat split].
  - apply (steady_here _ _ _ (Ok tt) _
             [Umount d rc; Log ERROR (FailedToUnmount d)]);
      [done|by repeat constructor|by repeat split].
Qed.

Lemma copy_steady_scan p t n : steady (copy_event E batch) (copy_frame E batch) (scan_source p t n).
Proof.
  intros w r w'. unfold scan_source.
  destruct (source w) as [root|]; [destruct (scan p root t n)|];
    intros [= <- <-];
    (apply (steady_here _ _ _ (Ok tt) _ []);
     [by rewrite app_nil_r|constructor|by repeat split]).
Qed.

Lemma copy_steady_isfile p : steady (copy_event E batch) (copy_frame E batch) (os_path_isfile p).
Proof.
  intros w r w' [= <- <-].
  apply (steady_here _ _ _ (Ok tt) _ []);
    [by rewrite app_nil_r|constructor|by repeat split].
Qed.

Lemma copy_steady_remove_marker : steady (copy_event E batch) (copy_frame E batch) (os_remove (COPYING_ACTIVE_FILE E)).
Proof.
  intros w r w'. unfold os_remove.
  destruct (isfile_in (local w) (COPYING_ACTIVE_FILE E)); intros [= <- <-];
    (apply (steady_here _ _ _ (Ok tt) _ [Remove (COPYING_ACTIVE_FILE E)]);
     [done|by repeat constructor|]); [|by repeat split].
  split; [done|]. split; [done|]. intros k v Hk _ Hv. simpl.
  by rewrite lookup_delete_ne.
Qed.

Lemma copy_steady_touch_marker : steady (copy_event E batch) (copy_frame E batch) (touch (COPYING_ACTIVE_FILE E)).
Proof.
  intros w r w'. unfold touch.
  destruct (local w !! COPYING_ACTIVE_FILE E);
    [|destruct (isdir_in (local w) (dirname (COPYING_ACTIVE_FILE E)))];
    intros [= <- <-];
    (apply (steady_here _ _ _ (Ok tt) _ [Touch (COPYING_ACTIVE_FILE E)]);
     [done|by repeat constructor|]); try by repeat split.
  split; [done|]. split; [done|]. intros k v Hk _ Hv. simpl.
  by rewrite lookup_insert_ne.
Qed.

Lemma copy_steady_makedirs rel : steady (copy_event E batch) (copy_frame E batch) (os_makedirs (batch ++ rel)).
Proof.
  intros w r w'. unfold os_makedirs.
  destruct (makedirs_from [] (batch ++ rel) (local w)) as [fs|] eqn:Hmk;
    intros [= <- <-];
    (apply (steady_here _ _ _ (Ok tt) _ [Makedirs (batch ++ rel)]);
     [done|repeat constructor; by exists rel|]); [|by repeat split].
  split; [done|]. split; [done|]. intros k v _ _ Hv. simpl.
  by eapply makedirs_from_keeps.
Qed.

Lemma copy_steady_copy2 rel1 rel2 :
  steady (copy_event E batch) (copy_frame E batch) (shutil_copy2 E (SOURCE_DIR ++ rel1) (batch ++ rel2)).
Proof.
  assert (Hev : Forall (copy_event E batch)
                  [Copy2 (SOURCE_DIR ++ rel1) (batch ++ rel2)]).
  { repeat constructor; [by exists rel1|by exists rel2]. }
  set (ev := Copy2 (SOURCE_DIR ++ rel1) (batch ++ rel2)) in *.
  intros w r w'. unfold shutil_copy2. fold ev.
  destruct (copy_fails E _).
  { intros [= <- <-]. by apply (steady_here _ _ _ (Ok tt) _ [ev]). }
  destruct (read_source w _) as [[m c data|m es]|].
  2,3: intros [= <- <-]; by apply (steady_here _ _ _ (Ok tt) _ [ev]).
  match goal with |- context [if ?b then _ else _] => destruct b end;
    intros [= <- <-];
    (apply (steady_here _ _ _ (Ok tt) _ [ev]); [done|done|]);
    [by repeat split|].
  split; [done|]. split; [done|]. intros k v _ Hk Hv. simpl.
  rewrite lookup_insert_ne; [done|]. intros <-. apply Hk.
  destruct (isdir_in (local w) (batch ++ rel2)).
  - rewrite <- app_assoc. by apply prefix_app_r.
  - by apply prefix_app_r.
Qed.

Lemma copy_steady_copy_file file :
  steady (copy_event E batch) (copy_frame E batch) (copy_file_with_directory_structure E SOURCE_DIR file batch).
Proof.
  unfold copy_file_with_directory_structure.
  destruct (relpath file SOURCE_DIR) as [rel|] eqn:Hrel;
    [|apply steady_raise; apply copy_frame_refl].
  apply relpath_app in Hrel as ->.
  apply steady_bind; [apply copy_frame_trans|by apply copy_steady_emit|intros _].
  apply steady_bind; [apply copy_frame_trans|apply copy_steady_makedirs|intros _].
  apply copy_steady_copy2.
Qed.

(** The cycle from the mount on. *)
Lemma copy_steady_cycle device watermark :
  steady (copy_event E batch) (copy_frame E batch)
    (mount E device SOURCE_DIR;;
     new_files ← scan_source SOURCE_DIR watermark 2;
     stale ← os_path_isfile (COPYING_ACTIVE_FILE E);
     (if stale then
        logging WARNING (AlreadyExistsRemoving (COPYING_ACTIVE_FILE E));;
        os_remove (COPYING_ACTIVE_FILE E)
      else pass);;
     touch (COPYING_ACTIVE_FILE E);;
     for_ new_files
       (fun file => copy_file_with_directory_structure E SOURCE_DIR file batch);;
     present ← os_path_isfile (COPYING_ACTIVE_FILE E);
     (if present then os_remove (COPYING_ACTIVE_FILE E) else pass);;
     umount E SOURCE_DIR;;
     t ← os_stat_img E;
     modify (fun w => with_last_modify_time w t)).
Proof.
  pose proof copy_frame_refl as Hrefl. pose proof copy_frame_trans as Htrans.
  apply steady_bind; [done|apply copy_steady_mount|intros _].
  apply steady_bind; [done|apply copy_steady_scan|intros new_files].
  apply steady_bind; [done|apply copy_steady_isfile|intros stale].
  apply steady_bind; [done| |intros _].
  { apply steady_if; [|by apply steady_ret].
    apply steady_bind; [done|by apply copy_steady_emit|intros _].
    apply copy_steady_remove_marker. }
  apply steady_bind; [done|apply copy_steady_touch_marker|intros _].
  apply steady_bind; [done| |intros _].
  { apply steady_for; [done..|]. intros f _. apply copy_steady_copy_file. }
  apply steady_bind; [done|apply copy_steady_isfile|intros present].
  apply steady_bind; [done| |intros _].
  { apply steady_if; [apply copy_steady_remove_marker|by apply steady_ret]. }
  apply steady_bind; [done|apply copy_steady_umount|intros _].
  apply copy_steady_stat_modify.
Qed.
End CopyFrame.

(** X1.  What a copy cycle touches.  Whatever its outcome, a copy cycle
    leaves the source tree and the sweep counter as they were; the marker is
    the only path it creates by touching or removes, and it removes no
    directory; every directory it makes and every destination it copies to
    lies in the batch directory named after the image's time read at the
    start of the cycle, and every file copied is read from below the mount
    point; and an entry of the local file system outside that batch
    directory, the marker apart, is left as it was. *)
Theorem copy_cycle_is_confined (E : env) (device : string) (w : world)
    (r : result unit) (w' : world) :
  copy_new_files E device w = (r, w') ->
  let batch := DESTINATION_BASE_DIR E ++ [str (img_mtime E (length (trace w)))] in
  Forall (copy_event E batch) (added w w') /\
  source w' = source w /\ cycle_counter w' = cycle_counter w /\
  forall k v, k <> COPYING_ACTIVE_FILE E -> ~ batch `prefix_of` k ->
              local w !! k = Some v -> local w' !! k = Some v.
Proof.
  intros H batch. rewrite copy_new_files_unfold in H. cbv zeta in H.
  destruct (last_modify_time w <? img_mtime E (length (trace w))).
  - destruct (copy_steady_cycle E batch device _ _ _ _ H)
      as ((evs & Ht & Hev) & Hs & Hc & Hl).
    simpl in Ht. rewrite <- app_assoc in Ht. rewrite (added_app _ _ _ Ht).
    split; [by constructor|done].
  - injection H as <- <-.
    rewrite (added_app _ _ [Stat (img_mtime E (length (trace w)))]) by done.
    split; [by repeat constructor|done].
Qed.

(** ** What a sweep touches *)
Section SweepFrame.
Context (E : env).

(** A path below [p ++ [name]] lies below [p]. *)
Lemma walk_event_child p name e : walk_event (p ++ [name]) e -> walk_event p e.
Proof.
  destruct e as [| | | |[] []| | | | |]; simpl; try done;
    intros [rel ->]; exists (name :: rel); by rewrite <- app_assoc.
Qed.

Lemma walk_entries_below p items :
  Forall (fun e => forall q,
            Forall (walk_event q)
              (events (get_all_file_entries_delete_empty_dirs E q e.2)) /\
            Forall (fun f => exists rel, de_path f = q ++ rel /\ rel <> [])
              (entries (get_all_file_entries_delete_empty_dirs E q e.2))) items ->
  Forall (walk_event p)
    (walk_entries p (get_all_file_entries_delete_empty_dirs E) items).1.2 /\
  Forall (fun f => exists rel, de_path f = p ++ rel /\ rel <> [])
    (walk_entries p (get_all_file_entries_delete_empty_dirs E) items).1.1.1.
Proof.
  induction 1 as [|item items Hitem _ IH]; simpl; [by split|].
  destruct item as [name [m c data|m es]]; simpl in *.
  - destruct (walk_entries p _ items) as [[[found kept] evs] ex]. simpl in *.
    destruct IH as [IH1 IH2]. split; [done|].
    constructor; [|done]. by exists [name].
  - destruct (Hitem (p ++ [name])) as [He Hf].
    assert (He' : Forall (walk_event p)
                    (events (get_all_file_entries_delete_empty_dirs E
                               (p ++ [name]) (Dir m es)))).
    { eapply Forall_impl; [exact He|]. intros e. apply walk_event_child. }
    assert (Hf' : Forall (fun f => exists rel, de_path f = p ++ rel /\ rel <> [])
                    (entries (get_all_file_entries_delete_empty_dirs E
                                (p ++ [name]) (Dir m es)))).
    { eapply Forall_impl; [exact Hf|]. intros f (rel & -> & _).
      exists (name :: rel). by rewrite <- app_assoc. }
    destruct (raised (get_all_file_entries_delete_empty_dirs E
                        (p ++ [name]) (Dir m es))) as [e|]; [by split|].
    destruct (walk_entries p _ items) as [[[found kept] evs] ex]. simpl in *.
    destruct IH as [IH1 IH2]. split; by apply Forall_app.
Qed.

(** The walk of the directory at [p] removes directories at or below [p]
    only, and the entries it collects lie below [p]. *)
Lemma walk_below n : forall p,
  Forall (walk_event p) (events (get_all_file_entries_delete_empty_dirs E p n)) /\
  Forall (fun f => exists rel, de_path f = p ++ rel /\ rel <> [])
    (entries (get_all_file_entries_delete_empty_dirs E p n)).
Proof.
  induction n as [m c data|m es IH] using node_ind; intros p.
  - split; simpl; constructor.
  - pose proof (walk_entries_below p es IH) as [He Hf].
    rewrite walk_dir.
    destruct (walk_entries p _ es) as [[[found kept] evs] ex]. simpl in *.
    assert (Hrm : Forall (walk_event p)
                    (evs ++ [Log INFO (DeletingEmptyDirectory p); Rmdir p])).
    { apply Forall_app. split; [done|].
      repeat constructor; exists []; by rewrite app_nil_r. }
    destruct ex as [e|]; [by split|].
    destruct (length es =? 0)%nat; [|by split].
    destruct (rmdir_fails E p); by split.
Qed.

Lemma sweep_frame_refl w : sweep_frame w w.
Proof. by split. Qed.

Lemma sweep_frame_trans a b c :
  sweep_frame a b -> sweep_frame b c -> sweep_frame a c.
Proof. intros [? ?] [? ?]. split; congruence. Qed.

Lemma sweep_steady_emit e : sweep_event e -> steady sweep_event sweep_frame (emit e).
Proof.
  intros He w r w' [= <- <-].
  apply (steady_here _ _ _ (Ok tt) _ [e]); [done|by constructor|by split].
Qed.

Lemma sweep_steady_mount device d : steady sweep_event sweep_frame (mount E device d).
Proof.
  intros w r w' H.
  apply mount_inv in H as [(-> & _ & ->)|(rc & _ & -> & ->)].
  - apply (steady_here _ _ _ (Ok tt) _ [Mount device d 0; Sleep 500]);
      [done|by repeat constructor|by split].
  - apply (steady_here _ _ _ (Ok tt) _
             [Mount device d rc; Log ERROR (FailedToMount device d)]);
      [done|by repeat constructor|by split].
Qed.

Lemma sweep_steady_umount_reset d :
  steady sweep_event sweep_frame (umount E d;; modify (fun w => with_cycle_counter w 0)).
Proof.
  intros w r w' H.
  apply bind_inv in H as [([] & w1 & H1 & H2)|(e & H1 & ->)].
  - apply umount_inv in H1 as [(_ & _ & ->)|(rc & _ & [=] & _)].
    injection H2 as <- <-.
    apply (steady_here _ _ _ (Ok tt) _ [Umount d 0; Sleep 500]);
      [done|by repeat constructor|by split].
  - apply umount_inv in H1 as [([=] & _)|(rc & _ & _ & ->)].
    apply (steady_here _ _ _ (Ok tt) _
             [Umount d rc; Log ERROR (FailedToUnmount d)]);
      [done|by repeat constructor|by split].
Qed.

Lemma sweep_steady_walk : steady sweep_event sweep_frame (walk_source E SOURCE_DIR).
Proof.
  intros w r w'. unfold walk_source.
  destruct (source w) as [root|].
  2:{ intros [= <- <-].
      apply (steady_here _ _ _ (Ok tt) _ []);
        [by rewrite app_nil_r|constructor|by split]. }
  destruct (walk_below root SOURCE_DIR) as [He _].
  assert (Hev : Forall sweep_event
                  (events (get_all_file_entries_delete_empty_dirs E SOURCE_DIR root))).
  { eapply Forall_impl; [exact He|]. by intros [| | | |[] []| | | | |]. }
  destruct (raised (get_all_file_entries_delete_empty_dirs E SOURCE_DIR root));
    intros [= <- <-];
    by apply (steady_here _ _ _ (Ok tt) _
                (events (get_all_file_entries_delete_empty_dirs E SOURCE_DIR root))).
Qed.

Lemma walk_source_below w file_entries w' :
  walk_source E SOURCE_DIR w = (Ok file_entries, w') ->
  Forall (fun f => exists rel, de_path f = SOURCE_DIR ++ rel /\ rel <> []) file_entries.
Proof.
  unfold walk_source. destruct (source w) as [root|]; [|done].
  destruct (walk_below root SOURCE_DIR) as [_ Hf].
  destruct (raised _); [done|]. by intros [= <- _].
Qed.

Lemma sweep_steady_remove rel : rel <> [] -> steady sweep_event sweep_frame (os_remove_source E (SOURCE_DIR ++ rel)).
Proof.
  intros Hrel w r w'. unfold os_remove_source.
  set (ev := Remove (SOURCE_DIR ++ rel)).
  assert (Hev : Forall sweep_event [ev]).
  { repeat constructor. by exists rel. }
  destruct (remove_outcome E _).
  - destruct (relpath _ SOURCE_DIR) as [rel'|], (source w) as [root|];
      [destruct (remove_file rel' root)|..];
      intros [= <- <-]; by apply (steady_here _ _ _ (Ok tt) _ [ev]).
  - intros [= <- <-]. by apply (steady_here _ _ _ (Ok tt) _ [ev]).
  - intros [= <- <-]. by apply (steady_here _ _ _ (Ok tt) _ [ev]).
Qed.

Lemma sweep_steady_delete_entry file_entries i :
  Forall (fun f => exists rel, de_path f = SOURCE_DIR ++ rel /\ rel <> []) file_entries ->
  steady sweep_event sweep_frame (delete_entry E file_entries i).
Proof.
  intros Hbelow. unfold delete_entry.
  destruct (file_entries !! i) as [f|] eqn:Hf;
    [|apply steady_raise, sweep_frame_refl].
  rewrite Forall_forall in Hbelow.
  destruct (Hbelow f) as (rel & -> & Hrel); [by eapply list_elem_of_lookup_2|].
  apply steady_try_except; [apply sweep_frame_trans| |].
  - apply steady_bind; [apply sweep_frame_trans|by apply sweep_steady_remove|intros _].
    by apply sweep_steady_emit.
  - intros e. destruct e; by apply sweep_steady_emit.
Qed.
End SweepFrame.

(** X2.  What a sweep touches.  Whatever its outcome, a sweep leaves the
    local file system and the watermark as they were; it never reads the
    image's time, and creates and copies nothing; every file it removes lies
    below the mount point, and every directory it removes is the mount point
    or lies below it. *)
Theorem sweep_is_confined (E : env) (device : string) (config : config)
    (w : world) (r : result unit) (w' : world) :
  check_and_delete_on_usb E device config w = (r, w') ->
  Forall sweep_event (added w w') /\
  local w' = local w /\ last_modify_time w' = last_modify_time w.
Proof.
  intros H. rewrite check_and_delete_on_usb_unfold in H.
  destruct (CopyCheckCycleTime config =? 0).
  { injection H as <- <-. unfold added. rewrite drop_all. by split. }
  cbv zeta in H. destruct (gt_fraction _ _).
  2:{ injection H as <- <-. unfold added. simpl. rewrite drop_all. by split. }
  pose proof sweep_frame_refl as Hrefl. pose proof sweep_frame_trans as Htrans.
  match type of H with ?k _ = _ => assert (Hk : steady sweep_event sweep_frame k) end.
  { apply steady_bind; [done|by apply sweep_steady_emit|intros _].
    apply steady_bind; [done|apply sweep_steady_mount|intros _].
    eapply steady_bind_with;
      [done|apply sweep_steady_walk|apply walk_source_below|].
    intros file_entries Hbelow. cbv zeta.
    apply steady_bind; [done|by apply sweep_steady_emit|intros _].
    apply steady_bind; [done| |intros _; apply sweep_steady_umount_reset].
    apply steady_if; [|by apply steady_ret].
    apply steady_for; [done..|]. intros i _.
    apply sweep_steady_delete_entry.
    rewrite (sort_asc_perm st_mtime_of file_entries). exact Hbelow. }
  destruct (Hk _ _ _ H) as ((evs & Ht & Hev) & Hl & Hw).
  simpl in Ht, Hl, Hw. by rewrite (added_app _ _ _ Ht).
Qed.

(** ** Turns of the main loop in which nothing is due *)

Lemma main_loop_idle (E : env) (device : string) (config : config) (n : nat) :
  forall w,
    0 < CopyCheckCycleTime config ->
    (forall i, (1 <= i <= n)%nat ->
       gt_fraction (cycle_counter w + Z.of_nat i)
         (DeleteOnUSBCycleTime config, CopyCheckCycleTime config) = false) ->
    (forall len, img_mtime E len <= last_modify_time w) ->
    main_loop E device config n w =
    (Ok tt,
     with_trace (with_cycle_counter w (cycle_counter w + Z.of_nat n))
       (trace w ++ idle_events E config (length (trace w)) n)).
Proof.
  induction n as [|n IH]; intros w HC Hdue Himg.
  - simpl. unfold pass, ret. destruct w. unfold with_trace, with_cycle_counter.
    simpl. rewrite app_nil_r. do 2 f_equal. lia.
  - cbn [main_loop]. unfold bind at 1. rewrite check_and_delete_on_usb_unfold.
    destruct (CopyCheckCycleTime config =? 0) eqn:HC0;
      [apply Z.eqb_eq in HC0; lia|].
    cbv zeta. pose proof (Hdue 1%nat ltac:(lia)) as Hdue1.
    change (Z.of_nat 1) with 1 in Hdue1. rewrite Hdue1.
    unfold bind at 1. rewrite copy_new_files_unfold. cbv zeta.
    cbn [last_modify_time trace with_cycle_counter].
    destruct (last_modify_time w <? img_mtime E (length (trace w))) eqn:Hnew.
    { apply Z.ltb_lt in Hnew. specialize (Himg (length (trace w))). lia. }
    unfold bind at 1. unfold time_sleep.
    destruct (1000 * CopyCheckCycleTime config <? 0) eqn:Hneg;
      [apply Z.ltb_lt in Hneg; lia|].
    unfold emit. rewrite IH; [| done | | done].
    + cbn [trace with_trace with_cycle_counter cycle_counter idle_events].
      unfold with_trace, with_cycle_counter. cbn. f_equal. f_equal.
      * rewrite !length_app. cbn [length].
        replace (length (trace w) + 1 + 1)%nat with (length (trace w) + 2)%nat by lia.
        by rewrite <- !app_assoc.
      * lia.
    + intros i Hi. cbn [cycle_counter with_trace with_cycle_counter].
      replace (cycle_counter w + 1 + Z.of_nat i)
        with (cycle_counter w + Z.of_nat (S i)) by lia.
      apply Hdue. lia.
Qed.

(** X3.  How often the sweep runs.  With a positive check time [C] and a
    sweep time [D] that is not negative, a poller whose counter is at zero
    and whose image is not modified spends the first [D / C] (rounded down)
    turns of its loop reading the image's time and sleeping, and nothing
    else: the counter goes up by one each turn and nothing is mounted.  With
    the counter at [D / C] the next check logs that the sweep is due and
    mounts the device.  So sweeps are [D / C + 1] turns apart. *)
Theorem sweep_comes_after_the_quotient (E : env) (device : string)
    (config : config) (w : world) :
  0 < CopyCheckCycleTime config -> 0 <= DeleteOnUSBCycleTime config ->
  cycle_counter w = 0 ->
  (forall len, img_mtime E len <= last_modify_time w) ->
  let k := Z.to_nat (DeleteOnUSBCycleTime config / CopyCheckCycleTime config) in
  (forall n, (n <= k)%nat ->
     main_loop E device config n w =
     (Ok tt,
      with_trace (with_cycle_counter w (Z.of_nat n))
        (trace w ++ idle_events E config (length (trace w)) n))) /\
  (forall w_k, cycle_counter w_k = Z.of_nat k ->
     exists rc rest,
       added w_k (check_and_delete_on_usb E device config w_k).2 =
       Log INFO (PerformUsbDeletionCheck (Z.of_nat k + 1))
       :: Mount device SOURCE_DIR rc :: rest).
Proof.
  intros HC HD Hc Himg k.
  pose proof (Z.div_pos _ _ HD HC) as Hq.
  pose proof (Z.mul_div_le (DeleteOnUSBCycleTime config) _ HC) as Hle.
  pose proof (Z.mul_succ_div_gt (DeleteOnUSBCycleTime config) _ HC) as Hgt.
  split.
  - intros n Hn. rewrite (main_loop_idle E device config n w HC); [|  |done].
    + by rewrite Hc.
    + intros i Hi. rewrite Hc. unfold gt_fraction. cbn [fst snd].
      apply Z.ltb_lt in HC as ->. apply Z.ltb_ge. nia.
  - intros w_k Hk. rewrite check_and_delete_on_usb_unfold.
    destruct (CopyCheckCycleTime config =? 0) eqn:HC0;
      [apply Z.eqb_eq in HC0; lia|].
    cbv zeta. rewrite Hk.
    assert (gt_fraction (Z.of_nat k + 1)
              (DeleteOnUSBCycleTime config, CopyCheckCycleTime config) = true) as ->.
    { unfold gt_fraction. cbn [fst snd]. apply Z.ltb_lt in HC as ->.
      apply Z.ltb_lt. unfold k. nia. }
    unfold bind at 1. cbn [logging emit].
    match goal with |- context [(bind ?m ?f) ?w1] =>
      destruct (bind m f w1) as [r w'] eqn:Hrun end.
    apply bind_inv in Hrun as [([] & w2 & H1 & H2)|(e & H1 & ->)].
    + apply mount_inv in H1 as [(_ & _ & ->)|(rc & _ & [=] & _)].
      destruct (released_sweep E config _ _ _ H2) as (evs & Ht & _); [done|].
      exists 0, ([Sleep 500] ++ evs). apply added_app. cbn [snd]. rewrite Ht.
      cbn [trace with_trace with_mounted with_cycle_counter].
      by rewrite <- !app_assoc.
    + apply mount_inv in H1 as [([=] & _)|(rc & _ & _ & ->)].
      exists rc, [Log ERROR (FailedToMount device SOURCE_DIR)].
      apply added_app. cbn [snd trace with_trace with_cycle_counter].
      by rewrite <- !app_assoc.
Qed.

(** X4.  A check time of zero.  The quotient of the two cycle times is
    taken first of all in a turn, so with [CopyCheckCycleTime] at zero the
    first turn raises the division error before the counter moves or
    anything is mounted; the handler around the loop logs it, which is the
    last thing the poller does, whatever the number of turns it was given. *)
Theorem zero_check_time_ends_the_poller (E : env) (device : string)
    (config : config) (ticks : nat) (w : world) :
  CopyCheckCycleTime config = 0 ->
  exists w',
    main E device config (S ticks) w = (Ok tt, w') /\
    last (trace w') = Some (Log ERROR (Traceback ZeroDivisionError)) /\
    (forall d p rc, Mount d p rc ∉ added w w') /\
    cycle_counter w' = cycle_counter w /\ mounted w' = mounted w /\
    source w' = source w /\ local w' = local w.
Proof.
  intros HC. unfold main. unfold bind at 1. rewrite os_stat_img_eq.
  unfold bind at 1. unfold modify at 1. unfold try_except.
  unfold bind at 1. cbn [logging emit main_loop]. unfold bind at 1.
  rewrite check_and_delete_on_usb_unfold, HC. cbn [Z.eqb].
  eexists. split; [reflexivity|].
  cbn [trace source mounted local cycle_counter last_modify_time
       with_trace with_last_modify_time].
  split; [by rewrite last_snoc|]. split; [|done].
  intros d p rc Hin.
  rewrite (added_app _ _
             [Stat (img_mtime E (length (trace w))); Log INFO Started;
              Log ERROR (Traceback ZeroDivisionError)]) in Hin
    by (cbn [trace]; by rewrite <- !app_assoc).
  repeat (apply elem_of_cons in Hin as [[=]|Hin]).
  by apply elem_of_nil in Hin.
Qed.

(** ** The deletion loop past the end of the list, and with removals refused *)

Lemma for_app {A} (l1 l2 : list A) (body : A -> M unit) : forall w,
  for_ (l1 ++ l2) body w = (for_ l1 body;; for_ l2 body) w.
Proof.
  induction l1 as [|x l1 IH]; intros w; simpl; [done|].
  unfold bind. destruct (body x w) as [[u|e] w1]; [|done].
  rewrite IH. reflexivity.
Qed.

(** With more turns than files, the loop evicts every file and then
    raises on the first index past the end. *)
Lemma evict_overrun (E : env) (w : world) (root : node) (extra : nat) :
  (forall p, remove_outcome E p = Removed) ->
  wf root = true -> source w = prune root ->
  exists w4,
    for_ (seq 0 (length (all_files SOURCE_DIR root) + S extra))
      (delete_entry E (sort_asc st_mtime_of (all_files SOURCE_DIR root))) w
    = (Raise IndexError, w4) /\
    files_under SOURCE_DIR (source w4) = [].
Proof.
  intros Hremove Hwf Hsrc.
  pose proof (prune_files root SOURCE_DIR) as Hfiles.
  pose proof (sort_asc_perm st_mtime_of (all_files SOURCE_DIR root)) as Hsort.
  pose proof (Permutation_length Hsort) as Hlen.
  set (sorted := sort_asc st_mtime_of (all_files SOURCE_DIR root)) in *.
  assert (Hpast : sorted !! length (all_files SOURCE_DIR root) = None).
  { apply lookup_ge_None. lia. }
  rewrite seq_app, for_app. unfold bind at 1.
  destruct (prune root) as [tree|] eqn:Hprune.
  - destruct (evict_loop E Hremove sorted (length (all_files SOURCE_DIR root))
                0 w tree Hsrc) as (w4 & tree' & Hloop & Hsrc4 & _ & Hperm & _).
    + by eapply prune_wf.
    + simpl in Hfiles. by rewrite drop_0, Hsort, Hfiles.
    + lia.
    + rewrite Hloop. exists w4. split.
      * cbn [for_ seq]. unfold bind at 1, delete_entry. cbn [Nat.add].
        by rewrite Hpast.
      * rewrite Hsrc4. cbn [files_under]. apply Permutation_nil_r.
        rewrite Hperm. cbn [Nat.add]. rewrite drop_ge; [done|lia].
  - cbn [files_under] in Hfiles. rewrite <- Hfiles in *. cbn [length] in *.
    exists w. split.
    + cbn [for_ seq]. unfold pass, ret, bind at 1, delete_entry. cbn [Nat.add].
      by rewrite Hpast.
    + by rewrite Hsrc.
Qed.

(** X5.  A negative ceiling.  With [KeepMaxFilesOnUSB] below zero the
    sweep asks for more evictions than there are files: when every removal
    succeeds it evicts every file of the partition, and then raises the
    index error on the first index past the end of the list.  No unmount is
    attempted and the partition stays mounted. *)
Theorem negative_ceiling_empties_the_partition (E : env) (device : string)
    (config : config) (w : world) (m : Z) (es : list (string * node)) :
  (forall p, rmdir_fails E p = false) ->
  (forall p, remove_outcome E p = Removed) ->
  CopyCheckCycleTime config <> 0 ->
  gt_fraction (cycle_counter w + 1)
    (DeleteOnUSBCycleTime config, CopyCheckCycleTime config) = true ->
  mount_rc E (S (length (trace w))) = 0 ->
  source w = Some (Dir m es) -> wf (Dir m es) = true ->
  KeepMaxFilesOnUSB config < 0 ->
  exists w',
    check_and_delete_on_usb E device config w = (Raise IndexError, w') /\
    files_under SOURCE_DIR (source w') = [] /\
    mounted w' = true /\
    forall d rc, Umount d rc ∉ added w w'.
Proof.
  intros Hrmdir Hremove HC Hdue Hmount Hsrc Hwf Hkeep.
  set (root := Dir m es) in *.
  destruct (check_and_delete_on_usb E device config w) as [r w'] eqn:Hrun.
  assert (Hshape : r = Raise IndexError /\ files_under SOURCE_DIR (source w') = []).
  { rewrite check_and_delete_on_usb_unfold in Hrun.
    destruct (CopyCheckCycleTime config =? 0) eqn:HC0;
      [by apply Z.eqb_eq in HC0|].
    cbv zeta in Hrun. rewrite Hdue in Hrun.
    unfold bind at 1 in Hrun. cbn [logging emit] in Hrun.
    unfold bind at 1 in Hrun. rewrite mount_ok in Hrun.
    2:{ cbn [trace with_trace with_cycle_counter]. rewrite length_app. simpl.
        by rewrite Nat.add_1_r. }
    unfold bind at 1 in Hrun.
    match type of Hrun with context [walk_source E SOURCE_DIR ?w2] =>
      destruct (walk_source_clean E Hrmdir w2 m es Hsrc) as (evs & Hwalk) end.
    rewrite Hwalk in Hrun. fold root in Hrun.
    unfold bind at 1 in Hrun. cbn [logging emit] in Hrun.
    unfold bind at 1 in Hrun.
    destruct (0 <? Z.of_nat (length (all_files SOURCE_DIR root))
                   - KeepMaxFilesOnUSB config) eqn:Hdiff;
      [|apply Z.ltb_ge in Hdiff; lia].
    replace (Z.to_nat (Z.of_nat (length (all_files SOURCE_DIR root))
                       - KeepMaxFilesOnUSB config))
      with (length (all_files SOURCE_DIR root)
            + S (Z.to_nat (- KeepMaxFilesOnUSB config) - 1))%nat in Hrun by lia.
    match type of Hrun with context [for_ _ _ ?w3] =>
      destruct (evict_overrun E w3 root (Z.to_nat (- KeepMaxFilesOnUSB config) - 1)
                  Hremove Hwf) as (w4 & Hloop & Hnone); [done|] end.
    rewrite Hloop in Hrun. by injection Hrun as <- <-. }
  destruct Hshape as [-> Hnone]. exists w'. split; [done|]. split; [done|].
  assert (Hm : Mount device SOURCE_DIR 0 ∈ added w w').
  { rewrite check_and_delete_on_usb_unfold in Hrun.
    destruct (CopyCheckCycleTime config =? 0) eqn:HC0;
      [by apply Z.eqb_eq in HC0|].
    cbv zeta in Hrun. rewrite Hdue in Hrun.
    unfold bind at 1 in Hrun. cbn [logging emit] in Hrun.
    unfold bind at 1 in Hrun. rewrite mount_ok in Hrun.
    2:{ cbn [trace with_trace with_cycle_counter]. rewrite length_app. simpl.
        by rewrite Nat.add_1_r. }
    destruct (released_sweep E config _ _ _ Hrun) as (evs & Ht & _); [done|].
    cbn [trace with_trace with_mounted with_cycle_counter] in Ht.
    rewrite <- !app_assoc in Ht. rewrite (added_app _ _ _ Ht).
    right. by left. }
  assert (Hcycle : check_and_delete_on_usb E device config w = (Raise IndexError, w'))
    by done.
  rewrite check_and_delete_on_usb_unfold in Hcycle.
  destruct (CopyCheckCycleTime config =? 0) eqn:HC0;
    [by apply Z.eqb_eq in HC0|].
  cbv zeta in Hcycle. rewrite Hdue in Hcycle.
  apply bind_inv in Hcycle as [([] & w1 & H1 & H2)|(e & [=] & _)].
  injection H1 as <-.
  enough (mounted w' = true /\
          (IndexError = UmountError ->
           exists rc, rc <> 0 /\ Umount SOURCE_DIR rc ∈ added w w') /\
          (IndexError <> UmountError -> forall d rc, Umount d rc ∉ added w w'))
    as (Hmounted & _ & Hno); [split; [done|by apply Hno]|].
  eapply (mounted_cycle E device _ [Log _ _] w _ (Raise IndexError) w');
    [|repeat constructor; by intros []| |exact H2|done]; [reflexivity|].
  apply released_sweep.
Qed.

(** Turns of the deletion loop in which every removal is refused. *)
Lemma refuse_loop (E : env) (sorted : list DirEntry) :
  (forall p, remove_outcome E p <> Removed) ->
  forall n j w, (j + n <= length sorted)%nat ->
    for_ (seq j n) (delete_entry E sorted) w =
    (Ok tt, with_trace w (trace w ++ flat_map (refusal E) (take n (drop j sorted)))).
Proof.
  intros Hrefuse. induction n as [|n IH]; intros j w Hlen.
  - simpl. unfold pass, ret, with_trace. rewrite app_nil_r. by destruct w.
  - destruct (lookup_lt_is_Some_2 sorted j) as [f Hf]; [lia|].
    rewrite (drop_S _ _ _ Hf). cbn [seq for_ take flat_map].
    unfold bind at 1.
    assert (delete_entry E sorted j w =
            (Ok tt, with_trace w (trace w ++ refusal E f))) as ->.
    { unfold delete_entry. rewrite Hf.
      unfold try_except, bind, os_remove_source, refusal.
      specialize (Hrefuse (de_path f)).
      destruct (remove_outcome E (de_path f)); [done|..];
        unfold logging, emit, with_trace; cbn; by rewrite <- app_assoc. }
    rewrite IH by lia. unfold with_trace. cbn. by rewrite <- app_assoc.
Qed.

Lemma umount_ok (E : env) d w :
  umount_rc E (length (trace w)) = 0 ->
  umount E d w =
  (Ok tt, with_trace (with_mounted w false) (trace w ++ [Umount d 0; Sleep 500])).
Proof.
  intros Hrc. unfold umount, bind, subprocess_umount, time_sleep, emit.
  rewrite Hrc. simpl. unfold with_trace, with_mounted. simpl.
  by rewrite <- app_assoc.
Qed.

(** X6.  Removals that are refused.  A sweep that is due on a partition
    none of whose files can be removed, with a ceiling that is not negative:
    each of the oldest files, as many as exceed the ceiling, is tried once,
    oldest first, and each refusal is logged; the sweep then unmounts,
    resets the counter and returns.  No file is gone: the tree is the one
    the walk left. *)
Theorem refused_removals_are_passed_over (E : env) (device : string)
    (config : config) (w : world) (m : Z) (es : list (string * node)) :
  (forall p, rmdir_fails E p = false) ->
  (forall p, remove_outcome E p <> Removed) ->
  CopyCheckCycleTime config <> 0 ->
  gt_fraction (cycle_counter w + 1)
    (DeleteOnUSBCycleTime config, CopyCheckCycleTime config) = true ->
  mount_rc E (S (length (trace w))) = 0 ->
  (forall n, umount_rc E n = 0) ->
  source w = Some (Dir m es) ->
  0 <= KeepMaxFilesOnUSB config ->
  let files := all_files SOURCE_DIR (Dir m es) in
  let max_file_diff := Z.of_nat (length files) - KeepMaxFilesOnUSB config in
  exists w' walked,
    check_and_delete_on_usb E device config w = (Ok tt, w') /\
    source w' = prune (Dir m es) /\
    files_under SOURCE_DIR (source w') = files /\
    mounted w' = false /\ cycle_counter w' = 0 /\
    added w w' =
      [Log INFO (PerformUsbDeletionCheck (cycle_counter w + 1));
       Mount device SOURCE_DIR 0; Sleep 500] ++ walked ++
      Log INFO (MaxFileDiff max_file_diff)
      :: flat_map (refusal E)
           (take (Z.to_nat max_file_diff) (sort_asc st_mtime_of files)) ++
      [Umount SOURCE_DIR 0; Sleep 500].
Proof.
  intros Hrmdir Hrefuse HC Hdue Hmount Humount Hsrc Hkeep files max_file_diff.
  rewrite check_and_delete_on_usb_unfold.
  destruct (CopyCheckCycleTime config =? 0) eqn:HC0;
    [by apply Z.eqb_eq in HC0|].
  cbv zeta. rewrite Hdue.
  unfold bind at 1. cbn [logging emit].
  unfold bind at 1. rewrite mount_ok.
  2:{ cbn [trace with_trace with_cycle_counter]. rewrite length_app. simpl.
      by rewrite Nat.add_1_r. }
  unfold bind at 1.
  match goal with |- context [walk_source E SOURCE_DIR ?w2] =>
    destruct (walk_source_clean E Hrmdir w2 m es Hsrc) as (walked & Hwalk) end.
  rewrite Hwalk. fold files.
  unfold bind at 1. cbn [logging emit].
  unfold bind at 1. fold max_file_diff.
  pose proof (Permutation_length (sort_asc_perm st_mtime_of files)) as Hlen.
  match goal with |- context [(if _ then _ else _) ?w3] =>
    assert ((if 0 <? max_file_diff then
               for_ (seq 0 (Z.to_nat max_file_diff))
                 (delete_entry E (sort_asc st_mtime_of files))
             else pass) w3 =
            (Ok tt, with_trace w3
                      (trace w3 ++
                       flat_map (refusal E)
                         (take (Z.to_nat max_file_diff)
                            (sort_asc st_mtime_of files))))) as -> end.
  { destruct (0 <? max_file_diff) eqn:Hdiff.
    - rewrite (refuse_loop E _ Hrefuse); [by rewrite drop_0|].
      unfold max_file_diff in *. lia.
    - apply Z.ltb_ge in Hdiff. replace (Z.to_nat max_file_diff) with 0%nat by lia.
      unfold pass, ret, with_trace. cbn [take flat_map trace]. rewrite app_nil_r.
      reflexivity. }
  unfold bind at 1. rewrite umount_ok by apply Humount.
  unfold modify. eexists _, walked. split; [reflexivity|].
  cbn [trace source mounted local cycle_counter last_modify_time
       with_trace with_source with_mounted with_cycle_counter].
  split; [reflexivity|]. split; [apply (prune_files (Dir m es))|].
  split; [reflexivity|]. split; [reflexivity|].
  apply added_app.
  cbn [trace source mounted local cycle_counter last_modify_time
       with_trace with_source with_mounted with_cycle_counter].
  rewrite <- !app_assoc. reflexivity.
Qed.

(** ** What the walk collects and what it removes *)

(** X7.  What the walk collects.  On a directory tree in which no
    directory lists a name twice, and when no removal of a directory fails,
    the walk ends without an exception; the entries it returns are the files
    of the tree, every file once and no path twice; and every one of them is
    still there in the tree the walk leaves: the walk removes no file. *)
Theorem walk_collects_every_file_once (E : env) (p : path) (m : Z)
    (es : list (string * node)) :
  (forall q, rmdir_fails E q = false) -> wf (Dir m es) = true ->
  let o := get_all_file_entries_delete_empty_dirs E p (Dir m es) in
  raised o = None /\
  entries o = all_files p (Dir m es) /\
  NoDup (map de_path (entries o)) /\
  files_under p (residual o) = entries o.
Proof.
  intros Hrmdir Hwf o.
  destruct (walk_clean E Hrmdir (Dir m es) p) as (Hr & He & Hres).
  fold o in Hr, He, Hres.
  split; [done|]. split; [done|]. rewrite He. split.
  - by apply all_files_nodup.
  - rewrite Hres. apply prune_files.
Qed.

(** A removal among the calls of the loop over the entries belongs to the
    walk of one of them. *)
Lemma walk_entries_rmdir (E : env) p items q :
  Rmdir q ∈ (walk_entries p (get_all_file_entries_delete_empty_dirs E) items).1.2 ->
  exists name child,
    (name, child) ∈ items /\
    Rmdir q ∈ events (get_all_file_entries_delete_empty_dirs E (p ++ [name]) child).
Proof.
  induction items as [|[name child] items IH]; simpl.
  { intros H. by apply elem_of_nil in H. }
  destruct child as [a b c|m es]; simpl.
  - destruct (walk_entries p _ items) as [[[found kept] evs] ex]. simpl in *.
    intros H. destruct (IH H) as (name' & child' & Hin & Hev).
    exists name', child'. split; [by right|done].
  - destruct (raised (get_all_file_entries_delete_empty_dirs E
                        (p ++ [name]) (Dir m es))) as [e|]; simpl.
    + intros H. exists name, (Dir m es). split; [by left|done].
    + destruct (walk_entries p _ items) as [[[found kept] evs] ex]. simpl in *.
      intros H. apply elem_of_app in H as [H|H].
      * exists name, (Dir m es). split; [by left|done].
      * destruct (IH H) as (name' & child' & Hin & Hev).
        exists name', child'. split; [by right|done].
Qed.

(** X8.  What the walk removes.  Whether or not a removal fails, every
    directory the walk calls [os.rmdir] on is a directory of the tree that
    had no entries when the walk started: the directory it was started on,
    or one below it.  A directory with a file or a directory in it is never
    removed, also when the walk has just emptied it. *)
Theorem walk_removes_empty_directories_only (E : env) (n : node) :
  wf n = true ->
  forall p q, Rmdir q ∈ events (get_all_file_entries_delete_empty_dirs E p n) ->
    exists rel m, q = p ++ rel /\ lookup_node rel n = Some (Dir m []).
Proof.
  induction n as [a b c|m es IH] using node_ind; intros Hwf p q.
  { simpl. intros H. by apply elem_of_nil in H. }
  rewrite walk_dir.
  pose proof (walk_entries_rmdir E p es q) as Hsub.
  destruct (walk_entries p _ es) as [[[found kept] evs] ex]. simpl in Hsub.
  apply wf_dir in Hwf as [Hnames Hwfs].
  assert (Hbelow : Rmdir q ∈ evs ->
            exists rel m', q = p ++ rel /\ lookup_node rel (Dir m es) = Some (Dir m' [])).
  { intros H. destruct (Hsub H) as (name & child & Hin & Hev).
    rewrite Forall_forall in IH, Hwfs.
    destruct (IH _ Hin (Hwfs _ Hin) _ _ Hev) as (rel & m' & -> & Hlook).
    exists (name :: rel), m'. split; [by rewrite <- app_assoc|].
    rewrite lookup_cons. cbn [entries_of]. by rewrite (assoc_elem name child es). }
  assert (Hown : length es = 0%nat ->
            Rmdir q ∈ evs ++ [Log INFO (DeletingEmptyDirectory p); Rmdir p] ->
            exists rel m', q = p ++ rel /\ lookup_node rel (Dir m es) = Some (Dir m' [])).
  { intros Hnil H. apply elem_of_app in H as [H|H]; [by apply Hbelow|].
    apply elem_of_cons in H as [[=]|H].
    apply list_elem_of_singleton in H as [= ->].
    destruct es; [|done]. exists [], m. by rewrite app_nil_r. }
  destruct ex as [e|]; [exact Hbelow|].
  destruct (length es =? 0)%nat eqn:Hlen; [|exact Hbelow].
  apply Nat.eqb_eq in Hlen.
  destruct (rmdir_fails E p); by apply Hown.
Qed.

(** ** The marker when a cycle fails *)

(** The change scan of a tree always returns. *)
Lemma scan_returns (root_path : path) (root : node) (t : Z) (d : nat) :
  exists files, scan root_path root t d = Some files.
Proof.
  destruct (scan_in_reach t d (S (height root))
              {| de_path := root_path; de_node := root |}) as (l & Hl & _);
    [simpl; lia|].
  by exists l.
Qed.

Lemma dirname_app (p : path) (name : string) : dirname (p ++ [name]) = p.
Proof. apply removelast_last. Qed.

(** X9.  A staging directory that is not there.  The poller never creates
    the staging directory itself: when the image was modified and the
    directory that is to hold the marker does not exist, the cycle mounts
    the partition, scans it, and fails when it creates the marker.  Nothing
    is copied, the local file system and the watermark are as before, and
    the partition stays mounted. *)
Theorem missing_staging_directory_fails_the_cycle (E : env) (device : string)
    (w : world) (root : node) :
  last_modify_time w < img_mtime E (length (trace w)) ->
  mount_rc E (S (length (trace w))) = 0 ->
  source w = Some root ->
  local w !! COPYING_ACTIVE_FILE E = None ->
  isdir_in (local w) (DESTINATION_BASE_DIR E) = false ->
  exists w',
    copy_new_files E device w = (Raise (OSError (COPYING_ACTIVE_FILE E)), w') /\
    added w w' =
      [Stat (img_mtime E (length (trace w))); Mount device SOURCE_DIR 0; Sleep 500;
       Touch (COPYING_ACTIVE_FILE E)] /\
    local w' = local w /\ mounted w' = true /\
    last_modify_time w' = last_modify_time w.
Proof.
  intros Htrig Hmount Hsrc Hmarker Hdir.
  destruct (scan_returns SOURCE_DIR root (last_modify_time w) 2) as [files Hscan].
  rewrite copy_new_files_unfold. cbv zeta.
  apply Z.ltb_lt in Htrig. rewrite Htrig.
  unfold bind at 1. rewrite mount_ok.
  2:{ cbn [trace with_trace]. rewrite length_app. simpl. by rewrite Nat.add_1_r. }
  unfold bind at 1. unfold scan_source at 1.
  cbn [source with_trace with_mounted]. rewrite Hsrc, Hscan.
  unfold bind at 1. unfold os_path_isfile at 1.
  cbn [local with_trace with_mounted]. unfold isfile_in at 1. rewrite Hmarker.
  unfold bind at 1. unfold pass, ret.
  unfold bind at 1. unfold touch.
  cbn [local trace with_trace with_mounted]. rewrite Hmarker.
  unfold COPYING_ACTIVE_FILE at 1. rewrite dirname_app, Hdir.
  eexists. split; [reflexivity|].
  cbn [trace source mounted local cycle_counter last_modify_time
       with_trace with_source with_mounted with_cycle_counter].
  split; [|done]. apply added_app. cbn [trace]. by rewrite <- !app_assoc.
Qed.

Section MarkerKept.
Context (E : env) (marker : path).

Lemma kept_copy_file base file dst :
  steady (fun _ => True)
    (fun w w' => isfile_in (local w) marker = true ->
                 isfile_in (local w') marker = true)
    (copy_file_with_directory_structure E base file dst).
Proof.
  assert (Hany : forall evs : list event, Forall (fun _ => True) evs).
  { intros evs. by apply Forall_true. }
  unfold copy_file_with_directory_structure.
  destruct (relpath file base) as [rel|]; [|by apply steady_raise].
  apply steady_bind; [by eauto| |intros _].
  { intros w r w' [= <- <-]. split; [by eexists [_]|done]. }
  apply steady_bind; [by eauto| |intros _].
  - intros w r w'. unfold os_makedirs.
    destruct (makedirs_from [] _ (local w)) as [fs|] eqn:Hmk; intros [= <- <-];
      (split; [by eexists [_]|]); [|done].
    cbn [local with_trace with_local]. unfold isfile_in.
    destruct (local w !! marker) as [[a b|]|] eqn:Hm; try done.
    by rewrite (makedirs_from_keeps _ _ _ _ Hmk _ _ Hm).
  - intros w r w'. unfold shutil_copy2.
    destruct (copy_fails E file).
    { intros [= <- <-]. split; [by eexists [_]|done]. }
    destruct (read_source w file) as [[a b c|a es]|].
    2,3: intros [= <- <-]; (split; [by eexists [_]|done]).
    match goal with |- context [if ?b then _ else _] => destruct b end;
      intros [= <- <-]; (split; [by eexists [_]|]); [done|].
    cbn [local with_trace with_local]. unfold isfile_in.
    match goal with |- context [<[?k := _]> _] =>
      destruct (decide (k = marker)) as [->|Hne] end.
    + by rewrite lookup_insert_eq.
    + by rewrite lookup_insert_ne.
Qed.

Lemma kept_copy_loop base files dst :
  steady (fun _ => True)
    (fun w w' => isfile_in (local w) marker = true ->
                 isfile_in (local w') marker = true)
    (for_ files (fun file => copy_file_with_directory_structure E base file dst)).
Proof.
  apply steady_for; [by eauto|by eauto|]. intros f _. apply kept_copy_file.
Qed.
End MarkerKept.

(** X10.  The marker after a failed copy.  When a copy cycle has attempted
    a copy and then ends with an exception other than that of a failed
    unmount, the marker file is still in place, and the partition is still
    mounted: the marker is only taken away on the way to the unmount.  (The
    marker's path is assumed not to be a directory.) *)
Theorem failed_copy_leaves_the_marker (E : env) (device : string) (w : world)
    (e : exn) (w' : world) (src dst : path) :
  copy_new_files E device w = (Raise e, w') ->
  e <> UmountError ->
  Copy2 src dst ∈ added w w' ->
  local w !! COPYING_ACTIVE_FILE E <> Some LDir ->
  isfile_in (local w') (COPYING_ACTIVE_FILE E) = true /\ mounted w' = true.
Proof.
  intros Hrun He Hcopy Hnodir.
  rewrite copy_new_files_unfold in Hrun. cbv zeta in Hrun.
  destruct (last_modify_time w <? img_mtime E (length (trace w))); [|done].
  apply bind_inv in Hrun as [([] & w2 & Hmount & H)|(e' & Hmount & _)].
  2:{ apply mount_inv in Hmount as [([=] & _)|(rc & _ & _ & ->)].
      unfold added in Hcopy. simpl in Hcopy.
      rewrite <- app_assoc, drop_app_length in Hcopy.
      repeat (apply elem_of_cons in Hcopy as [[=]|Hcopy]).
      by apply elem_of_nil in Hcopy. }
  apply mount_inv in Hmount as [(_ & _ & ->)|(rc & _ & [=] & _)].
  split.
  2:{ by destruct (released_copy E _ _ _ _ _ H) as (evs & _ & Hm & _). }
  apply bind_inv in H as [(files & w2 & Hscan & H)|(e' & Hscan & _)].
  2:{ unfold scan_source in Hscan. simpl in Hscan.
      destruct (source w) as [root|];
        [destruct (scan SOURCE_DIR root (last_modify_time w) 2)|];
        try discriminate; injection Hscan as _ <-;
        unfold added in Hcopy; simpl in Hcopy;
        rewrite <- app_assoc, drop_app_length in Hcopy;
        repeat (apply elem_of_cons in Hcopy as [[=]|Hcopy]);
        by apply elem_of_nil in Hcopy. }
  assert (w2 = with_trace (with_mounted
                             (with_trace w (trace w ++
                                [Stat (img_mtime E (length (trace w)))])) true)
                 ((trace w ++ [Stat (img_mtime E (length (trace w)))]) ++
                  [Mount device SOURCE_DIR 0; Sleep 500])) as ->.
  { unfold scan_source in Hscan. simpl in Hscan.
    destruct (source w) as [root|];
      [destruct (scan SOURCE_DIR root (last_modify_time w) 2)|];
      by injection Hscan. }
  apply bind_inv in H as [(stale & w2 & Hisfile & H)|(e' & [=] & _)].
  injection Hisfile as <- <-. simpl in H.
  (* the stale marker, if any, is taken away *)
  apply bind_inv in H as [([] & w3 & Hstale & H)|(e' & Hstale & _)].
  2:{ destruct (isfile_in (local w) (COPYING_ACTIVE_FILE E)) eqn:Hfile; [|done].
      unfold bind, logging, emit, os_remove in Hstale. simpl in Hstale.
      by rewrite Hfile in Hstale. }
  assert (local w3 !! COPYING_ACTIVE_FILE E = None /\
                trace w3 =
                  trace w ++
                  [Stat (img_mtime E (length (trace w)));
                   Mount device SOURCE_DIR 0; Sleep 500] ++
                  (if isfile_in (local w) (COPYING_ACTIVE_FILE E)
                   then [Log WARNING (AlreadyExistsRemoving (COPYING_ACTIVE_FILE E));
                         Remove (COPYING_ACTIVE_FILE E)]
                   else [])) as [Habsent Ht3].
  { destruct (isfile_in (local w) (COPYING_ACTIVE_FILE E)) eqn:Hfile.
    - unfold bind, logging, emit, os_remove in Hstale. simpl in Hstale.
      rewrite Hfile in Hstale. injection Hstale as <-. simpl. split.
      + by rewrite lookup_delete_eq.
      + by rewrite <- !app_assoc.
    - injection Hstale as <-. simpl. split.
      + unfold isfile_in in Hfile.
        by destruct (local w !! COPYING_ACTIVE_FILE E) as [[a b|]|].
      + by rewrite <- !app_assoc. }
  apply bind_inv in H as [([] & w4 & Htouch & H)|(e' & Htouch & _)].
  2:{ unfold touch in Htouch. rewrite Habsent in Htouch.
      destruct (isdir_in (local w3) _); [done|]. injection Htouch as _ <-.
      unfold added in Hcopy. cbn [trace with_trace] in Hcopy.
      rewrite Ht3, <- app_assoc, drop_app_length in Hcopy.
      destruct (isfile_in (local w) (COPYING_ACTIVE_FILE E)); simpl in Hcopy;
        repeat (apply elem_of_cons in Hcopy as [[=]|Hcopy]);
        by apply elem_of_nil in Hcopy. }
  assert (Hthere : isfile_in (local w4) (COPYING_ACTIVE_FILE E) = true).
  { unfold touch in Htouch. rewrite Habsent in Htouch.
    destruct (isdir_in (local w3) _); [|done]. injection Htouch as <-.
    unfold isfile_in. cbn [local with_local with_trace].
    by rewrite lookup_insert_eq. }
  apply bind_inv in H as [([] & w5 & Hloop & H)|(e' & Hloop & _)].
  2:{ destruct (kept_copy_loop E (COPYING_ACTIVE_FILE E) _ _ _ _ _ _ Hloop)
        as [_ Hkept]. by apply Hkept. }
  (* past the loop, only the unmount can raise *)
  destruct (kept_copy_loop E (COPYING_ACTIVE_FILE E) _ _ _ _ _ _ Hloop)
    as [_ Hkept].
  specialize (Hkept Hthere).
  apply bind_inv in H as [(present & w5' & Hpresent & H)|(e' & [=] & _)].
  injection Hpresent as <- <-. rewrite Hkept in H.
  apply bind_inv in H as [([] & w6 & Hclear & H)|(e' & Hclear & _)].
  2:{ unfold os_remove in Hclear. by rewrite Hkept in Hclear. }
  apply bind_inv in H as [([] & w7 & Humount & H)|(e' & Humount & Heq)].
  - apply umount_inv in Humount as [(_ & _ & ->)|(rc & _ & [=] & _)].
    unfold bind in H. by rewrite os_stat_img_eq in H.
  - apply umount_inv in Humount as [([=] & _)|(rc & _ & Heq' & _)]. congruence.
Qed.


(** X11.  An image that is not modified again.  After a copy cycle that
    found the image modified and returned, the watermark is the image's time
    as it was read last; so when the next reading gives the same time, the
    next cycle makes that one reading and nothing else: nothing is mounted
    and nothing is copied a second time. *)
Theorem unchanged_image_is_not_copied_again (E : env) (device : string)
    (w w1 : world) :
  copy_new_files E device w = (Ok tt, w1) ->
  last_modify_time w < img_mtime E (length (trace w)) ->
  img_mtime E (length (trace w1)) = img_mtime E (length (trace w1) - 1) ->
  copy_new_files E device w1 =
  (Ok tt, with_trace w1 (trace w1 ++ [Stat (last_modify_time w1)])).
Proof.
  intros Hrun Htrig Hsame.
  destruct (copy_new_files_ok E device w w1 Hrun Htrig)
    as (root & files & w3 & w4 & w5 & t2 & _ & _ & _ & _ & _ & _ & _ & _ &
        Ht2 & Hl & _).
  rewrite copy_new_files_unfold. cbv zeta.
  rewrite Hsame, <- Ht2, Hl, Z.ltb_irrefl. reflexivity.
Qed.

(** ** The statements above on the inputs of the examples *)

(** The copy cycle of the specification's scenario. *)
Lemma copy_cycle_is_confined_witness :
  let w' := (copy_new_files E_calm "loop0p1" w_idle).2 in
  copy_new_files E_calm "loop0p1" w_idle = (Ok tt, w') /\
  let batch :=
    DESTINATION_BASE_DIR E_calm ++ [str (img_mtime E_calm (length (trace w_idle)))] in
  Forall (copy_event E_calm batch) (added w_idle w') /\
  source w' = source w_idle /\ cycle_counter w' = cycle_counter w_idle /\
  forall k v, k <> COPYING_ACTIVE_FILE E_calm -> ~ batch `prefix_of` k ->
              local w_idle !! k = Some v -> local w' !! k = Some v.
Proof.
  intros w'.
  assert (H1 : copy_new_files E_calm "loop0p1" w_idle = (Ok tt, w'))
    by (vm_compute; reflexivity).
  split; [exact H1|].
  exact (copy_cycle_is_confined E_calm "loop0p1" w_idle (Ok tt) w' H1).
Defined.

(** The sweep of the specification's scenario. *)
Lemma sweep_is_confined_witness :
  let w' := (check_and_delete_on_usb E_calm "loop0p1" (every_check 1) w_idle).2 in
  check_and_delete_on_usb E_calm "loop0p1" (every_check 1) w_idle = (Ok tt, w') /\
  Forall sweep_event (added w_idle w') /\
  local w' = local w_idle /\ last_modify_time w' = last_modify_time w_idle.
Proof.
  intros w'.
  assert (H1 : check_and_delete_on_usb E_calm "loop0p1" (every_check 1) w_idle
               = (Ok tt, w')) by (vm_compute; reflexivity).
  split; [exact H1|].
  exact (sweep_is_confined E_calm "loop0p1" (every_check 1) w_idle (Ok tt) w' H1).
Defined.

(** A check every ten seconds and a sweep every minute: six idle turns,
    and the sweep in the seventh. *)
Lemma sweep_comes_after_the_quotient_witness :
  (0 < CopyCheckCycleTime (every_minute 1) /\
   0 <= DeleteOnUSBCycleTime (every_minute 1) /\
   cycle_counter w_settled = 0 /\
   (forall len, img_mtime E_calm len <= last_modify_time w_settled)) /\
  main_loop E_calm "loop0p1" (every_minute 1) 6 w_settled =
    (Ok tt,
     with_trace (with_cycle_counter w_settled 6)
       (trace w_settled ++ idle_events E_calm (every_minute 1) 0 6)) /\
  exists rc rest,
    added (with_cycle_counter w_settled 6)
      (check_and_delete_on_usb E_calm "loop0p1" (every_minute 1)
         (with_cycle_counter w_settled 6)).2 =
    Log INFO (PerformUsbDeletionCheck 7) :: Mount "loop0p1" SOURCE_DIR rc :: rest.
Proof.
  assert (H1 : 0 < CopyCheckCycleTime (every_minute 1)) by (simpl; lia).
  assert (H2 : 0 <= DeleteOnUSBCycleTime (every_minute 1)) by (simpl; lia).
  assert (H3 : cycle_counter w_settled = 0) by reflexivity.
  assert (H4 : forall len, img_mtime E_calm len <= last_modify_time w_settled)
    by (intros len; simpl; lia).
  split; [exact (conj H1 (conj H2 (conj H3 (H4))))|].
  destruct (sweep_comes_after_the_quotient E_calm "loop0p1" (every_minute 1)
              w_settled H1 H2 H3 H4) as [Hidle Hdue].
  split.
  - apply (Hidle 6%nat). vm_compute. lia.
  - exact (Hdue (with_cycle_counter w_settled 6) eq_refl).
Defined.

(** The poller given three turns, with the check time at zero. *)
Lemma zero_check_time_ends_the_poller_witness :
  CopyCheckCycleTime check_time_zero = 0 /\
  exists w',
    main E_calm "loop0p1" check_time_zero 3 w_idle = (Ok tt, w') /\
    last (trace w') = Some (Log ERROR (Traceback ZeroDivisionError)) /\
    (forall d p rc, Mount d p rc ∉ added w_idle w').
Proof.
  split; [reflexivity|].
  destruct (zero_check_time_ends_the_poller E_calm "loop0p1" check_time_zero 2
              w_idle eq_refl) as (w' & Hrun & Hlast & Hno & _).
  exists w'. split; [exact Hrun|]. split; [exact Hlast|exact Hno].
Defined.

(** The tree of the specification's scenario, with a ceiling of minus one. *)
Lemma negative_ceiling_empties_the_partition_witness :
  ((forall p, rmdir_fails E_calm p = false) /\
   (forall p, remove_outcome E_calm p = Removed) /\
   CopyCheckCycleTime (every_check (-1)) <> 0 /\
   gt_fraction (cycle_counter w_idle + 1)
     (DeleteOnUSBCycleTime (every_check (-1)), CopyCheckCycleTime (every_check (-1)))
     = true /\
   mount_rc E_calm (S (length (trace w_idle))) = 0 /\
   source w_idle = Some usb_tree /\ wf usb_tree = true /\
   KeepMaxFilesOnUSB (every_check (-1)) < 0) /\
  exists w',
    check_and_delete_on_usb E_calm "loop0p1" (every_check (-1)) w_idle
      = (Raise IndexError, w') /\
    files_under SOURCE_DIR (source w') = [] /\
    mounted w' = true /\
    forall d rc, Umount d rc ∉ added w_idle w'.
Proof.
  assert (H1 : forall p, rmdir_fails E_calm p = false) by reflexivity.
  assert (H2 : forall p, remove_outcome E_calm p = Removed) by reflexivity.
  assert (H3 : CopyCheckCycleTime (every_check (-1)) <> 0) by (simpl; lia).
  assert (H4 : gt_fraction (cycle_counter w_idle + 1)
                 (DeleteOnUSBCycleTime (every_check (-1)),
                  CopyCheckCycleTime (every_check (-1))) = true) by reflexivity.
  assert (H5 : mount_rc E_calm (S (length (trace w_idle))) = 0) by reflexivity.
  assert (H6 : source w_idle = Some usb_tree) by reflexivity.
  assert (H7 : wf usb_tree = true) by (vm_compute; reflexivity).
  assert (H8 : KeepMaxFilesOnUSB (every_check (-1)) < 0) by (simpl; lia).
  split; [exact (conj H1 (conj H2 (conj H3 (conj H4 (conj H5 (conj H6 (conj H7 (H8))))))))|].
  exact (negative_ceiling_empties_the_partition E_calm "loop0p1" (every_check (-1))
           w_idle _ _ H1 H2 H3 H4 H5 H6 H7 H8).
Defined.

(** The tree of the specification's scenario on a partition that refuses
    every removal, with a ceiling of one: two files are tried. *)
Lemma refused_removals_are_passed_over_witness :
  ((forall p, rmdir_fails E_read_only p = false) /\
   (forall p, remove_outcome E_read_only p <> Removed) /\
   CopyCheckCycleTime (every_check 1) <> 0 /\
   gt_fraction (cycle_counter w_idle + 1)
     (DeleteOnUSBCycleTime (every_check 1), CopyCheckCycleTime (every_check 1)) = true /\
   mount_rc E_read_only (S (length (trace w_idle))) = 0 /\
   (forall n, umount_rc E_read_only n = 0) /\
   source w_idle = Some usb_tree /\
   0 <= KeepMaxFilesOnUSB (every_check 1)) /\
  exists w',
    check_and_delete_on_usb E_read_only "loop0p1" (every_check 1) w_idle = (Ok tt, w') /\
    source w' = Some usb_tree /\ mounted w' = false /\ cycle_counter w' = 0.
Proof.
  assert (H1 : forall p, rmdir_fails E_read_only p = false) by reflexivity.
  assert (H2 : forall p, remove_outcome E_read_only p <> Removed) by discriminate.
  assert (H3 : CopyCheckCycleTime (every_check 1) <> 0) by (simpl; lia).
  assert (H4 : gt_fraction (cycle_counter w_idle + 1)
                 (DeleteOnUSBCycleTime (every_check 1),
                  CopyCheckCycleTime (every_check 1)) = true) by reflexivity.
  assert (H5 : mount_rc E_read_only (S (length (trace w_idle))) = 0) by reflexivity.
  assert (H6 : forall n, umount_rc E_read_only n = 0) by reflexivity.
  assert (H7 : source w_idle = Some usb_tree) by reflexivity.
  assert (H8 : 0 <= KeepMaxFilesOnUSB (every_check 1)) by (simpl; lia).
  split; [exact (conj H1 (conj H2 (conj H3 (conj H4 (conj H5 (conj H6 (conj H7 (H8))))))))|].
  destruct (refused_removals_are_passed_over E_read_only "loop0p1" (every_check 1)
              w_idle _ _ H1 H2 H3 H4 H5 H6 H7 H8)
    as (w' & walked & Hrun & Hsrc & _ & Hm & Hc & _).
  exists w'. split; [exact Hrun|]. split; [exact Hsrc|]. split; [exact Hm|exact Hc].
Defined.

(** The walk of the tree of the specification's scenario. *)
Lemma walk_collects_every_file_once_witness :
  ((forall q, rmdir_fails E_calm q = false) /\ wf usb_tree = true) /\
  let o := get_all_file_entries_delete_empty_dirs E_calm SOURCE_DIR usb_tree in
  raised o = None /\
  entries o = all_files SOURCE_DIR usb_tree /\
  NoDup (map de_path (entries o)) /\
  files_under SOURCE_DIR (residual o) = entries o.
Proof.
  assert (H1 : forall q, rmdir_fails E_calm q = false) by reflexivity.
  assert (H2 : wf usb_tree = true) by (vm_compute; reflexivity).
  split; [by split|].
  exact (walk_collects_every_file_once E_calm SOURCE_DIR 1800 (entries_of usb_tree)
           H1 H2).
Defined.

(** The walk of the nested tree removes [a/b], which had no entries, and
    nothing else. *)
Lemma walk_removes_empty_directories_only_witness :
  (wf nested_tree = true /\
   Rmdir (SOURCE_DIR ++ ["a"; "b"]%string)
     ∈ events (get_all_file_entries_delete_empty_dirs E_calm SOURCE_DIR nested_tree)) /\
  exists rel m,
    SOURCE_DIR ++ ["a"; "b"]%string = SOURCE_DIR ++ rel /\
    lookup_node rel nested_tree = Some (Dir m []).
Proof.
  assert (H1 : wf nested_tree = true) by (vm_compute; reflexivity).
  assert (H2 : Rmdir (SOURCE_DIR ++ ["a"; "b"]%string)
                 ∈ events (get_all_file_entries_delete_empty_dirs E_calm SOURCE_DIR
                             nested_tree)).
  { apply list_elem_of_In. vm_compute. right. left. reflexivity. }
  split; [by split|].
  exact (walk_removes_empty_directories_only E_calm nested_tree H1 _ _ H2).
Defined.

(** The scenario of the specification on a machine without the staging
    directory. *)
Lemma missing_staging_directory_fails_the_cycle_witness :
  (last_modify_time w_bare < img_mtime E_calm (length (trace w_bare)) /\
   mount_rc E_calm (S (length (trace w_bare))) = 0 /\
   source w_bare = Some usb_tree /\
   local w_bare !! COPYING_ACTIVE_FILE E_calm = None /\
   isdir_in (local w_bare) (DESTINATION_BASE_DIR E_calm) = false) /\
  exists w',
    copy_new_files E_calm "loop0p1" w_bare
      = (Raise (OSError (COPYING_ACTIVE_FILE E_calm)), w') /\
    added w_bare w' =
      [Stat 2000; Mount "loop0p1" SOURCE_DIR 0; Sleep 500;
       Touch (COPYING_ACTIVE_FILE E_calm)] /\
    local w' = local w_bare /\ mounted w' = true /\
    last_modify_time w' = last_modify_time w_bare.
Proof.
  assert (H1 : last_modify_time w_bare < img_mtime E_calm (length (trace w_bare)))
    by (simpl; lia).
  assert (H2 : mount_rc E_calm (S (length (trace w_bare))) = 0) by reflexivity.
  assert (H3 : source w_bare = Some usb_tree) by reflexivity.
  assert (H4 : local w_bare !! COPYING_ACTIVE_FILE E_calm = None) by reflexivity.
  assert (H5 : isdir_in (local w_bare) (DESTINATION_BASE_DIR E_calm) = false)
    by reflexivity.
  split; [exact (conj H1 (conj H2 (conj H3 (conj H4 (H5)))))|].
  exact (missing_staging_directory_fails_the_cycle E_calm "loop0p1" w_bare usb_tree
           H1 H2 H3 H4 H5).
Defined.

(** The cycle in which the copy of [sub/b.txt] fails, after [a.txt] has
    been copied. *)
Lemma failed_copy_leaves_the_marker_witness :
  let e := OSError ["mnt"; "usb_share"; "sub"; "b.txt"]%string in
  let w' := (copy_new_files E_copy_fails "loop0p1" w_started).2 in
  let src := ["mnt"; "usb_share"; "a.txt"]%string in
  let dst := ["home"; "pi"; "transfer"; "2000"]%string in
  (copy_new_files E_copy_fails "loop0p1" w_started = (Raise e, w') /\
   e <> UmountError /\
   Copy2 src dst ∈ added w_started w' /\
   local w_started !! COPYING_ACTIVE_FILE E_copy_fails <> Some LDir) /\
  isfile_in (local w') (COPYING_ACTIVE_FILE E_copy_fails) = true /\
  mounted w' = true.
Proof.
  intros e w' src dst.
  assert (H1 : copy_new_files E_copy_fails "loop0p1" w_started = (Raise e, w'))
    by (vm_compute; reflexivity).
  assert (H2 : e <> UmountError) by discriminate.
  assert (H3 : Copy2 src dst ∈ added w_started w').
  { apply list_elem_of_In. vm_compute. do 6 right. left. reflexivity. }
  assert (H0 : local w_started !! COPYING_ACTIVE_FILE E_copy_fails = None)
    by (vm_compute; reflexivity).
  assert (H4 : local w_started !! COPYING_ACTIVE_FILE E_copy_fails <> Some LDir)
    by (rewrite H0; discriminate).
  split; [exact (conj H1 (conj H2 (conj H3 H4)))|].
  exact (failed_copy_leaves_the_marker E_copy_fails "loop0p1" w_started e w' src dst
           H1 H2 H3 H4).
Defined.

(** The scenario of the specification, and the turn after it. *)
Lemma unchanged_image_is_not_copied_again_witness :
  let w1 := (copy_new_files E_calm "loop0p1" w_idle).2 in
  (copy_new_files E_calm "loop0p1" w_idle = (Ok tt, w1) /\
   last_modify_time w_idle < img_mtime E_calm (length (trace w_idle)) /\
   img_mtime E_calm (length (trace w1)) = img_mtime E_calm (length (trace w1) - 1)) /\
  copy_new_files E_calm "loop0p1" w1 =
  (Ok tt, with_trace w1 (trace w1 ++ [Stat (last_modify_time w1)])).
Proof.
  intros w1.
  assert (H1 : copy_new_files E_calm "loop0p1" w_idle = (Ok tt, w1))
    by (vm_compute; reflexivity).
  assert (H2 : last_modify_time w_idle < img_mtime E_calm (length (trace w_idle)))
    by (simpl; lia).
  assert (H3 : img_mtime E_calm (length (trace w1))
               = img_mtime E_calm (length (trace w1) - 1)) by reflexivity.
  split; [exact (conj H1 (conj H2 (H3)))|].
  exact (unchanged_image_is_not_copied_again E_calm "loop0p1" w_idle w1 H1 H2 H3).
Defined.

(** ** The steps of a copy cycle *)

Lemma main_started (E : env) (device : string) (config : config) (ticks : nat)
    (w : world) :
  main E device config ticks w =
  match main_loop E device config ticks (started E w) with
  | (Raise e, w') => (Ok tt, with_trace w' (trace w' ++ [Log ERROR (Traceback e)]))
  | other => other
  end.
Proof.
  unfold main. unfold bind at 1. rewrite os_stat_img_eq.
  unfold bind at 1. unfold modify at 1. unfold try_except.
  unfold bind at 1. unfold logging at 1, emit at 1.
  cbn [trace with_trace with_last_modify_time].
  replace (with_trace _ _) with (started E w).
  2:{ unfold started, with_trace, with_last_modify_time. cbn.
      by rewrite <- app_assoc. }
  by destruct (main_loop E device config ticks (started E w)) as [[[]|e] w'].
Qed.

(** Turns that return are followed by the turns that are left. *)
Lemma main_loop_app (E : env) (device : string) (config : config) (n m : nat) :
  forall w w1,
  main_loop E device config n w = (Ok tt, w1) ->
  main_loop E device config (n + m) w = main_loop E device config m w1.
Proof.
  induction n as [|n IH]; intros w w1 H.
  - by injection H as <-.
  - cbn [main_loop Nat.add] in *.
    apply bind_ok in H as ([] & wa & Ha & H).
    apply bind_ok in H as ([] & wb & Hb & H).
    apply bind_ok in H as ([] & wc & Hc & H).
    unfold bind. rewrite Ha, Hb, Hc. by apply IH.
Qed.

(** A loop that raises: the turns before the one that raised returned. *)
Lemma for_raise_split {A} (body : A -> M unit) (l : list A) : forall w e w',
  for_ l body w = (Raise e, w') ->
  exists before x after wm,
    l = before ++ x :: after /\
    for_ before body w = (Ok tt, wm) /\
    body x wm = (Raise e, w').
Proof.
  induction l as [|x l IH]; intros w e w' H; [done|]. simpl in H.
  apply bind_inv in H as [([] & w1 & H1 & H2)|(e' & H1 & [= <-])].
  - destruct (IH _ _ _ H2) as (before & y & after & wm & -> & Hb & Hy).
    exists (x :: before), y, after, wm. split; [done|]. split; [|done].
    simpl. unfold bind. by rewrite H1.
  - by exists [], x, l, w.
Qed.

Lemma for_ok_each {A} (body : A -> M unit) (l : list A) : forall w w',
  for_ l body w = (Ok tt, w') ->
  forall x, x ∈ l -> exists wa wb, body x wa = (Ok tt, wb).
Proof.
  induction l as [|y l IH]; intros w w' H x Hx; [by apply elem_of_nil in Hx|].
  simpl in H. apply bind_ok in H as ([] & w1 & H1 & H2).
  apply elem_of_cons in Hx as [->|Hx]; [by exists w, w1|by eapply IH].
Qed.

Lemma mount_fails (E : env) device d w :
  mount_rc E (length (trace w)) <> 0 ->
  mount E device d w =
  (Raise MountError,
   with_trace w (trace w ++ [Mount device d (mount_rc E (length (trace w)));
                             Log ERROR (FailedToMount device d)])).
Proof.
  intros Hrc. apply Z.eqb_neq in Hrc.
  unfold mount, bind, subprocess_mount, logging, emit, raise. simpl.
  rewrite Hrc. simpl. unfold with_trace, with_mounted. simpl.
  rewrite <- app_assoc. by destruct w.
Qed.

Section Cycle.
Context (E : env) (device : string).

(** A cycle that finds the image modified, mounts the partition and can
    read it: what is left to do once the stale marker, if there is one, has
    been removed. *)
Lemma copy_cycle_begins (w : world) (root : node) (files : list path) :
  last_modify_time w < img_mtime E (length (trace w)) ->
  mount_rc E (S (length (trace w))) = 0 ->
  source w = Some root ->
  scan SOURCE_DIR root (last_modify_time w) 2 = Some files ->
  copy_new_files E device w =
  (touch (COPYING_ACTIVE_FILE E);;
   for_ files
     (fun file =>
        copy_file_with_directory_structure E SOURCE_DIR file
          (DESTINATION_BASE_DIR E ++ [str (img_mtime E (length (trace w)))]));;
   present ← os_path_isfile (COPYING_ACTIVE_FILE E);
   (if present then os_remove (COPYING_ACTIVE_FILE E) else pass);;
   umount E SOURCE_DIR;;
   t ← os_stat_img E;
   modify (fun w => with_last_modify_time w t))
  {| source := source w; mounted := true;
     local := if isfile_in (local w) (COPYING_ACTIVE_FILE E)
              then delete (COPYING_ACTIVE_FILE E) (local w) else local w;
     trace := trace w ++
              [Stat (img_mtime E (length (trace w)));
               Mount device SOURCE_DIR 0; Sleep 500] ++
              (if isfile_in (local w) (COPYING_ACTIVE_FILE E)
               then [Log WARNING (AlreadyExistsRemoving (COPYING_ACTIVE_FILE E));
                     Remove (COPYING_ACTIVE_FILE E)]
               else []);
     cycle_counter := cycle_counter w;
     last_modify_time := last_modify_time w |}.
Proof.
  intros Htrig Hmount Hsrc Hscan.
  rewrite copy_new_files_unfold. cbv zeta.
  apply Z.ltb_lt in Htrig. rewrite Htrig.
  unfold bind at 1. rewrite mount_ok.
  2:{ cbn [trace with_trace]. rewrite length_app. simpl. by rewrite Nat.add_1_r. }
  unfold bind at 1. unfold scan_source at 1.
  cbn [source with_trace with_mounted]. rewrite Hsrc, Hscan.
  unfold bind at 1. unfold os_path_isfile at 1.
  cbn [local with_trace with_mounted].
  unfold bind at 1.
  destruct (isfile_in (local w) (COPYING_ACTIVE_FILE E)) eqn:Hstale.
  - unfold bind at 1. unfold logging at 1, emit at 1.
    unfold os_remove at 1. cbn [local trace with_trace with_mounted].
    rewrite Hstale. unfold with_local, with_trace, with_mounted.
    cbn [source mounted local trace cycle_counter last_modify_time].
    f_equal. f_equal; [done|]. by rewrite <- !app_assoc.
  - unfold pass at 1, ret at 1. unfold with_local, with_trace, with_mounted.
    cbn [source mounted local trace cycle_counter last_modify_time].
    f_equal. f_equal; [done|]. by rewrite <- !app_assoc.
Qed.
End Cycle.

(** What follows the handling of a stale marker begins with the creation
    of the marker. *)
Lemma copy_tail_trace (E : env) (files : list path) (dst : path)
    (w : world) (r : result unit) (w' : world) :
  mounted w = true ->
  (touch (COPYING_ACTIVE_FILE E);;
   for_ files (fun file => copy_file_with_directory_structure E SOURCE_DIR file dst);;
   present ← os_path_isfile (COPYING_ACTIVE_FILE E);
   (if present then os_remove (COPYING_ACTIVE_FILE E) else pass);;
   umount E SOURCE_DIR;;
   t ← os_stat_img E;
   modify (fun w => with_last_modify_time w t)) w = (r, w') ->
  exists rest, trace w' = trace w ++ Touch (COPYING_ACTIVE_FILE E) :: rest.
Proof.
  intros Hmounted H.
  assert (Htouch : forall r4 w4, touch (COPYING_ACTIVE_FILE E) w = (r4, w4) ->
            trace w4 = trace w ++ [Touch (COPYING_ACTIVE_FILE E)] /\
            mounted w4 = mounted w).
  { intros r4 w4. unfold touch.
    destruct (local w !! COPYING_ACTIVE_FILE E);
      [|destruct (isdir_in (local w) (dirname (COPYING_ACTIVE_FILE E)))];
      by intros [= <- <-]. }
  apply bind_inv in H as [([] & w4 & H4 & H)|(e & H4 & _)].
  2:{ apply Htouch in H4 as [-> _]. by exists []. }
  apply Htouch in H4 as [Ht4 Hm4].
  assert (Hrest : released
            (for_ files
               (fun file => copy_file_with_directory_structure E SOURCE_DIR file dst);;
             present ← os_path_isfile (COPYING_ACTIVE_FILE E);
             (if present then os_remove (COPYING_ACTIVE_FILE E) else pass);;
             umount E SOURCE_DIR;;
             t ← os_stat_img E;
             modify (fun w => with_last_modify_time w t))).
  { apply released_bind.
    { apply quiet_for. intros x. apply quiet_copy_file_with_directory_structure. }
    intros _. apply released_bind; [apply quiet_os_path_isfile|intros present].
    apply released_bind.
    { apply quiet_if; [apply quiet_os_remove|apply quiet_pass]. }
    intros _. apply released_umount, settles_stat_modify. }
  destruct (Hrest _ _ _ H) as (rest & Ht & _); [congruence|].
  exists rest. by rewrite Ht, Ht4, <- app_assoc.
Qed.

(** C5.  A copy cycle, that is a turn that finds the image modified:
    when it returns, the marker file is not there.  When it starts with the
    marker of a crashed run in place, one of three things happens.  The
    mount fails: the cycle ends there, with the marker untouched.  Or the
    mounted partition cannot be read: the cycle ends there, with the marker
    untouched.  Or, in every other case, the calls of the cycle begin with
    the reading of the image's time, the mount, the warning, the removal of
    the stale marker and the creation of the new one, ahead of everything
    else and so of any copy. *)
Theorem marker_cleared (E : env) (device : string) (w : world)
    (r : result unit) (w' : world) :
  copy_new_files E device w = (r, w') ->
  last_modify_time w < img_mtime E (length (trace w)) ->
  (r = Ok tt -> isfile_in (local w') (COPYING_ACTIVE_FILE E) = false) /\
  (isfile_in (local w) (COPYING_ACTIVE_FILE E) = true ->
   (mount_rc E (S (length (trace w))) <> 0 /\
    r = Raise MountError /\ local w' = local w /\
    added w w' =
      [Stat (img_mtime E (length (trace w)));
       Mount device SOURCE_DIR (mount_rc E (S (length (trace w))));
       Log ERROR (FailedToMount device SOURCE_DIR)]) \/
   (mount_rc E (S (length (trace w))) = 0 /\ source w = None /\
    r = Raise (OSError SOURCE_DIR) /\ local w' = local w /\
    added w w' =
      [Stat (img_mtime E (length (trace w)));
       Mount device SOURCE_DIR 0; Sleep 500]) \/
   (mount_rc E (S (length (trace w))) = 0 /\ is_Some (source w) /\
    exists rest,
      added w w' =
        [Stat (img_mtime E (length (trace w)));
         Mount device SOURCE_DIR 0; Sleep 500;
         Log WARNING (AlreadyExistsRemoving (COPYING_ACTIVE_FILE E));
         Remove (COPYING_ACTIVE_FILE E);
         Touch (COPYING_ACTIVE_FILE E)] ++ rest)).
Proof.
  intros Hrun Htrig. split.
  - intros ->.
    destruct (copy_new_files_ok E device w w' Hrun Htrig)
      as (root & files & w3 & w4 & w5 & t2 & _ & _ & _ & _ & _ & _ & Hloc & _).
    rewrite Hloc. unfold isfile_in.
    destruct (local w5 !! COPYING_ACTIVE_FILE E) as [[m data|]|] eqn:Hm.
    + by rewrite lookup_delete_eq.
    + by rewrite Hm.
    + by rewrite Hm.
  - intros Hstale.
    assert (Hlen : length (trace w ++ [Stat (img_mtime E (length (trace w)))])
                   = S (length (trace w))).
    { rewrite length_app. simpl. by rewrite Nat.add_1_r. }
    destruct (decide (mount_rc E (S (length (trace w))) = 0)) as [Hrc|Hrc].
    2:{ left. split; [done|].
        rewrite copy_new_files_unfold in Hrun. cbv zeta in Hrun.
        apply Z.ltb_lt in Htrig. rewrite Htrig in Hrun.
        unfold bind at 1 in Hrun. rewrite mount_fails in Hrun.
        2:{ cbn [trace with_trace]. by rewrite Hlen. }
        cbn [trace with_trace] in Hrun. rewrite Hlen in Hrun.
        injection Hrun as <- <-. split; [done|]. split; [done|].
        apply added_app. cbn [trace with_trace]. by rewrite <- app_assoc. }
    right. destruct (source w) as [root|] eqn:Hsrc.
    + right. split; [done|]. split; [by eexists|].
      destruct (scan_returns SOURCE_DIR root (last_modify_time w) 2)
        as [files Hscan].
      rewrite (copy_cycle_begins E device w root files) in Hrun by done.
      rewrite Hstale in Hrun.
      apply copy_tail_trace in Hrun as (rest & Ht); [|done].
      exists rest. apply added_app. rewrite Ht. cbn [trace].
      by rewrite <- !app_assoc.
    + left. split; [done|]. split; [done|].
      rewrite copy_new_files_unfold in Hrun. cbv zeta in Hrun.
      apply Z.ltb_lt in Htrig. rewrite Htrig in Hrun.
      unfold bind at 1 in Hrun. rewrite mount_ok in Hrun.
      2:{ cbn [trace with_trace]. by rewrite Hlen. }
      unfold bind at 1 in Hrun. unfold scan_source at 1 in Hrun.
      cbn [source with_trace with_mounted] in Hrun. rewrite Hsrc in Hrun.
      injection Hrun as <- <-. split; [done|]. split; [done|].
      apply added_app. cbn [trace with_trace]. by rewrite <- app_assoc.
Qed.

(** After a crash between marking and clearing: the next copy cycle. *)
Lemma marker_cleared_witness :
  let w' := (copy_new_files E_calm "loop0p1" w_crashed).2 in
  (copy_new_files E_calm "loop0p1" w_crashed = (Ok tt, w') /\
   last_modify_time w_crashed < img_mtime E_calm (length (trace w_crashed))) /\
  isfile_in (local w_crashed) (COPYING_ACTIVE_FILE E_calm) = true /\
  isfile_in (local w') (COPYING_ACTIVE_FILE E_calm) = false /\
  exists rest,
    added w_crashed w' =
      [Stat 2000; Mount "loop0p1" SOURCE_DIR 0; Sleep 500;
       Log WARNING (AlreadyExistsRemoving (COPYING_ACTIVE_FILE E_calm));
       Remove (COPYING_ACTIVE_FILE E_calm);
       Touch (COPYING_ACTIVE_FILE E_calm)] ++ rest.
Proof.
  intros w'.
  assert (H1 : copy_new_files E_calm "loop0p1" w_crashed = (Ok tt, w'))
    by (vm_compute; reflexivity).
  assert (H2 : last_modify_time w_crashed
               < img_mtime E_calm (length (trace w_crashed)))
    by (simpl; lia).
  assert (H3 : isfile_in (local w_crashed) (COPYING_ACTIVE_FILE E_calm) = true)
    by (vm_compute; reflexivity).
  split; [exact (conj H1 H2)|]. split; [exact H3|].
  destruct (marker_cleared E_calm "loop0p1" w_crashed (Ok tt) w' H1 H2)
    as [Hgone Hfirst].
  split; [exact (Hgone eq_refl)|].
  destruct (Hfirst H3) as [(_ & Hr & _)|[(_ & _ & Hr & _)|(_ & _ & Hrest)]];
    [discriminate Hr|discriminate Hr|exact Hrest].
Defined.

(** ** A copy that fails in the middle of a batch *)

Lemma isdir_in_delete (fs : gmap path lnode) (p q : path) :
  p <> q -> isdir_in (delete q fs) p = isdir_in fs p.
Proof.
  intros Hne. unfold isdir_in. destruct p as [|x p]; [done|].
  by rewrite lookup_delete_ne.
Qed.

Lemma mirrored_keeps (root : node) (batch : path) (fs fs' : gmap path lnode)
    (rel : path) :
  (forall k v, fs !! k = Some v -> fs' !! k = Some v) ->
  mirrored root batch fs rel -> mirrored root batch fs' rel.
Proof.
  intros Hkeep (m & c & data & Hlook & Hfile & Hdirs).
  exists m, c, data. split; [done|]. split; [by apply Hkeep|].
  intros j Hj. by apply Hkeep, Hdirs.
Qed.

Lemma copy_sources_app (evs1 evs2 : list event) :
  copy_sources (evs1 ++ evs2) = copy_sources evs1 ++ copy_sources evs2.
Proof. apply omap_app. Qed.

Section FailedCopy.
Context (E : env) (batch : path).

(** A copy that raises has taken nothing away and overwritten nothing. *)
Lemma copy_file_raise_keeps p w e w' :
  copy_file_with_directory_structure E SOURCE_DIR p batch w = (Raise e, w') ->
  forall k v, local w !! k = Some v -> local w' !! k = Some v.
Proof.
  unfold copy_file_with_directory_structure.
  destruct (relpath p SOURCE_DIR) as [rel|]; [|by intros [= _ <-]].
  intros H. apply bind_inv in H as [([] & w1 & Hlog & H)|(e' & [=] & _)].
  injection Hlog as <-.
  apply bind_inv in H as [([] & w2 & Hmk & H)|(e' & Hmk & _)].
  - unfold os_makedirs in Hmk. cbn [local with_trace] in Hmk.
    destruct (makedirs_from [] (batch ++ dirname rel) (local w)) as [fs1|] eqn:Hfs1;
      [|done].
    injection Hmk as <-.
    assert (Hkeep : forall k v, local w !! k = Some v -> fs1 !! k = Some v).
    { intros k v. by apply (makedirs_from_keeps _ _ _ _ Hfs1). }
    unfold shutil_copy2 in H.
    destruct (copy_fails E p); [by injection H as _ <-|].
    destruct (read_source _ p) as [[m c data|m es]|];
      [|by injection H as _ <-..].
    match type of H with (if ?b then _ else _) = _ => destruct b end;
      [by injection H as _ <-|done].
  - unfold os_makedirs in Hmk. cbn [local with_trace] in Hmk.
    destruct (makedirs_from [] (batch ++ dirname rel) (local w)); [done|].
    by injection Hmk as _ <-.
Qed.

(** The copies a call makes: one, of the file itself, when it returns;
    at most that one when it raises. *)
Lemma copy_file_sources p w r w' :
  copy_file_with_directory_structure E SOURCE_DIR p batch w = (r, w') ->
  exists evs, trace w' = trace w ++ evs /\
    match r with
    | Ok _ => copy_sources evs = [p]
    | Raise _ => copy_sources evs = [] \/ copy_sources evs = [p]
    end.
Proof.
  unfold copy_file_with_directory_structure.
  destruct (relpath p SOURCE_DIR) as [rel|].
  2:{ intros [= <- <-]. exists []. split; [by rewrite app_nil_r|by left]. }
  intros H. apply bind_inv in H as [([] & w1 & Hlog & H)|(e' & [=] & _)].
  injection Hlog as <-.
  apply bind_inv in H as [([] & w2 & Hmk & H)|(e' & Hmk & ->)].
  - unfold os_makedirs in Hmk. cbn [local trace with_trace] in Hmk.
    destruct (makedirs_from [] (batch ++ dirname rel) (local w)) as [fs1|];
      [|done].
    injection Hmk as <-.
    assert (Ht : trace w' =
              trace w ++ [Log INFO (CopyTo p (batch ++ dirname rel));
                          Makedirs (batch ++ dirname rel);
                          Copy2 p (batch ++ dirname rel)]).
    { unfold shutil_copy2 in H. cbn [local trace with_trace with_local] in H.
      destruct (copy_fails E p);
        [injection H as _ <-; cbn [trace with_trace]; by rewrite <- !app_assoc|].
      destruct (read_source _ p) as [[m c data|m es]|];
        [|injection H as _ <-; cbn [trace with_trace]; by rewrite <- !app_assoc..].
      match type of H with (if ?b then _ else _) = _ => destruct b end;
        injection H as _ <-; cbn [trace with_trace with_local];
        by rewrite <- !app_assoc. }
    eexists. split; [exact Ht|]. destruct r; [done|by right].
  - unfold os_makedirs in Hmk. cbn [local trace with_trace] in Hmk.
    destruct (makedirs_from [] (batch ++ dirname rel) (local w)); [done|].
    injection Hmk as _ <-. cbn [trace with_trace].
    eexists [_; _]. split; [by rewrite <- !app_assoc|by left].
Qed.

Lemma copy_loop_sources files : forall w w',
  for_ files (fun file => copy_file_with_directory_structure E SOURCE_DIR file batch) w
    = (Ok tt, w') ->
  exists evs, trace w' = trace w ++ evs /\ copy_sources evs = files.
Proof.
  induction files as [|p files IH]; intros w w' H; simpl in H.
  - injection H as <-. exists []. by rewrite app_nil_r.
  - apply bind_ok in H as ([] & w1 & Hstep & H).
    apply copy_file_sources in Hstep as (evs1 & Ht1 & Hs1).
    apply IH in H as (evs2 & Ht2 & Hs2).
    exists (evs1 ++ evs2). split; [by rewrite Ht2, Ht1, app_assoc|].
    by rewrite copy_sources_app, Hs1, Hs2.
Qed.
End FailedCopy.

(** C2, as amended.  When the copy of one of the changed files fails, the
    exception leaves the cycle with the watermark as it was, and leaves the
    main loop with it, however many turns the loop had left: no later poll
    tick looks at the image again.  The handler around the loop logs the
    exception, and with that the poller ends: nothing is cleaned up.  When
    the cycle had mounted the partition and created the marker, the batch
    is abandoned as it is: the marker file is still in place and the
    partition is still mounted; the files listed before the one whose copy
    failed were copied, and are in the batch directory with their content;
    the files listed after it were not copied. *)
Theorem failed_copy_ends_the_loop (E : env) (device : string) (config : config)
    (ticks : nat) (w w1 : world) (root : node) (files : list path) (f : path) :
  check_and_delete_on_usb E device config w = (Ok tt, w1) ->
  last_modify_time w1 < img_mtime E (length (trace w1)) ->
  source w1 = Some root ->
  scan SOURCE_DIR root (last_modify_time w1) 2 = Some files ->
  f ∈ files -> copy_fails E f = true ->
  exists e w2,
    copy_new_files E device w1 = (Raise e, w2) /\
    last_modify_time w2 = last_modify_time w1 /\
    main_loop E device config (S ticks) w = (Raise e, w2) /\
    main_loop E device config 1 w = (Raise e, w2) /\
    (forall w0 turns,
       main_loop E device config turns (started E w0) = (Ok tt, w) ->
       main E device config (turns + S ticks) w0 =
         (Ok tt, with_trace w2 (trace w2 ++ [Log ERROR (Traceback e)]))) /\
    (mount_rc E (S (length (trace w1))) = 0 ->
     isdir_in (local w1) (DESTINATION_BASE_DIR E) = true ->
     local w1 !! COPYING_ACTIVE_FILE E <> Some LDir ->
     isfile_in (local w2) (COPYING_ACTIVE_FILE E) = true /\
     mounted w2 = true /\
     exists copied failed skipped,
       files = copied ++ failed :: skipped /\
       (forall p, p ∈ copied -> copy_fails E p = false) /\
       (copy_sources (added w1 w2) = copied \/
        copy_sources (added w1 w2) = copied ++ [failed]) /\
       forall p, p ∈ copied ->
         exists rel, p = SOURCE_DIR ++ rel /\
           mirrored root
             (DESTINATION_BASE_DIR E ++ [str (img_mtime E (length (trace w1)))])
             (local w2) rel).
Proof.
  intros Hcheck Htrig Hsrc Hscan Hf Hfail.
  destruct (copy_new_files_fails E device w1 root files f) as (e & w2 & Hrun);
    [done..|].
  assert (Hloop1 : forall n, main_loop E device config (S n) w = (Raise e, w2)).
  { intros n. simpl. unfold bind. by rewrite Hcheck, Hrun. }
  exists e, w2. split; [done|]. split.
  { by eapply copy_new_files_raise_keeps_watermark. }
  split; [apply Hloop1|]. split; [apply Hloop1|]. split.
  { intros w0 turns Hturns. rewrite main_started.
    by rewrite (main_loop_app _ _ _ _ _ _ _ Hturns), Hloop1. }
  intros Hmount Hdir Hnodir.
  set (batch := DESTINATION_BASE_DIR E ++ [str (img_mtime E (length (trace w1)))]).
  rewrite (copy_cycle_begins E device w1 root files) in Hrun by done.
  fold batch in Hrun.
  match type of Hrun with _ ?w = _ => set (w3 := w) in Hrun end.
  assert (Hne : DESTINATION_BASE_DIR E <> COPYING_ACTIVE_FILE E).
  { unfold COPYING_ACTIVE_FILE. intros Heq. apply (f_equal length) in Heq.
    rewrite length_app in Heq. simpl in Heq. lia. }
  assert (Habsent : local w3 !! COPYING_ACTIVE_FILE E = None).
  { subst w3. cbn [local]. unfold isfile_in.
    destruct (local w1 !! COPYING_ACTIVE_FILE E) as [[a b|]|] eqn:Hm.
    - by rewrite lookup_delete_eq.
    - done.
    - done. }
  assert (Hdir3 : isdir_in (local w3) (DESTINATION_BASE_DIR E) = true).
  { subst w3. cbn [local].
    destruct (isfile_in (local w1) (COPYING_ACTIVE_FILE E)); [|done].
    by rewrite isdir_in_delete. }
  apply bind_inv in Hrun as [([] & w4 & Htouch & Hrun)|(e' & Htouch & _)].
  2:{ unfold touch in Htouch. rewrite Habsent in Htouch.
      unfold COPYING_ACTIVE_FILE at 1 in Htouch.
      by rewrite dirname_app, Hdir3 in Htouch. }
  unfold touch in Htouch. rewrite Habsent in Htouch.
  unfold COPYING_ACTIVE_FILE at 1 in Htouch.
  rewrite dirname_app, Hdir3 in Htouch. injection Htouch as <-.
  match type of Hrun with _ ?w = _ => set (w4 := w) in Hrun end.
  assert (Hthere : isfile_in (local w4) (COPYING_ACTIVE_FILE E) = true).
  { subst w4. unfold isfile_in. cbn [local with_local with_trace].
    by rewrite lookup_insert_eq. }
  apply bind_inv in Hrun as [([] & w5 & Hloop & _)|(e' & Hloop & [= <-])].
  { destruct (fails_for files (fun file =>
                copy_file_with_directory_structure E SOURCE_DIR file batch)
                f Hf (fails_copy_file E SOURCE_DIR f batch Hfail) w4)
      as (x & wx & Hx).
    rewrite Hx in Hloop. discriminate. }
  split.
  { by destruct (kept_copy_loop E (COPYING_ACTIVE_FILE E) _ _ _ _ _ _ Hloop)
      as [_ Hkept]; apply Hkept. }
  split.
  { assert (Hq : quiet (for_ files (fun file =>
                   copy_file_with_directory_structure E SOURCE_DIR file batch))).
    { apply quiet_for. intros x. apply quiet_copy_file_with_directory_structure. }
    by destruct (Hq _ _ _ Hloop) as (_ & -> & _). }
  destruct (for_raise_split _ _ _ _ _ Hloop)
    as (copied & failed & skipped & wm & Hfiles & Hcopied & Hfailed).
  exists copied, failed, skipped. split; [done|]. split.
  { intros p Hp. destruct (copy_fails E p) eqn:Hcp; [|done].
    destruct (for_ok_each _ _ _ _ Hcopied p Hp) as (wa & wb & Hok).
    destruct (fails_copy_file E SOURCE_DIR p batch Hcp wa) as (x & wx & Hx).
    rewrite Hx in Hok. discriminate. }
  assert (Hbelow : forall p, p ∈ copied ->
            exists rel, p = SOURCE_DIR ++ rel /\ rel <> []).
  { intros p Hp. eapply scan_below; [exact Hscan|].
    rewrite Hfiles. apply elem_of_app. by left. }
  split.
  - destruct (copy_loop_sources E batch _ _ _ Hcopied) as (evs1 & Ht1 & Hs1).
    destruct (copy_file_sources E batch _ _ _ _ Hfailed) as (evs2 & Ht2 & Hs2).
    assert (Hadd : copy_sources (added w1 w2) = copied ++ copy_sources evs2).
    { erewrite added_app.
      2:{ rewrite Ht2, Ht1. subst w4 w3. cbn [trace with_trace with_local].
          rewrite <- !app_assoc. reflexivity. }
      rewrite !copy_sources_app, Hs1.
      by destruct (isfile_in (local w1) (COPYING_ACTIVE_FILE E)). }
    rewrite Hadd. destruct Hs2 as [->| ->]; [left; by rewrite app_nil_r|by right].
  - intros p Hp.
    destruct (mirrored_loop E root batch copied w4 wm) as (_ & _ & Hall);
      [by subst w4 w3|done|done|].
    destruct (Hall p Hp) as (rel & -> & Hm). exists rel. split; [done|].
    eapply mirrored_keeps; [|exact Hm].
    by apply (copy_file_raise_keeps E batch _ _ _ _ Hfailed).
Qed.

(** The copy of [sub/b.txt] fails in the first cycle after the start:
    [a.txt] is in the batch directory, the marker is in place, and the
    poller has ended. *)
Lemma failed_copy_ends_the_loop_witness :
  let w1 := with_cycle_counter w_started 1 in
  let files := [["mnt"; "usb_share"; "a.txt"];
                ["mnt"; "usb_share"; "sub"; "b.txt"]]%string in
  let f := ["mnt"; "usb_share"; "sub"; "b.txt"]%string in
  let w2 := (copy_new_files E_copy_fails "loop0p1" w1).2 in
  (check_and_delete_on_usb E_copy_fails "loop0p1" (every_minute 10) w_started
     = (Ok tt, w1) /\
   last_modify_time w1 < img_mtime E_copy_fails (length (trace w1)) /\
   source w1 = Some usb_tree /\
   scan SOURCE_DIR usb_tree (last_modify_time w1) 2 = Some files /\
   f ∈ files /\ copy_fails E_copy_fails f = true) /\
  copy_new_files E_copy_fails "loop0p1" w1 = (Raise (OSError f), w2) /\
  last_modify_time w2 = last_modify_time w1 /\
  main_loop E_copy_fails "loop0p1" (every_minute 10) 4 w_started
    = (Raise (OSError f), w2) /\
  main E_copy_fails "loop0p1" (every_minute 10) 4 w_idle
    = (Ok tt, with_trace w2 (trace w2 ++ [Log ERROR (Traceback (OSError f))])) /\
  isfile_in (local w2) (COPYING_ACTIVE_FILE E_copy_fails) = true /\
  mounted w2 = true /\
  mirrored usb_tree ["home"; "pi"; "transfer"; "2000"]%string (local w2)
    ["a.txt"%string].
Proof.
  intros w1 files f w2.
  assert (H1 : check_and_delete_on_usb E_copy_fails "loop0p1" (every_minute 10)
                 w_started = (Ok tt, w1)) by reflexivity.
  assert (H2 : last_modify_time w1 < img_mtime E_copy_fails (length (trace w1)))
    by (simpl; lia).
  assert (H3 : source w1 = Some usb_tree) by reflexivity.
  assert (H4 : scan SOURCE_DIR usb_tree (last_modify_time w1) 2 = Some files)
    by reflexivity.
  assert (H5 : f ∈ files) by (right; left).
  assert (H6 : copy_fails E_copy_fails f = true) by reflexivity.
  split; [exact (conj H1 (conj H2 (conj H3 (conj H4 (conj H5 H6)))))|].
  destruct (failed_copy_ends_the_loop E_copy_fails "loop0p1" (every_minute 10) 3
              w_started w1 usb_tree files f H1 H2 H3 H4 H5 H6)
    as (e & w2' & Hrun & Hmark & Hloop & _ & Hmain & Hstage).
  assert (Hc : copy_new_files E_copy_fails "loop0p1" w1 = (Raise (OSError f), w2))
    by (vm_compute; reflexivity).
  rewrite Hc in Hrun. injection Hrun as <- <-.
  split; [exact Hc|]. split; [exact Hmark|]. split; [exact Hloop|].
  split; [exact (Hmain w_idle 0%nat eq_refl)|].
  assert (H7 : mount_rc E_copy_fails (S (length (trace w1))) = 0) by reflexivity.
  assert (H8 : isdir_in (local w1) (DESTINATION_BASE_DIR E_copy_fails) = true)
    by (vm_compute; reflexivity).
  assert (H0 : local w1 !! COPYING_ACTIVE_FILE E_copy_fails = None)
    by (vm_compute; reflexivity).
  assert (H9 : local w1 !! COPYING_ACTIVE_FILE E_copy_fails <> Some LDir)
    by (rewrite H0; discriminate).
  destruct (Hstage H7 H8 H9)
    as (Hmarker & Hmounted & copied & failed & skipped & Hfiles & _ & Hs & Hmir).
  split; [exact Hmarker|]. split; [exact Hmounted|].
  assert (Hcs : copy_sources (added w1 w2) = files) by (vm_compute; reflexivity).
  rewrite Hcs in Hs.
  assert (Hin : ["mnt"; "usb_share"; "a.txt"]%string ∈ copied).
  { destruct Hs as [<-|Hs].
    - apply (f_equal length) in Hfiles. rewrite length_app in Hfiles.
      simpl in Hfiles. lia.
    - destruct copied as [|c1 copied]; [discriminate Hs|].
      injection Hs as <- _. by left. }
  destruct (Hmir _ Hin) as (rel & Hrel & Hm).
  apply (app_inv_head SOURCE_DIR) in Hrel. by subst rel.
Defined.

End CopyFacts.

(** * Facts about the forwarder *)
Module UploadFacts.
Import Upload.
#[local] Open Scope forwarder_scope.

Section Waiting.
Context (E : env) (p : path).

Lemma added_events (w : world) evs t c :
  added w {| transfer := t; trace := trace w ++ evs; clock := c |} = evs.
Proof. unfold added. simpl. by rewrite drop_app_length. Qed.

(** The marker is there for [k] polls and gone at the next one. *)
Lemma wait_loop_clear (k : nat) : forall fuel max_time w,
  (k < fuel)%nat -> max_time + Z.of_nat k <= 30 ->
  (forall i, (i < k)%nat ->
     marker_present E (clock w + 1000 * Z.of_nat i) = true) ->
  marker_present E (clock w + 1000 * Z.of_nat k) = false ->
  wait_loop E fuel p max_time w =
  (Ok tt, {| transfer := transfer w;
             trace := trace w ++ rounds p k ++ [IsFile p false];
             clock := clock w + 1000 * Z.of_nat k |}).
Proof.
  induction k as [|k IH]; intros fuel max_time w Hfuel Hmax Hthere Hgone;
    (destruct fuel as [|fuel]; [lia|]); simpl; unfold bind, os_path_isfile.
  - replace (clock w + 1000 * Z.of_nat 0) with (clock w) in Hgone by lia.
    rewrite Hgone. unfold pass, ret, with_trace. simpl.
    do 2 f_equal. lia.
  - pose proof (Hthere O ltac:(lia)) as H0.
    replace (clock w + 1000 * Z.of_nat 0) with (clock w) in H0 by lia.
    rewrite H0. unfold time_sleep. simpl.
    destruct (30 <? max_time + 1) eqn:Hlt; [apply Z.ltb_lt in Hlt; lia|].
    rewrite (IH fuel (max_time + 1)); simpl.
    + f_equal. f_equal.
      * by rewrite <- !app_assoc.
      * lia.
    + lia.
    + lia.
    + intros i Hi. specialize (Hthere (S i) ltac:(lia)).
      rewrite <- Hthere. f_equal. lia.
    + rewrite <- Hgone. f_equal. lia.
Qed.

(** The marker is there at every poll until [max_time] passes 30. *)
Lemma wait_loop_timeout (k : nat) : forall fuel max_time w,
  (1 <= k <= fuel)%nat -> max_time + Z.of_nat k = 31 ->
  (forall i, (i < k)%nat ->
     marker_present E (clock w + 1000 * Z.of_nat i) = true) ->
  wait_loop E fuel p max_time w =
  (Ok tt, {| transfer := transfer w;
             trace := trace w ++ rounds p k ++ [Log WARNING TimedOutWaiting];
             clock := clock w + 1000 * Z.of_nat k |}).
Proof.
  induction k as [|k IH]; intros fuel max_time w Hfuel Hmax Hthere; [lia|].
  destruct fuel as [|fuel]; [lia|]. simpl. unfold bind, os_path_isfile.
  pose proof (Hthere O ltac:(lia)) as H0.
  replace (clock w + 1000 * Z.of_nat 0) with (clock w) in H0 by lia.
  rewrite H0. unfold time_sleep. simpl.
  destruct (30 <? max_time + 1) eqn:Hlt.
  - apply Z.ltb_lt in Hlt. assert (k = O) as -> by lia.
    unfold logging, emit, with_trace. simpl.
    f_equal. f_equal. by rewrite <- !app_assoc.
  - apply Z.ltb_ge in Hlt.
    rewrite (IH fuel (max_time + 1)); simpl.
    + f_equal. f_equal.
      * by rewrite <- !app_assoc.
      * lia.
    + lia.
    + lia.
    + intros i Hi. specialize (Hthere (S i) ltac:(lia)).
      rewrite <- Hthere. f_equal. lia.
Qed.

(** With fuel for the polls that are left the loop returns, and by then
    it has slept no longer than those polls take. *)
Lemma wait_loop_returns (fuel : nat) : forall max_time w,
  0 <= max_time <= 30 -> 31 - max_time <= Z.of_nat fuel ->
  exists w', wait_loop E fuel p max_time w = (Ok tt, w') /\
    clock w <= clock w' <= clock w + 1000 * (31 - max_time).
Proof.
  induction fuel as [|fuel IH]; intros max_time w Hmax Hfuel; [lia|].
  simpl. unfold bind, os_path_isfile.
  destruct (marker_present E (clock w)); simpl.
  - destruct (30 <? max_time + 1) eqn:Hlt.
    + eexists. split; [reflexivity|]. simpl. lia.
    + apply Z.ltb_ge in Hlt.
      edestruct (IH (max_time + 1)) as (w' & -> & Hc); [lia|lia|].
      eexists. split; [reflexivity|]. simpl in Hc. lia.
  - eexists. split; [reflexivity|]. simpl. lia.
Qed.
End Waiting.

(** C8, as amended.  The wait polls for the marker once per second and
    returns at the first poll that finds it absent; when the marker is there
    at each of the 31 polls from second 0 to second 30, the wait logs a
    warning after the 31st second of sleep and returns all the same.  It
    always returns, and never sleeps for more than 31 seconds. *)
Theorem wait_until_no_copying_active_bound (E : env) (fuel : nat) (p : path)
    (w : world) :
  (31 <= fuel)%nat ->
  exists w', wait_until_no_copying_active E fuel p w = (Ok tt, w') /\
    clock w <= clock w' <= clock w + 31000 /\
    (forall k, (k <= 30)%nat ->
       (forall i, (i < k)%nat ->
          marker_present E (clock w + 1000 * Z.of_nat i) = true) ->
       marker_present E (clock w + 1000 * Z.of_nat k) = false ->
       clock w' = clock w + 1000 * Z.of_nat k /\
       added w w' = rounds p k ++ [IsFile p false]) /\
    ((forall i, (i <= 30)%nat ->
        marker_present E (clock w + 1000 * Z.of_nat i) = true) ->
     clock w' = clock w + 31000 /\
     added w w' = rounds p 31 ++ [Log WARNING TimedOutWaiting]).
Proof.
  intros Hfuel. unfold wait_until_no_copying_active.
  destruct (wait_loop_returns E p fuel 0 w) as (w' & Hw' & Hc); [lia|lia|].
  exists w'. split; [done|]. split; [lia|]. split.
  - intros k Hk Hthere Hgone.
    rewrite (wait_loop_clear E p k fuel 0 w) in Hw' by (done || lia).
    injection Hw' as <-. split; [done|]. apply added_events.
  - intros Hthere.
    rewrite (wait_loop_timeout E p 31 fuel 0 w) in Hw'.
    + injection Hw' as <-. split; [simpl; lia|]. apply added_events.
    + lia.
    + lia.
    + intros i Hi. apply Hthere. lia.
Qed.

(** C8, the claim as it stands, fails: with the marker never cleared the
    wait returns only after 31 seconds of sleep, one more than the 30 the
    claim allows. *)
Lemma wait_sleeps_31_seconds :
  exists w',
    wait_until_no_copying_active E_stuck 31 (COPYING_ACTIVE_FILE E_stuck) w_start
      = (Ok tt, w') /\
    clock w' - clock w_start = 31000 /\
    ~ (clock w' - clock w_start <= 30000).
Proof.
  eexists. split; [vm_compute; reflexivity|]. simpl. lia.
Qed.

(** The scenario of the specification: the marker is there when the wait
    starts and is cleared after five seconds. *)
Lemma wait_until_no_copying_active_bound_witness :
  (31 <= 31)%nat /\
  exists w',
    wait_until_no_copying_active E_cleared 31 (COPYING_ACTIVE_FILE E_cleared) w_start
      = (Ok tt, w') /\
    clock w' = 5000 /\
    added w_start w' =
      rounds (COPYING_ACTIVE_FILE E_cleared) 5 ++
      [IsFile (COPYING_ACTIVE_FILE E_cleared) false].
Proof.
  split; [lia|].
  destruct (wait_until_no_copying_active_bound E_cleared 31
              (COPYING_ACTIVE_FILE E_cleared) w_start ltac:(lia))
    as (w' & Hrun & _ & Hclear & _).
  exists w'. split; [exact Hrun|].
  apply (Hclear 5%nat); [lia| |reflexivity].
  intros i Hi. do 5 (destruct i as [|i]; [reflexivity|]). lia.
Defined.

(** ** Dispatching a batch *)
Section Dispatch.
Context (E : env) (config : gmap string value).

(** The secure copy is attempted and ends in [Ok] whatever its outcome. *)
Lemma transfer_via_scp_harmless source_dir w :
  exists evs,
    harmless (transfer_via_scp E source_dir config) w evs /\
    exists e, e ∈ evs /\ scp_attempt source_dir e.
Proof.
  unfold harmless, transfer_via_scp, try_except, bind, getitem,
    subprocess_run_scp, logging, emit, raise, ret, with_trace, scp_attempt.
  simpl.
  destruct (config !! "ScpPath"%string) as [v|]; simpl.
  2:{ eexists. split; [split; [reflexivity|]|].
      - repeat constructor; intros p; discriminate.
      - eexists. split; [by left|]. right. by eexists. }
  destruct (scp_rc E (source_dir ++ ["*"%string])) as [rc|]; simpl.
  2:{ eexists. split; [split; [reflexivity|]|].
      - repeat constructor; intros p; discriminate.
      - eexists. split; [by left|]. right. by eexists. }
  destruct (rc =? 0); simpl;
    (eexists; split; [split; [rewrite <- app_assoc; reflexivity|]|];
     [repeat constructor; intros p; discriminate
     |eexists; split; [by left|]; left; by do 2 eexists]).
Qed.
End Dispatch.

(** Every listed file lies below the batch directory. *)
Lemma get_all_files_below (n : node) : forall folder f,
  f ∈ get_all_files folder n -> exists rel, f = folder ++ rel /\ rel <> [].
Proof.
  induction n as [a b c|m es IH] using node_ind; intros folder f; simpl.
  { intros H. by apply elem_of_nil in H. }
  intros Hf. apply list_elem_of_In, in_flat_map in Hf as (item & Hitem & Hf).
  apply list_elem_of_In in Hitem, Hf.
  rewrite Forall_forall in IH. specialize (IH item Hitem).
  destruct item as [name [a b c|m' es']]; simpl in *.
  - apply list_elem_of_singleton in Hf as ->. by exists [name].
  - apply IH in Hf as (rel & -> & _). exists (name :: rel).
    split; [by rewrite <- app_assoc|done].
Qed.

Section Attempts.
Context (E : env) (config : gmap string value) (source_dir : path).

Lemma upload_attempt_app_l file evs1 evs2 :
  upload_attempt E config source_dir file evs1 ->
  upload_attempt E config source_dir file (evs1 ++ evs2).
Proof.
  intros (Hopen & Hcall & Hfail). split; [|split].
  - apply elem_of_app. by left.
  - intros Ho v Hv. destruct (Hcall Ho v Hv) as (rel & Hrel & Hin).
    exists rel. split; [done|]. apply elem_of_app. by left.
  - intros H. destruct (Hfail H) as (e & Hin & He).
    exists e. split; [|done]. apply elem_of_app. by left.
Qed.

Lemma upload_attempt_app_r file evs1 evs2 :
  upload_attempt E config source_dir file evs2 ->
  upload_attempt E config source_dir file (evs1 ++ evs2).
Proof.
  intros (Hopen & Hcall & Hfail). split; [|split].
  - apply elem_of_app. by right.
  - intros Ho v Hv. destruct (Hcall Ho v Hv) as (rel & Hrel & Hin).
    exists rel. split; [done|]. apply elem_of_app. by right.
  - intros H. destruct (Hfail H) as (e & Hin & He).
    exists e. split; [|done]. apply elem_of_app. by right.
Qed.

(** The upload of a file of the batch ends in [Ok] whatever happens to
    it: the file is opened, the upload is called if it can be, and what
    goes wrong is logged. *)
Lemma upload_file_attempt rel w :
  exists evs,
    harmless (upload_file E source_dir config (source_dir ++ rel)) w evs /\
    upload_attempt E config source_dir (source_dir ++ rel) evs.
Proof.
  unfold harmless, upload_attempt, upload_failure, upload_file, try_except,
    bind, open_rb, getitem, dbx_files_upload, logging, emit, raise, ret,
    with_trace.
  rewrite relpath_below. simpl.
  destruct (open_fails E (source_dir ++ rel)) eqn:Hopen; simpl.
  { eexists. split; [split; [rewrite <- app_assoc; reflexivity|]|].
    - repeat constructor; intros p; discriminate.
    - split; [by left|]. split; [done|]. intros _.
      eexists. split; [right; by left|]. right. by eexists. }
  destruct (config !! "DropBoxPath"%string) as [v|] eqn:Hv; simpl.
  2:{ eexists. split; [split; [rewrite <- app_assoc; reflexivity|]|].
      - repeat constructor; intros p; discriminate.
      - split; [by left|]. split; [done|]. intros _.
        eexists. split; [right; by left|]. right. by eexists. }
  destruct (files_upload E (source_dir ++ rel)) eqn:Hup; simpl;
    (eexists; split; [split; [rewrite <- !app_assoc; reflexivity|]|];
     [repeat constructor; intros p; discriminate|]);
    (split; [by left|]);
    (split; [intros _ v' [= <-]; exists rel; split; [done|];
             right; right; by left|]).
  - intros [H|[H|H]]; done.
  - intros _. eexists. split; [right; right; right; by left|]. by left.
  - intros _. eexists. split; [right; right; right; by left|].
    right. by eexists.
Qed.

Lemma uploads_attempt files : forall w,
  (forall f, f ∈ files -> exists rel, f = source_dir ++ rel) ->
  exists evs,
    harmless (for_ files (upload_file E source_dir config)) w evs /\
    forall f, f ∈ files -> upload_attempt E config source_dir f evs.
Proof.
  induction files as [|f files IH]; intros w Hbelow; simpl.
  - exists []. split.
    + split; [|constructor]. unfold pass, ret. rewrite app_nil_r. by destruct w.
    + intros f Hf. by apply elem_of_nil in Hf.
  - destruct (Hbelow f) as (rel & ->); [by left|].
    destruct (upload_file_attempt rel w) as (evs1 & [Hrun1 Hno1] & Hatt1).
    destruct (IH {| transfer := transfer w; trace := trace w ++ evs1;
                    clock := clock w |}) as (evs2 & [Hrun2 Hno2] & Hatt2).
    { intros g Hg. apply Hbelow. by right. }
    exists (evs1 ++ evs2). split.
    + split.
      * unfold bind. rewrite Hrun1, Hrun2. simpl. by rewrite <- app_assoc.
      * by apply Forall_app.
    + intros g Hg. apply elem_of_cons in Hg as [->|Hg].
      * by apply upload_attempt_app_l.
      * by apply upload_attempt_app_r, Hatt2.
Qed.
End Attempts.

Lemma transfer_to_dropbox_attempt (E : env) (config : gmap string value)
    (folder : DirEntry) (w : world) :
  has_credentials config ->
  exists evs,
    harmless (transfer_to_dropbox E folder config) w evs /\
    forall f, f ∈ get_all_files (de_path folder) (de_node folder) ->
              upload_attempt E config (de_path folder) f evs.
Proof.
  intros ([t Ht] & [k Hk] & [s Hs]).
  destruct (uploads_attempt E config (de_path folder)
              (get_all_files (de_path folder) (de_node folder)) w)
    as (evs & [Hrun Hno] & Hatt).
  { intros f Hf. apply get_all_files_below in Hf as (rel & -> & _). by exists rel. }
  exists evs. split; [|done]. split; [|done].
  unfold transfer_to_dropbox, bind, getitem. rewrite Ht, Hk, Hs. simpl.
  exact Hrun.
Qed.

(** The sinks of a dispatch return, keep staging area and clock, and
    remove nothing; each one that is enabled has made its attempts. *)
Lemma sinks_attempt (E : env) (config : gmap string value)
    (folder : DirEntry) (w : world) :
  (truthy (get_or_false config "ActivateDropboxSync") = true ->
   has_credentials config) ->
  exists before,
    dispatch E config folder w =
      shutil_rmtree E folder
        {| transfer := transfer w; trace := trace w ++ before; clock := clock w |} /\
    Forall not_rmtree before /\
    (truthy (get_or_false config "ActivateDropboxSync") = true ->
     forall f, f ∈ get_all_files (de_path folder) (de_node folder) ->
               upload_attempt E config (de_path folder) f before) /\
    (truthy (get_or_false config "ActivateScpSync") = true ->
     exists e, e ∈ before /\ scp_attempt (de_path folder) e).
Proof.
  intros Hcred. unfold dispatch.
  assert (exists evs1,
    harmless (if truthy (get_or_false config "ActivateDropboxSync")
              then transfer_to_dropbox E folder config else pass) w evs1 /\
    (truthy (get_or_false config "ActivateDropboxSync") = true ->
     forall f, f ∈ get_all_files (de_path folder) (de_node folder) ->
               upload_attempt E config (de_path folder) f evs1))
    as (evs1 & [Hrun1 Hno1] & Hatt).
  { destruct (truthy (get_or_false config "ActivateDropboxSync")).
    - destruct (transfer_to_dropbox_attempt E config folder w (Hcred eq_refl))
        as (evs & H & Ho). exists evs. by split.
    - exists []. split; [|done]. split; [|constructor].
      unfold pass, ret. rewrite app_nil_r. by destruct w. }
  set (w1 := {| transfer := transfer w; trace := trace w ++ evs1;
                clock := clock w |}) in *.
  assert (exists evs2,
    harmless (if truthy (get_or_false config "ActivateScpSync")
              then transfer_via_scp E (de_path folder) config else pass) w1 evs2 /\
    (truthy (get_or_false config "ActivateScpSync") = true ->
     exists e, e ∈ evs2 /\ scp_attempt (de_path folder) e))
    as (evs2 & [Hrun2 Hno2] & Hscp).
  { destruct (truthy (get_or_false config "ActivateScpSync")).
    - destruct (transfer_via_scp_harmless E config (de_path folder) w1)
        as (evs & H & Hs). exists evs. by split.
    - exists []. split; [|done]. split; [|constructor].
      unfold pass, ret. rewrite app_nil_r. by destruct w1. }
  exists (evs1 ++ evs2). split; [|split; [by apply Forall_app|split]].
  - unfold bind. rewrite Hrun1. fold w1. rewrite Hrun2.
    subst w1. simpl. by rewrite <- app_assoc.
  - intros H f Hf. by apply upload_attempt_app_l, Hatt.
  - intros H. destruct (Hscp H) as (e & He & Ha).
    exists e. split; [apply elem_of_app; by right|done].
Qed.

(** The removal makes one call, whatever its outcome. *)
Lemma shutil_rmtree_trace (E : env) (folder : DirEntry) (w : world) :
  trace (shutil_rmtree E folder w).2 = trace w ++ [Rmtree (de_path folder)].
Proof.
  unfold shutil_rmtree.
  destruct (assoc (basename (de_path folder)) (transfer w)) as [[a b c|m es]|];
    [done| |done].
  by destruct (rmtree E (de_path folder) (Dir m es)) as [[kept e]|].
Qed.

(** C6, as amended.  Dispatching a batch whose enabled sinks hold their
    credentials: whatever the uploads and the secure copy answer, the
    removal of the batch directory is the last call made and it is made
    once.  Before it the cloud sink, if it is enabled, has opened every file
    of the batch, has called the upload for every file it could open when
    the configuration names the remote root, and has logged as an error
    every upload that was not made or that failed; and the secure copy, if
    it is enabled, has been attempted on the content of the batch.  The
    sinks leave the staging area as it is, and the outcome of the dispatch
    is the outcome of the removal. *)
Theorem dispatch_removes_after_sinks (E : env) (config : gmap string value)
    (folder : DirEntry) (w : world) :
  (truthy (get_or_false config "ActivateDropboxSync") = true ->
   has_credentials config) ->
  exists r w' before,
    dispatch E config folder w = (r, w') /\
    added w w' = before ++ [Rmtree (de_path folder)] /\
    Forall not_rmtree before /\
    (truthy (get_or_false config "ActivateDropboxSync") = true ->
     forall f, f ∈ get_all_files (de_path folder) (de_node folder) ->
       Open f ∈ before /\
       (open_fails E f = false ->
        forall v, config !! "DropBoxPath"%string = Some v ->
          exists rel, f = de_path folder ++ rel /\
                      FilesUpload f (str_of v) rel ∈ before) /\
       (open_fails E f = true \/ config !! "DropBoxPath"%string = None \/
        files_upload E f <> Uploaded ->
        exists e, e ∈ before /\ upload_failure f e)) /\
    (truthy (get_or_false config "ActivateScpSync") = true ->
     exists e, e ∈ before /\ scp_attempt (de_path folder) e) /\
    (r, w') =
      shutil_rmtree E folder
        {| transfer := transfer w; trace := trace w ++ before; clock := clock w |}.
Proof.
  intros Hcred.
  destruct (sinks_attempt E config folder w Hcred)
    as (before & Hrun & Hno & Hatt & Hscp).
  destruct (dispatch E config folder w) as [r w'] eqn:Hd.
  exists r, w', before. split; [done|].
  split; [|split; [done|split; [exact Hatt|split; [done|done]]]].
  unfold added. replace w' with (r, w').2 by done. rewrite Hrun.
  rewrite shutil_rmtree_trace. simpl.
  by rewrite <- app_assoc, drop_app_length.
Qed.

(** The batch of the specification's scenario, with both sinks enabled
    and both failing: every upload is called and its failure logged, the
    secure copy is attempted, and the batch is removed. *)
Lemma dispatch_removes_after_sinks_witness :
  (truthy (get_or_false both_sinks "ActivateDropboxSync") = true ->
   has_credentials both_sinks) /\
  exists r w' before,
    dispatch E_failing both_sinks batch_2000 w_start = (r, w') /\
    added w_start w' = before ++ [Rmtree (de_path batch_2000)] /\
    Forall not_rmtree before /\
    Open (de_path batch_2000 ++ ["a.txt"%string]) ∈ before /\
    FilesUpload (de_path batch_2000 ++ ["a.txt"%string]) "/usb/" ["a.txt"%string]
      ∈ before /\
    (exists e, e ∈ before /\
       upload_failure (de_path batch_2000 ++ ["a.txt"%string]) e) /\
    (exists e, e ∈ before /\ scp_attempt (de_path batch_2000) e) /\
    r = Ok tt /\ transfer w' = [].
Proof.
  assert (Hc : truthy (get_or_false both_sinks "ActivateDropboxSync") = true ->
               has_credentials both_sinks).
  { intros _. repeat split; vm_compute; by eexists. }
  split; [exact Hc|].
  destruct (dispatch_removes_after_sinks E_failing both_sinks batch_2000 w_start Hc)
    as (r & w' & before & Hrun & Hadd & Hno & Hatt & Hscp & Hr).
  exists r, w', before.
  split; [exact Hrun|]. split; [exact Hadd|]. split; [exact Hno|].
  destruct (Hatt eq_refl (de_path batch_2000 ++ ["a.txt"%string]))
    as (Hopen & Hcall & Hfail); [simpl; by left|].
  split; [exact Hopen|].
  destruct (Hcall eq_refl (VStr "/usb/") eq_refl) as (rel & Hrel & Hin).
  apply app_inv_head in Hrel. subst rel.
  split; [exact Hin|].
  split; [apply Hfail; right; right; discriminate|].
  split; [apply Hscp; reflexivity|].
  injection Hr as -> ->. split; reflexivity.
Defined.

(** C6, the claim as it stands, fails: with the cloud sink enabled and a
    credential missing from the configuration, the cloud sink raises the
    key error before its first file; the secure copy, enabled as well, is
    not attempted, and the batch is not removed: no call at all is made, and
    the staging area is as it was. *)
Lemma dispatch_missing_credentials :
  let config := delete "DropBoxRefreshToken"%string both_sinks in
  truthy (get_or_false config "ActivateDropboxSync") = true /\
  truthy (get_or_false config "ActivateScpSync") = true /\
  exists w',
    dispatch E_failing config batch_2000 w_start
      = (Raise (KeyError "DropBoxRefreshToken"), w') /\
    trace w' = [] /\
    transfer w' = transfer w_start /\
    (forall e, e ∈ added w_start w' -> ~ scp_attempt (de_path batch_2000) e) /\
    Rmtree (de_path batch_2000) ∉ added w_start w'.
Proof.
  intros config. split; [vm_compute; reflexivity|].
  split; [vm_compute; reflexivity|].
  eexists. split; [vm_compute; reflexivity|].
  split; [reflexivity|]. split; [reflexivity|].
  split; [intros e He|intros He]; by apply elem_of_nil in He.
Qed.

(** ** The listing of a batch *)

Lemma get_all_files_paths (n : node) : forall folder,
  get_all_files folder n = map de_path (all_files folder n).
Proof.
  induction n as [a b c|m es IH] using node_ind; intros folder; [done|].
  simpl. induction IH as [|[name child] es Hchild _ IHes]; [done|].
  simpl. rewrite map_app, IHes. f_equal.
  destruct child as [a b c|m' es']; [done|]. apply Hchild.
Qed.

(** A file reached by a path is among the files of the tree. *)
Lemma lookup_all_files (rel : path) : forall n p a b c,
  rel <> [] -> lookup_node rel n = Some (File a b c) ->
  {| de_path := p ++ rel; de_node := File a b c |} ∈ all_files p n.
Proof.
  induction rel as [|name rest IH]; intros n p a b c Hrel Hlook; [done|].
  rewrite lookup_cons in Hlook.
  destruct (assoc name (entries_of n)) as [child|] eqn:Hassoc; [|done].
  apply assoc_some in Hassoc.
  destruct n as [a' b' c'|m es]; [by apply elem_of_nil in Hassoc|].
  cbn [entries_of] in Hassoc. rewrite all_files_dir.
  apply list_elem_of_In, in_flat_map. exists (name, child).
  split; [by apply list_elem_of_In|]. apply list_elem_of_In.
  unfold files_in. cbn [fst snd].
  destruct rest as [|name' rest].
  - simpl in Hlook. injection Hlook as ->. by left.
  - destruct child as [a' b' c'|m' es'].
    { by rewrite lookup_below_file in Hlook. }
    replace (p ++ name :: name' :: rest) with ((p ++ [name]) ++ name' :: rest)
      by (by rewrite <- app_assoc).
    by apply IH.
Qed.

(** X12.  The listing of a batch.  For a batch directory in which no
    directory lists a name twice, [get_all_files] returns the paths of the
    files of the tree and nothing else: a path is listed exactly when it
    leads from the batch directory to a file; no path is listed twice; and
    every listed path lies below the batch directory, so that its path
    relative to the batch, which names the upload, is defined. *)
Theorem get_all_files_lists_the_files (folder : path) (m : Z)
    (es : list (string * node)) :
  wf (Dir m es) = true ->
  NoDup (get_all_files folder (Dir m es)) /\
  (forall f, f ∈ get_all_files folder (Dir m es) <->
     exists rel a b c,
       rel <> [] /\ f = folder ++ rel /\
       lookup_node rel (Dir m es) = Some (File a b c)) /\
  (forall f, f ∈ get_all_files folder (Dir m es) ->
     exists rel, relpath f folder = Some rel /\ rel <> []).
Proof.
  intros Hwf. rewrite get_all_files_paths.
  assert (Hiff : forall f, f ∈ map de_path (all_files folder (Dir m es)) <->
            exists rel a b c,
              rel <> [] /\ f = folder ++ rel /\
              lookup_node rel (Dir m es) = Some (File a b c)).
  { intros f. split.
    - intros Hf. apply list_elem_of_fmap in Hf as (d & -> & Hd).
      destruct (all_files_lookup _ Hwf _ _ Hd) as (rel & Hpath & Hrel & Hlook & Hfile).
      destruct d as [dp [a b c|m' es']]; [|done].
      by exists rel, a, b, c.
    - intros (rel & a & b & c & Hrel & -> & Hlook).
      apply list_elem_of_fmap.
      exists {| de_path := folder ++ rel; de_node := File a b c |}.
      split; [done|]. by apply lookup_all_files. }
  split; [by apply all_files_nodup|]. split; [done|].
  intros f Hf. apply Hiff in Hf as (rel & a & b & c & Hrel & -> & _).
  exists rel. split; [apply relpath_below|done].
Qed.

(** ** The sinks *)

(** X13.  The secure copy never raises.  Whatever the configuration and
    whatever the outside answers, [transfer_via_scp] returns: a missing
    [ScpPath], a copy that cannot be started, and a copy that ends with a
    code other than zero are each logged as an error and nothing more.  The
    copy is started at most once, on the content of the batch directory,
    and the staging area is left as it was. *)
Theorem transfer_via_scp_never_raises (E : env) (config : gmap string value)
    (source_dir : path) (w : world) :
  exists evs,
    transfer_via_scp E source_dir config w =
      (Ok tt, {| transfer := transfer w; trace := trace w ++ evs; clock := clock w |}) /\
    match config !! "ScpPath"%string, scp_rc E (source_dir ++ ["*"%string]) with
    | None, _ => evs = [Log ERROR (FailedToExecuteScp (KeyError "ScpPath"))]
    | Some _, None =>
        evs = [Log ERROR (FailedToExecuteScp (OSError (source_dir ++ ["*"%string])))]
    | Some scp_path, Some rc =>
        evs = [Scp (source_dir ++ ["*"%string]) (str_of scp_path) rc;
               if rc =? 0 then Log INFO (ScpTransferSuccessful source_dir)
               else Log ERROR (ScpTransferFailed source_dir)]
    end.
Proof.
  unfold transfer_via_scp, try_except, bind, getitem, subprocess_run_scp,
    logging, emit, raise, ret, with_trace. simpl.
  destruct (config !! "ScpPath"%string) as [v|]; simpl.
  2:{ by eexists. }
  destruct (scp_rc E (source_dir ++ ["*"%string])) as [rc|]; simpl.
  2:{ by eexists. }
  destruct (rc =? 0); simpl; eexists; (split; [|reflexivity]);
    by rewrite <- app_assoc.
Qed.

(** X14.  A credential that is missing.  When the cloud sink is enabled
    and one of the three credentials is not in the configuration, the
    dispatch of a batch raises the key error of the first one missing before
    any file is opened: no call is made, the secure copy is not attempted,
    and the batch is not removed.  The loop over the batches ends there, so
    the batches that follow are not looked at either. *)
Theorem missing_credential_keeps_the_batch (E : env) (config : gmap string value)
    (folder : DirEntry) (rest : list DirEntry) (w : world) :
  truthy (get_or_false config "ActivateDropboxSync") = true ->
  ~ has_credentials config ->
  exists key,
    key ∈ ["DropBoxRefreshToken"; "DropboxAppKey"; "DropboxAppSecret"]%string /\
    config !! key = None /\
    dispatch E config folder w = (Raise (KeyError key), w) /\
    for_ (folder :: rest) (dispatch E config) w = (Raise (KeyError key), w).
Proof.
  intros Hon Hmissing.
  assert (exists key,
            key ∈ ["DropBoxRefreshToken"; "DropboxAppKey"; "DropboxAppSecret"]%string /\
            config !! key = None /\
            transfer_to_dropbox E folder config w = (Raise (KeyError key), w))
    as (key & Hkey & Hnone & Hrun).
  { unfold transfer_to_dropbox, bind, getitem.
    destruct (config !! "DropBoxRefreshToken"%string) as [t|] eqn:Ht.
    2:{ eexists. split; [by left|]. by split. }
    destruct (config !! "DropboxAppKey"%string) as [k|] eqn:Hk.
    2:{ eexists. split; [right; by left|]. by split. }
    destruct (config !! "DropboxAppSecret"%string) as [s|] eqn:Hs.
    2:{ eexists. split; [right; right; by left|]. by split. }
    destruct Hmissing. unfold has_credentials. by rewrite Ht, Hk, Hs. }
  exists key. split; [done|]. split; [done|].
  assert (Hd : dispatch E config folder w = (Raise (KeyError key), w)).
  { unfold dispatch. rewrite Hon. unfold bind at 1. by rewrite Hrun. }
  split; [done|]. simpl. unfold bind. by rewrite Hd.
Qed.

Section Uploads.
Context (E : env) (config : gmap string value) (source_dir : path).

Lemma upload_file_opens file w :
  exists evs,
    upload_file E source_dir config file w =
      (Ok tt, {| transfer := transfer w; trace := trace w ++ Open file :: evs;
                 clock := clock w |}) /\
    omap opened evs = [] /\ named config source_dir evs.
Proof.
  unfold upload_file, try_except, bind, open_rb, getitem,
    dbx_files_upload, logging, emit, raise, ret, with_trace. simpl.
  assert (Hlog : forall lvl msg, named config source_dir [Log lvl msg]).
  { intros lvl msg f prefix rel Hin.
    apply list_elem_of_singleton in Hin. discriminate. }
  destruct (open_fails E file); simpl.
  { eexists. split; [rewrite <- app_assoc; reflexivity|]. split; [done|apply Hlog]. }
  destruct (config !! "DropBoxPath"%string) as [v|] eqn:Hv; simpl.
  2:{ eexists. split; [rewrite <- app_assoc; reflexivity|]. split; [done|apply Hlog]. }
  destruct (relpath file source_dir) as [rel|] eqn:Hrel; simpl.
  2:{ eexists. split; [rewrite <- app_assoc; reflexivity|]. split; [done|apply Hlog]. }
  apply relpath_app in Hrel.
  destruct (files_upload E file); simpl;
    (eexists; split; [rewrite <- !app_assoc; reflexivity|]; split; [done|]);
    intros f prefix rel' Hin;
    repeat (apply elem_of_cons in Hin as [[=]|Hin]); try (by apply elem_of_nil in Hin);
    subst; by rewrite Hv.
Qed.

Lemma uploads_open files : forall w,
  exists evs,
    for_ files (upload_file E source_dir config) w =
      (Ok tt, {| transfer := transfer w; trace := trace w ++ evs; clock := clock w |}) /\
    omap opened evs = files /\ named config source_dir evs.
Proof.
  induction files as [|f files IH]; intros w; simpl.
  - exists []. split; [|split; [done|]].
    + unfold pass, ret. rewrite app_nil_r. by destruct w.
    + intros f prefix rel Hin. by apply elem_of_nil in Hin.
  - destruct (upload_file_opens f w) as (evs1 & Hrun1 & Hop1 & Hnm1).
    destruct (IH {| transfer := transfer w; trace := trace w ++ Open f :: evs1;
                    clock := clock w |}) as (evs2 & Hrun2 & Hop2 & Hnm2).
    exists ((Open f :: evs1) ++ evs2). split; [|split].
    + unfold bind. rewrite Hrun1, Hrun2. simpl. by rewrite <- app_assoc.
    + rewrite omap_app.
      change (omap opened (Open f :: evs1)) with (f :: omap opened evs1).
      by rewrite Hop1, Hop2.
    + intros g prefix rel Hin. apply elem_of_app in Hin as [Hin|Hin].
      * apply elem_of_cons in Hin as [[=]|Hin]. by apply Hnm1.
      * by apply Hnm2.
Qed.
End Uploads.

(** X15.  The uploads follow the listing.  With the three credentials in
    place the cloud sink returns, whatever happens to the uploads: it opens
    every file of the listing once, in the order of the listing, also after
    an upload has failed; and every upload it makes is named by the remote
    root of the configuration and the path of the file relative to the
    batch directory. *)
Theorem uploads_follow_the_listing (E : env) (config : gmap string value)
    (folder : DirEntry) (w : world) :
  has_credentials config ->
  exists evs,
    transfer_to_dropbox E folder config w =
      (Ok tt, {| transfer := transfer w; trace := trace w ++ evs; clock := clock w |}) /\
    omap opened evs = get_all_files (de_path folder) (de_node folder) /\
    forall f prefix rel, FilesUpload f prefix rel ∈ evs ->
      f = de_path folder ++ rel /\
      (str_of <$> config !! "DropBoxPath"%string) = Some prefix.
Proof.
  intros ([t Ht] & [k Hk] & [s Hs]).
  destruct (uploads_open E config (de_path folder)
              (get_all_files (de_path folder) (de_node folder)) w)
    as (evs & Hrun & Hopen & Hnamed).
  exists evs. split; [|by split].
  unfold transfer_to_dropbox, bind, getitem. rewrite Ht, Hk, Hs. simpl.
  exact Hrun.
Qed.

(** ** A turn of the forwarder's loop *)

Lemma remove_entry_head (e : string * node) (ds : list (string * node)) :
  forall acc,
  e.1 ∉ map fst ds ->
  foldl (fun acc d => remove_entry d.1 acc) (e :: acc) ds =
  e :: foldl (fun acc d => remove_entry d.1 acc) acc ds.
Proof.
  induction ds as [|d ds IH]; intros acc Hfresh; [done|].
  simpl in *. apply not_elem_of_cons in Hfresh as [Hne Hfresh].
  destruct (decide (e.1 = d.1)) as [Heq|_]; [done|]. by apply IH.
Qed.

Lemma batches_names (es : list (string * node)) :
  map fst (batches es) ⊆ map fst es.
Proof.
  intros name Hin. apply list_elem_of_fmap in Hin as (e & -> & He).
  apply list_elem_of_In, filter_In in He as [He _].
  apply list_elem_of_fmap. exists e. split; [done|]. by apply list_elem_of_In.
Qed.

(** Removing the batches one after the other leaves the plain files. *)
Lemma remove_batches (es : list (string * node)) :
  NoDup (map fst es) ->
  foldl (fun acc d => remove_entry d.1 acc) es (batches es) = plain_files es.
Proof.
  induction es as [|e es IH]; intros Hnodup; [done|].
  apply NoDup_cons in Hnodup as [Hfresh Hnodup].
  unfold batches, plain_files in *. cbn [List.filter].
  destruct e as [name [a b c|m sub]]; cbn [fst snd] in *.
  - rewrite remove_entry_head; [by rewrite IH|].
    intros Hin. by apply Hfresh, batches_names.
  - cbn [foldl remove_entry fst]. rewrite decide_True by done. by apply IH.
Qed.

Lemma folders_are_batches (E : env) w :
  folders_to_transfer E w =
  (Ok (map (fun e => {| de_path := SOURCE_BASE_DIR E ++ [e.1]; de_node := e.2 |})
         (batches (transfer w))), w).
Proof.
  unfold folders_to_transfer, scandir, batches. cbn [de_path de_node entries_of].
  do 2 f_equal. induction (transfer w) as [|[name [a b c|m sub]] es IH]; [done|..];
    cbn [map List.filter is_dir de_node snd fst]; by rewrite IH.
Qed.

Lemma wait_loop_frame (E : env) p fuel : forall max_time w r w',
  wait_loop E fuel p max_time w = (r, w') -> transfer w' = transfer w.
Proof.
  induction fuel as [|fuel IH]; intros max_time w r w'; simpl.
  { by intros [= _ <-]. }
  unfold bind, os_path_isfile. destruct (marker_present E (clock w)); simpl.
  - destruct (30 <? max_time + 1).
    + by intros [= _ <-].
    + intros H. by apply IH in H.
  - by intros [= _ <-].
Qed.

Lemma remove_entry_sublist name (es : list (string * node)) :
  remove_entry name es `sublist_of` es.
Proof.
  induction es as [|e es IH]; simpl; [done|].
  destruct (decide (e.1 = name)).
  - by apply sublist_cons.
  - by apply sublist_skip.
Qed.

Lemma remove_entry_keeps name (e : string * node) es :
  e ∈ es -> e.1 <> name -> e ∈ remove_entry name es.
Proof.
  intros Hin Hne. induction es as [|x es IH]; simpl; [done|].
  apply elem_of_cons in Hin as [<-|Hin].
  - rewrite decide_False by done. by left.
  - destruct (decide (x.1 = name)); [done|]. right. by apply IH.
Qed.

Lemma batches_elem (es : list (string * node)) d :
  d ∈ batches es -> d ∈ es /\ exists m items, d.2 = Dir m items.
Proof.
  intros Hd. apply list_elem_of_In, filter_In in Hd as [Hd Hdir].
  split; [by apply list_elem_of_In|].
  destruct d as [name [a b c|m items]]; [done|]. by exists m, items.
Qed.

Lemma batches_sublist (es : list (string * node)) : batches es `sublist_of` es.
Proof.
  induction es as [|[name [a b c|m items]] es IH]; unfold batches in *; simpl.
  - done.
  - by apply sublist_cons.
  - by apply sublist_skip.
Qed.

(** With no removal failing the whole tree goes. *)
Lemma rmtree_clean (E : env) :
  (forall p, rmtree_fails E p = false) -> forall n p, rmtree E p n = None.
Proof.
  intros Hno. induction n as [a b c|m es IH] using node_ind; intros p; simpl.
  - by rewrite Hno.
  - assert (rmtree_entries (rmtree E) p es = None) as ->.
    { induction IH as [|e es He _ IHes]; [done|]. simpl. by rewrite He. }
    by rewrite Hno.
Qed.

Section Turn.
Context (E : env) (config : gmap string value).
Context (Hcred : truthy (get_or_false config "ActivateDropboxSync") = true ->
                 has_credentials config).
Context (Hrmtree : forall p, rmtree_fails E p = false).

(** The dispatch of a batch that is in the staging directory returns,
    with the batch removed. *)
Lemma dispatch_returns (folder : DirEntry) (w : world) m items :
  assoc (basename (de_path folder)) (transfer w) = Some (Dir m items) ->
  exists evs,
    dispatch E config folder w =
    (Ok tt, {| transfer := remove_entry (basename (de_path folder)) (transfer w);
               trace := trace w ++ evs; clock := clock w |}).
Proof.
  intros Hthere.
  destruct (sinks_attempt E config folder w Hcred) as (before & Hrun & _).
  rewrite Hrun. unfold shutil_rmtree. cbn [transfer trace clock].
  rewrite Hthere, rmtree_clean by done.
  exists (before ++ [Rmtree (de_path folder)]).
  unfold with_transfer, with_trace. cbn [transfer trace clock].
  by rewrite <- app_assoc.
Qed.

Lemma dispatch_loop (ds : list (string * node)) : forall w,
  NoDup (map fst (transfer w)) ->
  NoDup (map fst ds) ->
  (forall d, d ∈ ds -> d ∈ transfer w /\ exists m items, d.2 = Dir m items) ->
  exists evs,
    for_ (map (fun e => {| de_path := SOURCE_BASE_DIR E ++ [e.1]; de_node := e.2 |}) ds)
      (dispatch E config) w =
    (Ok tt, {| transfer := foldl (fun acc d => remove_entry d.1 acc) (transfer w) ds;
               trace := trace w ++ evs; clock := clock w |}).
Proof.
  induction ds as [|d ds IH]; intros w Hnodup Hnames Hthere; simpl.
  - exists []. unfold pass, ret. rewrite app_nil_r. by destruct w.
  - destruct (Hthere d) as (Hd & m & items & Hdir); [by left|].
    cbn [map] in Hnames. apply NoDup_cons in Hnames as [Hfresh Hnames].
    assert (Hassoc : assoc d.1 (transfer w) = Some (Dir m items)).
    { rewrite <- Hdir. apply assoc_elem; [done|]. by destruct d. }
    destruct (dispatch_returns
                {| de_path := SOURCE_BASE_DIR E ++ [d.1]; de_node := d.2 |} w m items)
      as (evs1 & Hrun1).
    { cbn [de_path]. unfold basename. by rewrite last_last. }
    unfold bind. rewrite Hrun1. cbn [de_path]. unfold basename.
    rewrite last_last.
    match goal with |- context [for_ _ _ ?w1] =>
      destruct (IH w1) as (evs2 & Hrun2) end.
    + cbn [transfer]. eapply sublist_NoDup; [exact Hnodup|].
      apply (fmap_sublist fst _ _ (remove_entry_sublist _ _)).
    + done.
    + intros d' Hd'. destruct (Hthere d') as [Hin Hdir']; [by right|].
      split; [|done]. cbn [transfer]. apply remove_entry_keeps; [done|].
      intros Heq. apply Hfresh. rewrite <- Heq.
      apply list_elem_of_fmap. by exists d'.
    + rewrite Hrun2. simpl. exists (evs1 ++ evs2). by rewrite <- app_assoc.
Qed.
End Turn.

(** X16.  A turn clears the staging area.  In a staging directory that
    lists no name twice, when the enabled sinks are configured and no
    removal of a batch fails, a turn of the forwarder's loop returns, and
    after it no directory is left in the staging directory, whatever the
    sinks answered; the entries that are not directories (the marker is one)
    are all still there, in their order.  The wait for the marker is made
    once for the turn, not once for each batch: the turn sleeps for 4.5
    seconds and for at most 31 seconds more. *)
Theorem turn_clears_the_staging_area (E : env) (fuel : nat)
    (config : gmap string value) (w : world) :
  (31 <= fuel)%nat ->
  (truthy (get_or_false config "ActivateDropboxSync") = true ->
   has_credentials config) ->
  (forall p, rmtree_fails E p = false) ->
  NoDup (map fst (transfer w)) ->
  exists w',
    main_loop E fuel config 1 w = (Ok tt, w') /\
    transfer w' = plain_files (transfer w) /\
    clock w + 4500 <= clock w' <= clock w + 35500.
Proof.
  intros Hfuel Hcred Hrmtree Hnodup.
  cbn [main_loop]. unfold bind at 1. rewrite folders_are_batches.
  pose proof (remove_batches _ Hnodup) as Hclear.
  destruct (batches (transfer w)) as [|d ds] eqn:Hbatches.
  - cbn [map]. unfold bind, pass, ret, time_sleep. simpl.
    eexists. split; [reflexivity|]. simpl. split; [done|lia].
  - cbn [map]. unfold bind at 1. unfold bind at 1.
    destruct (wait_loop_returns E (COPYING_ACTIVE_FILE E) fuel 0 w)
      as (w1 & Hwait & Hclock); [lia|lia|].
    unfold wait_until_no_copying_active. rewrite Hwait.
    pose proof (wait_loop_frame _ _ _ _ _ _ _ Hwait) as Hframe.
    destruct (dispatch_loop E config Hcred Hrmtree (d :: ds) w1) as (evs & Hloop).
    { by rewrite Hframe. }
    { rewrite <- Hbatches. eapply sublist_NoDup; [exact Hnodup|].
      apply (fmap_sublist fst _ _ (batches_sublist _)). }
    { intros d' Hd'. rewrite Hframe. apply batches_elem. by rewrite Hbatches. }
    cbn [map] in Hloop. rewrite Hloop. unfold bind, pass, ret, time_sleep. simpl.
    eexists. split; [reflexivity|]. simpl. split; [by rewrite Hframe|lia].
Qed.

(** X17.  A staging directory without batches.  While no entry of the
    staging directory is a directory, the forwarder does nothing but sleep:
    [n] turns of its loop are [n] sleeps of 4.5 seconds.  The marker is not
    polled, no sink is called and nothing is removed; the marker file itself
    never counts as a batch. *)
Theorem forwarder_without_batches_only_sleeps (E : env) (fuel : nat)
    (config : gmap string value) (n : nat) (w : world) :
  batches (transfer w) = [] ->
  main_loop E fuel config n w =
  (Ok tt, {| transfer := transfer w;
             trace := trace w ++ replicate n (Sleep 4500);
             clock := clock w + 4500 * Z.of_nat n |}).
Proof.
  revert w. induction n as [|n IH]; intros w Hnone.
  - simpl. unfold pass, ret. rewrite app_nil_r.
    replace (clock w + 4500 * Z.of_nat 0) with (clock w) by lia. by destruct w.
  - cbn [main_loop]. unfold bind at 1. rewrite folders_are_batches, Hnone.
    cbn [map]. unfold bind at 1. unfold pass at 1, ret at 1.
    unfold bind at 1. unfold time_sleep at 1. cbn [Z.ltb Z.compare].
    rewrite IH by done.
    cbn [transfer trace clock with_trace with_clock replicate].
    do 2 f_equal.
    + by rewrite <- app_assoc.
    + lia.
Qed.

Lemma wait_loop_trace (E : env) p fuel : forall max_time w r w',
  wait_loop E fuel p max_time w = (r, w') ->
  exists evs, trace w' = trace w ++ evs /\ Forall not_rmtree evs.
Proof.
  assert (Hone : forall e : event, not_rmtree e -> Forall not_rmtree [e]).
  { intros e He. by repeat constructor. }
  induction fuel as [|fuel IH]; intros max_time w r w'; simpl.
  { intros [= _ <-]. exists []. by rewrite app_nil_r. }
  unfold bind, os_path_isfile. destruct (marker_present E (clock w)); simpl.
  - destruct (30 <? max_time + 1).
    + intros [= _ <-]. eexists [_; _; _]. simpl. split; [by rewrite <- !app_assoc|].
      repeat constructor; by intros q.
    + intros H. apply IH in H as (evs & Ht & Hno). simpl in Ht.
      eexists (_ :: _ :: evs). split; [by rewrite Ht, <- !app_assoc|].
      repeat constructor; by intros q || done.
  - intros [= _ <-]. eexists [_]. split; [done|]. apply Hone. by intros q.
Qed.

(** What is left of a directory whose removal fails is a directory. *)
Lemma rmtree_dir (E : env) p m items kept e :
  rmtree E p (Dir m items) = Some (kept, e) -> exists items', kept = Dir m items'.
Proof.
  simpl. destruct (rmtree_entries (rmtree E) p items) as [[kept' e']|].
  - intros [= <- _]. by eexists.
  - destruct (rmtree_fails E p); [|done]. intros [= <- _]. by eexists.
Qed.

(** Putting a directory in the place of the first batch. *)
Lemma put_entry_batches (es : list (string * node)) d ds m items :
  NoDup (map fst es) -> batches es = d :: ds ->
  batches (put_entry d.1 (Dir m items) es) = (d.1, Dir m items) :: ds /\
  plain_files (put_entry d.1 (Dir m items) es) = plain_files es.
Proof.
  induction es as [|e es IH]; intros Hnodup Hbatches; [done|].
  cbn [map] in Hnodup. apply NoDup_cons in Hnodup as [Hfresh Hnodup].
  destruct e as [name [a b c|m' items']].
  - change (batches ((name, File a b c) :: es)) with (batches es) in Hbatches.
    assert (Hne : name <> d.1).
    { intros ->. apply Hfresh. apply (batches_names es).
      rewrite Hbatches. by left. }
    cbn [put_entry fst]. rewrite decide_False by done.
    destruct (IH Hnodup Hbatches) as [IH1 IH2].
    unfold batches, plain_files in *. cbn [List.filter snd]. by rewrite IH1, IH2.
  - change (batches ((name, Dir m' items') :: es))
      with ((name, Dir m' items') :: batches es) in Hbatches.
    injection Hbatches as <- <-.
    cbn [put_entry fst]. by rewrite decide_True by done.
Qed.

(** X18.  A removal that fails.  When the enabled sinks are configured
    and the removal of the first batch fails at one of its entries, the
    exception leaves the loop: the handler around it logs it and the
    forwarder ends, however many turns it had left.  By then the batch has
    been handed to the sinks: the cloud sink, if it is enabled, has made its
    attempt for every file, and the secure copy, if it is enabled, has been
    attempted.  The batch is still listed, with what the removal had not
    removed when it failed; the batches after it and the plain files are as
    they were, and the sleep that ends a turn was not reached. *)
Theorem failed_removal_ends_the_forwarder (E : env) (fuel : nat)
    (config : gmap string value) (ticks : nat) (w : world)
    (d : string * node) (ds : list (string * node)) (kept : node) (e : exn) :
  (31 <= fuel)%nat ->
  (truthy (get_or_false config "ActivateDropboxSync") = true ->
   has_credentials config) ->
  NoDup (map fst (transfer w)) ->
  batches (transfer w) = d :: ds ->
  rmtree E (SOURCE_BASE_DIR E ++ [d.1]) d.2 = Some (kept, e) ->
  exists w' evs,
    main E fuel config (S ticks) w = (Ok tt, w') /\
    trace w' =
      trace w ++ Log INFO Started :: evs ++
      [Rmtree (SOURCE_BASE_DIR E ++ [d.1]); Log ERROR (Traceback e)] /\
    Forall not_rmtree evs /\
    (truthy (get_or_false config "ActivateDropboxSync") = true ->
     forall f, f ∈ get_all_files (SOURCE_BASE_DIR E ++ [d.1]) d.2 ->
               upload_attempt E config (SOURCE_BASE_DIR E ++ [d.1]) f evs) /\
    (truthy (get_or_false config "ActivateScpSync") = true ->
     exists x, x ∈ evs /\ scp_attempt (SOURCE_BASE_DIR E ++ [d.1]) x) /\
    transfer w' = put_entry d.1 kept (transfer w) /\
    batches (transfer w') = (d.1, kept) :: ds /\
    plain_files (transfer w') = plain_files (transfer w) /\
    clock w <= clock w' <= clock w + 31000.
Proof.
  intros Hfuel Hcred Hnodup Hbatches Hfail.
  set (folder := {| de_path := SOURCE_BASE_DIR E ++ [d.1]; de_node := d.2 |}).
  destruct (batches_elem (transfer w) d) as (Hd & m & items & Hdir).
  { rewrite Hbatches. by left. }
  assert (Hassoc : assoc d.1 (transfer w) = Some (Dir m items)).
  { rewrite <- Hdir. apply assoc_elem; [done|]. by destruct d. }
  rewrite Hdir in Hfail.
  destruct (rmtree_dir _ _ _ _ _ _ Hfail) as (items' & ->).
  destruct (put_entry_batches _ _ _ m items' Hnodup Hbatches) as [Hput1 Hput2].
  unfold main, try_except. unfold bind at 1. cbn [logging emit].
  cbn [main_loop]. unfold bind at 1. rewrite folders_are_batches.
  cbn [transfer with_trace]. rewrite Hbatches. cbn [map]. fold folder.
  unfold bind at 1. unfold bind at 1.
  match goal with |- context [wait_until_no_copying_active E fuel ?p ?w0] =>
    set (w1 := w0);
    destruct (wait_loop_returns E p fuel 0 w1) as (w2 & Hwait & Hclock);
      [lia|lia|];
    pose proof (wait_loop_frame _ _ _ _ _ _ _ Hwait) as Hframe;
    destruct (wait_loop_trace _ _ _ _ _ _ _ Hwait) as (evs0 & Ht0 & Hno0)
  end.
  unfold wait_until_no_copying_active. rewrite Hwait.
  cbn [for_]. unfold bind at 1.
  destruct (sinks_attempt E config folder w2 Hcred)
    as (before & Hrun & Hno & Hatt & Hscp).
  rewrite Hrun. unfold shutil_rmtree. cbn [transfer trace clock de_path folder].
  unfold basename. rewrite last_last, Hframe. subst w1.
  cbn [transfer with_trace]. rewrite Hassoc, Hfail.
  cbn [logging emit with_trace with_transfer transfer trace clock].
  eexists _, (evs0 ++ before). split; [reflexivity|].
  cbn [transfer trace clock].
  split; [rewrite Ht0; cbn [trace]; rewrite <- !app_assoc; cbn;
          by rewrite <- !app_assoc|].
  split; [by apply Forall_app|].
  split; [intros H f Hf; by apply upload_attempt_app_r, Hatt|].
  split.
  { intros H. destruct (Hscp H) as (x & Hx & Ha).
    exists x. split; [apply elem_of_app; by right|done]. }
  split; [done|]. split; [done|]. split; [done|].
  cbn [clock with_trace with_transfer] in Hclock |- *. lia.
Qed.

(** ** The statements above on the inputs of the examples *)

(** The batch of the specification's scenario. *)
Lemma get_all_files_lists_the_files_witness :
  wf (de_node batch_2000) = true /\
  NoDup (get_all_files (de_path batch_2000) (de_node batch_2000)) /\
  (forall f, f ∈ get_all_files (de_path batch_2000) (de_node batch_2000) ->
     exists rel, relpath f (de_path batch_2000) = Some rel /\ rel <> []).
Proof.
  assert (H1 : wf (de_node batch_2000) = true) by (vm_compute; reflexivity).
  split; [exact H1|].
  destruct (get_all_files_lists_the_files (de_path batch_2000) 2000
              (entries_of (de_node batch_2000)) H1) as (Hnodup & _ & Hbelow).
  split; [exact Hnodup|exact Hbelow].
Defined.

(** Both sinks enabled, and the refresh token not in the configuration. *)
Lemma missing_credential_keeps_the_batch_witness :
  let config := delete "DropBoxRefreshToken"%string both_sinks in
  (truthy (get_or_false config "ActivateDropboxSync") = true /\
   ~ has_credentials config) /\
  exists key,
    config !! key = None /\
    dispatch E_failing config batch_2000 w_start = (Raise (KeyError key), w_start).
Proof.
  intros config.
  assert (H1 : truthy (get_or_false config "ActivateDropboxSync") = true)
    by (vm_compute; reflexivity).
  assert (H0 : config !! "DropBoxRefreshToken"%string = None)
    by (vm_compute; reflexivity).
  assert (H2 : ~ has_credentials config).
  { intros ([t Ht] & _). rewrite H0 in Ht. discriminate. }
  split; [exact (conj H1 H2)|].
  destruct (missing_credential_keeps_the_batch E_failing config batch_2000 []
              w_start H1 H2) as (key & _ & Hnone & Hrun & _).
  exists key. split; [exact Hnone|exact Hrun].
Defined.

(** The batch of the specification's scenario, with every upload refused. *)
Lemma uploads_follow_the_listing_witness :
  has_credentials both_sinks /\
  exists evs,
    transfer_to_dropbox E_failing batch_2000 both_sinks w_start =
      (Ok tt, {| transfer := transfer w_start; trace := trace w_start ++ evs;
                 clock := clock w_start |}) /\
    omap opened evs =
      [["home"; "pi"; "transfer"; "2000"; "a.txt"];
       ["home"; "pi"; "transfer"; "2000"; "sub"; "b.txt"]]%string.
Proof.
  assert (H1 : has_credentials both_sinks).
  { split; [|split]; vm_compute; by eexists. }
  split; [exact H1|].
  destruct (uploads_follow_the_listing E_failing both_sinks batch_2000 w_start H1)
    as (evs & Hrun & Hopen & _).
  exists evs. split; [exact Hrun|exact Hopen].
Defined.

(** Two batches and the marker, with the marker never cleared and both
    sinks failing: after the turn only the marker is left. *)
Lemma turn_clears_the_staging_area_witness :
  let E := {| BASE_PATH := ["home"; "pi"]%string;
              marker_present := fun _ => true;
              open_fails := fun _ => false;
              files_upload := fun _ => ApiFailure;
              scp_rc := fun _ => Some 1;
              rmtree_fails := fun _ => false |} in
  ((31 <= 31)%nat /\
   (truthy (get_or_false both_sinks "ActivateDropboxSync") = true ->
    has_credentials both_sinks) /\
   (forall p, rmtree_fails E p = false) /\
   NoDup (map fst (transfer w_two_batches))) /\
  exists w',
    main_loop E 31 both_sinks 1 w_two_batches = (Ok tt, w') /\
    transfer w' = [("copyingActive"%string, File 0 0 "")] /\
    clock w_two_batches + 4500 <= clock w' <= clock w_two_batches + 35500.
Proof.
  intros E.
  assert (H1 : (31 <= 31)%nat) by lia.
  assert (H2 : truthy (get_or_false both_sinks "ActivateDropboxSync") = true ->
               has_credentials both_sinks).
  { intros _. split; [|split]; vm_compute; by eexists. }
  assert (H3 : forall p, rmtree_fails E p = false) by reflexivity.
  assert (H4 : NoDup (map fst (transfer w_two_batches))).
  { apply (bool_decide_unpack _). vm_compute. reflexivity. }
  split; [exact (conj H1 (conj H2 (conj H3 H4)))|].
  exact (turn_clears_the_staging_area E 31 both_sinks w_two_batches H1 H2 H3 H4).
Defined.

(** Three turns on a staging directory that holds the marker only. *)
Lemma forwarder_without_batches_only_sleeps_witness :
  batches (transfer w_marker_only) = [] /\
  main_loop E_stuck 31 both_sinks 3 w_marker_only =
  (Ok tt, {| transfer := transfer w_marker_only;
             trace := [Sleep 4500; Sleep 4500; Sleep 4500];
             clock := 13500 |}).
Proof.
  assert (H1 : batches (transfer w_marker_only) = []) by reflexivity.
  split; [exact H1|].
  exact (forwarder_without_batches_only_sleeps E_stuck 31 both_sinks 3
           w_marker_only H1).
Defined.

(** Two batches; the first one can be emptied, but the directory itself
    cannot be removed.  The forwarder ends with the first batch empty and
    the second one as it was. *)
Lemma failed_removal_ends_the_forwarder_witness :
  let E := {| BASE_PATH := ["home"; "pi"]%string;
              marker_present := fun _ => false;
              open_fails := fun _ => false;
              files_upload := fun _ => Uploaded;
              scp_rc := fun _ => Some 0;
              rmtree_fails := fun p =>
                bool_decide (p = ["home"; "pi"; "transfer"; "1000"]%string) |} in
  ((31 <= 31)%nat /\
   (truthy (get_or_false both_sinks "ActivateDropboxSync") = true ->
    has_credentials both_sinks) /\
   NoDup (map fst (transfer w_two_batches)) /\
   batches (transfer w_two_batches) =
     [("1000", Dir 1000 [("old.txt", File 900 900 "omega")]);
      ("2000", de_node batch_2000)]%string /\
   rmtree E (SOURCE_BASE_DIR E ++ ["1000"%string])
     (Dir 1000 [("old.txt", File 900 900 "omega")]%string) =
   Some (Dir 1000 [], OSError (SOURCE_BASE_DIR E ++ ["1000"%string]))) /\
  exists w',
    main E 31 both_sinks 5 w_two_batches = (Ok tt, w') /\
    transfer w' =
      [("1000", Dir 1000 []); ("copyingActive", File 0 0 "");
       ("2000", de_node batch_2000)]%string.
Proof.
  intros E.
  assert (H1 : (31 <= 31)%nat) by lia.
  assert (H2 : truthy (get_or_false both_sinks "ActivateDropboxSync") = true ->
               has_credentials both_sinks).
  { intros _. split; [|split]; vm_compute; by eexists. }
  assert (H3 : NoDup (map fst (transfer w_two_batches))).
  { apply (bool_decide_unpack _). vm_compute. reflexivity. }
  assert (H4 : batches (transfer w_two_batches) =
                 [("1000", Dir 1000 [("old.txt", File 900 900 "omega")]);
                  ("2000", de_node batch_2000)]%string) by reflexivity.
  assert (H5 : rmtree E (SOURCE_BASE_DIR E ++ ["1000"%string])
                 (Dir 1000 [("old.txt", File 900 900 "omega")]%string) =
               Some (Dir 1000 [], OSError (SOURCE_BASE_DIR E ++ ["1000"%string])))
    by (vm_compute; reflexivity).
  split; [exact (conj H1 (conj H2 (conj H3 (conj H4 H5))))|].
  destruct (failed_removal_ends_the_forwarder E 31 both_sinks 4 w_two_batches
              _ _ _ _ H1 H2 H3 H4 H5)
    as (w' & evs & Hrun & _ & _ & _ & _ & Hkeep & _).
  exists w'. split; [exact Hrun|exact Hkeep].
Defined.

End UploadFacts.

(** * Facts about the start of the scripts *)
Module StartupFacts.
Import Copy Startup.
#[local] Open Scope poller_scope.

(** [os.makedirs] of a path all of whose directories are there changes
    nothing. *)
Lemma makedirs_from_there (below : path) : forall above fs,
  (forall j, (0 < j <= length below)%nat ->
     fs !! (above ++ take j below) = Some LDir) ->
  makedirs_from above below fs = Some fs.
Proof.
  induction below as [|name below IH]; intros above fs Hdirs; [done|].
  assert (H1 : fs !! (above ++ [name]) = Some LDir)
    by (apply (Hdirs 1%nat); simpl; lia).
  cbn [makedirs_from]. rewrite H1.
  apply IH. intros j Hj. specialize (Hdirs (S j) ltac:(simpl; lia)).
  simpl in Hdirs. by rewrite <- app_assoc.
Qed.

Lemma makedirs_closed (p : path) (fs : gmap path lnode) :
  closed fs -> isdir_in fs p = true -> makedirs_from [] p fs = Some fs.
Proof.
  intros Hclosed Hdir. apply makedirs_from_there. intros j Hj. simpl.
  destruct p as [|x p]; [simpl in Hj; lia|].
  unfold isdir_in in Hdir.
  destruct (fs !! (x :: p)) as [[a b|]|] eqn:Hp; try done.
  destruct (decide (j = length (x :: p))) as [->|Hne].
  - by rewrite firstn_all.
  - apply (Hclosed _ _ Hp). lia.
Qed.

(** A file where the directory is to be: [os.makedirs] fails. *)
Lemma makedirs_from_file (below : path) : forall above fs a b,
  below <> [] -> fs !! (above ++ below) = Some (LFile a b) ->
  (forall j, (0 < j < length below)%nat ->
     fs !! (above ++ take j below) = Some LDir) ->
  makedirs_from above below fs = None.
Proof.
  induction below as [|name below IH]; intros above fs a b Hne Hfile Hdirs; [done|].
  cbn [makedirs_from]. destruct below as [|name' below].
  - by rewrite Hfile.
  - assert (H1 : fs !! (above ++ [name]) = Some LDir)
    by (apply (Hdirs 1%nat); simpl; lia).
    rewrite H1.
    apply (IH _ _ a b); [done|by rewrite <- app_assoc|].
    intros j Hj. specialize (Hdirs (S j) ltac:(simpl in *; lia)).
    simpl in Hdirs. by rewrite <- app_assoc.
Qed.

Lemma closedb_closed (fs : gmap path lnode) : closedb fs = true -> closed fs.
Proof.
  unfold closedb. rewrite forallb_forall. intros Hall p v Hp j Hj.
  apply elem_of_map_to_list, list_elem_of_In in Hp.
  specialize (Hall _ Hp). rewrite forallb_forall in Hall.
  specialize (Hall j). cbn [fst] in Hall.
  destruct (fs !! take j p) as [[a b|]|]; try done;
    discriminate Hall; apply in_seq; lia.
Qed.

(** X19.  [setup_logging] creates no directory.  The permission to write
    the log directory is asked before the directory is made, and a directory
    that is not there cannot be written: when the log directory is missing,
    [setup_logging] raises the permission error and has changed nothing.
    When it returns, the log directory was there already and the log file is
    there; and in every case no entry of the file system other than the log
    file has been created or changed. *)
Theorem setup_logging_creates_no_directory (writable : path -> bool)
    (log_file_full_path : path) (w : world) (r : result unit) (w' : world) :
  closed (local w) ->
  setup_logging writable log_file_full_path w = (r, w') ->
  let base_path := dirname log_file_full_path in
  (forall k, k <> log_file_full_path -> local w' !! k = local w !! k) /\
  (r = Ok tt ->
   isdir_in (local w) base_path = true /\
   isfile_in (local w') log_file_full_path = true) /\
  (base_path <> [] -> local w !! base_path = None ->
   r = Raise (PermissionError base_path) /\ w' = w).
Proof.
  intros Hclosed Hrun base_path. unfold setup_logging in Hrun. fold base_path in Hrun.
  unfold bind at 1, os_access_W_OK in Hrun.
  assert (Hopen : forall w1 r1 w1',
            open_append writable log_file_full_path w1 = (r1, w1') ->
            (forall k, k <> log_file_full_path -> local w1' !! k = local w1 !! k) /\
            (r1 = Ok tt -> isfile_in (local w1') log_file_full_path = true)).
  { intros w1 r1 w1'. unfold open_append.
    destruct (local w1 !! log_file_full_path) as [[a b|]|] eqn:Hlog.
    - destruct (writable log_file_full_path); intros [= <- <-];
        (split; [done|]); [|done].
      intros _. unfold isfile_in. cbn [local with_trace]. by rewrite Hlog.
    - intros [= <- <-]. by split.
    - destruct (isdir_in (local w1) _ && writable _); intros [= <- <-].
      + split.
        * intros k Hk. cbn [local with_trace with_local]. by rewrite lookup_insert_ne.
        * intros _. unfold isfile_in. cbn [local with_trace with_local].
          by rewrite lookup_insert_eq.
      + by split. }
  assert (Hrest : isdir_in (local w) base_path = true ->
            (os_makedirs base_path;; open_append writable log_file_full_path) w
              = (r, w') ->
            (forall k, k <> log_file_full_path -> local w' !! k = local w !! k) /\
            (r = Ok tt -> isfile_in (local w') log_file_full_path = true)).
  { intros Hdir H. unfold bind, os_makedirs in H.
    rewrite (makedirs_closed _ _ Hclosed Hdir) in H.
    by apply Hopen in H. }
  assert (Hfile : forall a b, base_path <> [] ->
            local w !! base_path = Some (LFile a b) ->
            (os_makedirs base_path;; open_append writable log_file_full_path) w
              = (r, w') ->
            (exists e, r = Raise e) /\ local w' = local w).
  { intros a b Hne Hp H. unfold bind, os_makedirs in H.
    rewrite (makedirs_from_file base_path [] (local w) a b) in H; [|done|done|].
    - injection H as <- <-. split; [by eexists|done].
    - intros j Hj. apply (Hclosed _ _ Hp). lia. }
  destruct base_path as [|x p] eqn:Hbase.
  - (* the log file lies in the root directory *)
    destruct (writable []); cbn [negb] in Hrun.
    + destruct (Hrest eq_refl Hrun) as [Hk Hok].
      split; [done|]. split; [|by intros []].
      intros Hr. split; [done|by apply Hok].
    + injection Hrun as <- <-. split; [done|]. split; [done|]. by intros [].
  - destruct (local w !! (x :: p)) as [[a b|]|] eqn:Hp.
    + destruct (writable (x :: p)); cbn [negb] in Hrun.
      * destruct (Hfile a b ltac:(done) eq_refl Hrun) as [[e ->] Hloc].
        split; [intros k _; by rewrite Hloc|]. split; [done|]. done.
      * injection Hrun as <- <-. split; [done|]. split; [done|]. done.
    + destruct (writable (x :: p)); cbn [negb] in Hrun.
      * assert (Hdir : isdir_in (local w) (x :: p) = true).
        { unfold isdir_in. by rewrite Hp. }
        destruct (Hrest Hdir Hrun) as [Hk Hok].
        split; [done|]. split; [|done]. intros Hr. split; [done|by apply Hok].
      * injection Hrun as <- <-. split; [done|]. split; [done|]. done.
    + cbn [negb] in Hrun. injection Hrun as <- <-.
      split; [done|]. split; [done|]. done.
Qed.

(** ** [get_loop_device] *)

Lemma first_backed_by_skips (image : string) (before : list json) (rest : list json) :
  Forall (elsewhere image) before ->
  first_backed_by image (before ++ rest) = first_backed_by image rest.
Proof.
  induction 1 as [|ld before (fields & v & -> & Hf & Hne) _ IH]; [done|].
  simpl. by rewrite Hf, Hne.
Qed.

(** X20.  The loop device is reused.  When [losetup] lists loop devices,
    each with its backing file, [get_loop_device] returns the name of the
    first one that is backed by the image, and makes no other call: the
    image is not attached a second time.  Only when none of the devices
    listed is backed by the image is the image attached; the result is then
    what the attachment printed, without the white space around it, unless
    the attachment ends with a code other than zero: its error output is
    then logged and raised. *)
Theorem get_loop_device_reuses_or_attaches (O : losetup)
    (fields : list (string * json)) (lds : list json) :
  listing O = Some (JObject fields) ->
  field "loopdevices" fields = Some (JArray lds) ->
  (forall before ld after name,
     lds = before ++ ld :: after ->
     Forall (elsewhere USB_IMG) before -> backed_by USB_IMG name ld ->
     get_loop_device O = ([LosetupList], Returns name)) /\
  (Forall (elsewhere USB_IMG) lds ->
   get_loop_device O =
   if returncode O =? 0 then
     ([LosetupList; LosetupAttach USB_IMG], Returns (JString (strip (stdout O))))
   else
     ([LosetupList; LosetupAttach USB_IMG; LogError (stderr O)],
      Raises (FailedToSetUpLoopDevice (stderr O)))).
Proof.
  intros Hlisting Hfield. unfold get_loop_device. rewrite Hlisting.
  cbn [getitem]. rewrite Hfield. cbn [iterate]. split.
  - intros before ld after name -> Hbefore (flds & -> & Hback & Hname).
    rewrite first_backed_by_skips by done.
    cbn [first_backed_by getitem]. rewrite Hback. cbn [equals_str].
    rewrite String.eqb_refl. by rewrite Hname.
  - intros Hnone.
    rewrite <- (app_nil_r lds), first_backed_by_skips by done.
    cbn [first_backed_by]. by destruct (returncode O =? 0).
Qed.

(** ** The statements above on the inputs of the examples *)

(** The poller on a machine without a log directory: it ends with the
    permission error, and no directory has been made. *)
Lemma setup_logging_creates_no_directory_witness :
  let log := ["home"; "pi"; "logs"; "copyLogging.log"]%string in
  let r := (setup_logging (fun _ => true) log w_idle).1 in
  let w' := (setup_logging (fun _ => true) log w_idle).2 in
  (closed (local w_idle) /\
   setup_logging (fun _ => true) log w_idle = (r, w')) /\
  r = Raise (PermissionError (dirname log)) /\ w' = w_idle.
Proof.
  intros log r w'.
  assert (H1 : closed (local w_idle))
    by (apply closedb_closed; vm_compute; reflexivity).
  assert (H2 : setup_logging (fun _ => true) log w_idle = (r, w'))
    by (vm_compute; reflexivity).
  split; [exact (conj H1 H2)|].
  destruct (setup_logging_creates_no_directory (fun _ => true) log w_idle
              r w' H1 H2) as (_ & _ & Hmissing).
  apply Hmissing; [discriminate|vm_compute; reflexivity].
Defined.

(** With the log directory in place the log file is created in it. *)
Example setup_logging_with_log_directory :
  let log := ["home"; "pi"; "logs"; "copyLogging.log"]%string in
  let w := with_local w_idle (<[["home"; "pi"; "logs"]%string := LDir]> home) in
  (setup_logging (fun _ => true) log w).1 = Ok tt /\
  isfile_in (local w) log = false /\
  isfile_in (local (setup_logging (fun _ => true) log w).2) log = true.
Proof. split; [|split]; vm_compute; reflexivity. Qed.

(** The image is attached already: the device is the second one listed. *)
Lemma get_loop_device_reuses_or_attaches_witness :
  let fields :=
    [("loopdevices",
      JArray [JObject [("name", JString "/dev/loop0");
                       ("back-file", JString "/var/swap.img")];
              JObject [("name", JString "/dev/loop1");
                       ("back-file", JString "/piusb.bin")]])]%string in
  (listing image_attached = Some (JObject fields) /\
   field "loopdevices" fields =
     Some (JArray [JObject [("name", JString "/dev/loop0");
                            ("back-file", JString "/var/swap.img")];
                   JObject [("name", JString "/dev/loop1");
                            ("back-file", JString "/piusb.bin")]]%string)) /\
  get_loop_device image_attached = ([LosetupList], Returns (JString "/dev/loop1")).
Proof.
  intros fields.
  assert (H1 : listing image_attached = Some (JObject fields)) by reflexivity.
  assert (H2 : field "loopdevices" fields =
                 Some (JArray [JObject [("name", JString "/dev/loop0");
                                        ("back-file", JString "/var/swap.img")];
                               JObject [("name", JString "/dev/loop1");
                                        ("back-file", JString "/piusb.bin")]]%string))
    by reflexivity.
  split; [exact (conj H1 H2)|].
  destruct (get_loop_device_reuses_or_attaches image_attached fields _ H1 H2)
    as [Hreuse _].
  apply (Hreuse [JObject [("name", JString "/dev/loop0");
                          ("back-file", JString "/var/swap.img")]%string]
           (JObject [("name", JString "/dev/loop1");
                     ("back-file", JString "/piusb.bin")]%string) []).
  - reflexivity.
  - constructor; [|constructor].
    eexists _, _. split; [reflexivity|]. split; reflexivity.
  - eexists. split; [reflexivity|]. split; reflexivity.
Defined.

(** The image is not attached: the attachment prints the device, and the
    line end is taken off. *)
Example attaches_when_not_listed :
  get_loop_device image_detached =
  ([LosetupList; LosetupAttach USB_IMG], Returns (JString "/dev/loop1")).
Proof. reflexivity. Qed.

End StartupFacts.
